(** * Sub-vid-merger: the subtitle pipeline and the merge orchestrator

    A shallow embedding of [streamlit_app.py]: the SubRip parser, the
    CJK/Latin classifier and splitter, the timestamp codecs, the ASS
    generator with its layout computation, and [process_episode] with its
    scratch directory, external processes and exception handling.

    Python values are modelled as follows.
    - [int]   : [Z] (unbounded).
    - [float] : the finite binary64 values, as rationals ([Q], always in
      reduced form); every arithmetic operation is the exact operation
      followed by [round64], rounding to nearest, ties to even, with 53
      bits of precision and gradual underflow.  Infinities arise in this
      program only where the next step is [int(...)], which raises on
      them; they are modelled by [None] at those places.
    - [str]   : the list of its code points ([list Z]).
    - [bytes] : [list Z] as well (each element below 256). *)

From Stdlib Require Import ZArith QArith Qround Qpower Qabs Lia Bool.
From Stdlib Require Import String Ascii List.
From Stdlib Require Import Floats Uint63.
From stdpp Require Import gmap list.
Import ListNotations.

Local Open Scope Z_scope.

(** ** Binary64 arithmetic *)

Module F64.

Definition pow2 (k : Z) : Q := (2 ^ k)%Q.

(** [ilog2 x] is the binary exponent of a positive rational:
    [2^(ilog2 x) <= x < 2^(ilog2 x + 1)]. *)
Definition ilog2 (x : Q) : Z :=
  let k := Z.log2 (Qnum x) - Z.log2 (Zpos (Qden x)) in
  if Qle_bool (pow2 k) x then k else k - 1.

(** Exponent of the unit in the last place: 53 significant bits, and no
    exponent below that of the subnormal numbers. *)
Definition fexp (x : Q) : Z := Z.max (ilog2 x - 52) (-1074).

(** Nearest integer, ties to even. *)
Definition rne (y : Q) : Z :=
  let f := Qfloor y in
  match (y - inject_Z f ?= 1 # 2)%Q with
  | Lt => f
  | Gt => f + 1
  | Eq => if Z.even f then f else f + 1
  end.

Definition round_pos (x : Q) : Q :=
  Qred (inject_Z (rne (x * pow2 (- fexp x))) * pow2 (fexp x)).

Definition round64 (x : Q) : Q :=
  match Qnum x with
  | Z0 => 0%Q
  | Zpos _ => round_pos x
  | Zneg _ => (- round_pos (- x))%Q
  end.

(** A rounded result of magnitude [2^1024] or more is an overflow. *)
Definition finite (x : Q) : option Q :=
  if Qle_bool (pow2 1024) (Qabs x) then None else Some x.

Definition fadd (x y : Q) : Q := round64 (x + y).
Definition fsub (x y : Q) : Q := round64 (x - y).
Definition fmul (x y : Q) : Q := round64 (x * y).
Definition fdiv (x y : Q) : Q := round64 (x / y).

(** [float(n)] for an int; raises OverflowError beyond the range. *)
Definition of_int (n : Z) : option Q := finite (round64 (inject_Z n)).

(** [a / b] on two ints (true division, correctly rounded); [b <> 0]. *)
Definition int_truediv (a b : Z) : Q := round64 (inject_Z a / inject_Z b).

(** A decimal literal [n / 10^k] of the source text. *)
Definition literal (n : Z) (d : positive) : Q := round64 (n # d).

(** [int(x)]: truncation toward zero. *)
Definition trunc (x : Q) : Z :=
  if Qle_bool 0 x then Qfloor x else Qceiling x.

(** [math.floor] as used inside float floor division. *)
Definition floor (x : Q) : Q := inject_Z (Qfloor x).

(** C [fmod]: exact, with the sign of the dividend. *)
Definition fmod (x y : Q) : Q := Qred (x - y * inject_Z (trunc (x / y))).

Definition Qltb (x y : Q) : bool := negb (Qle_bool y x).

(** CPython's [_float_div_mod] (floatobject.c), for a divisor [wx <> 0]:
    the pair [(vx // wx, vx % wx)]. *)
Definition float_div_mod (vx wx : Q) : Q * Q :=
  let mod0 := fmod vx wx in
  let div0 := fdiv (fsub vx mod0) wx in
  let '(md, dv) :=
    if Qeq_bool mod0 0 then (0%Q, div0)
    else if negb (eqb (Qltb wx 0) (Qltb mod0 0))
         then (fadd mod0 wx, fsub div0 1)
         else (mod0, div0) in
  let floordiv :=
    if Qeq_bool dv 0 then 0%Q
    else let fl := floor dv in
         if Qltb (1 # 2) (fsub dv fl) then fadd fl 1 else fl in
  (floordiv, md).

Definition floordiv (x y : Q) : Q := fst (float_div_mod x y).
Definition pymod (x y : Q) : Q := snd (float_div_mod x y).

(** The value of a kernel float, for comparing [round64] with the
    machine's own binary64 arithmetic. *)
Definition of_prim (f : PrimFloat.float) : option Q :=
  match Prim2SF f with
  | S754_zero _ => Some 0%Q
  | S754_finite s m e =>
      Some (Qred (inject_Z (if s then Zneg m else Zpos m) * pow2 e))
  | _ => None
  end.

End F64.

(** ** Python strings *)

Definition pystr := list Z.
Definition bytes := list Z.

(** A source literal (ASCII only) as a Python string. *)
Definition lit (s : string) : pystr :=
  map (fun a => Z.of_N (N_of_ascii a)) (list_ascii_of_string s).

Module Py.

Definition between (lo hi c : Z) : bool := (lo <=? c) && (c <=? hi).

(** [str.isspace] on one code point; also the class [\s] of [re]. *)
Definition isspace (c : Z) : bool :=
  between 0x9 0xD c || between 0x1C 0x20 c || (c =? 0x85) || (c =? 0xA0)
  || (c =? 0x1680) || between 0x2000 0x200A c || (c =? 0x2028)
  || (c =? 0x2029) || (c =? 0x202F) || (c =? 0x205F) || (c =? 0x3000).

(** The code points of the digit zero of every decimal digit block
    (general category Nd, Unicode 14); a block is ten consecutive code
    points.  [\d] and [int()] accept all of them. *)
Definition decimal_zeros : list Z :=
  [0x30; 0x660; 0x6F0; 0x7C0; 0x966; 0x9E6; 0xA66; 0xAE6; 0xB66; 0xBE6;
   0xC66; 0xCE6; 0xD66; 0xDE6; 0xE50; 0xED0; 0xF20; 0x1040; 0x1090;
   0x17E0; 0x1810; 0x1946; 0x19D0; 0x1A80; 0x1A90; 0x1B50; 0x1BB0;
   0x1C40; 0x1C50; 0xA620; 0xA8D0; 0xA900; 0xA9D0; 0xA9F0; 0xAA50;
   0xABF0; 0xFF10; 0x104A0; 0x10D30; 0x11066; 0x110F0; 0x11136; 0x111D0;
   0x112F0; 0x11450; 0x114D0; 0x11650; 0x116C0; 0x11730; 0x118E0;
   0x11950; 0x11C50; 0x11D50; 0x11DA0; 0x16A60; 0x16AC0; 0x16B50;
   0x1D7CE; 0x1D7D8; 0x1D7E2; 0x1D7EC; 0x1D7F6; 0x1E140; 0x1E2F0;
   0x1E950; 0x1FBF0].

Definition decimal_value (c : Z) : option Z :=
  match List.find (fun z => between z (z + 9) c) decimal_zeros with
  | Some z => Some (c - z)
  | None => None
  end.

Definition isdecimal (c : Z) : bool :=
  match decimal_value c with Some _ => true | None => false end.

(** [int(s)] on a string of decimal digits. *)
Definition int_of_digits (s : pystr) : option Z :=
  match s with
  | [] => None
  | _ => fold_left (fun acc c =>
                      match acc, decimal_value c with
                      | Some a, Some d => Some (10 * a + d)
                      | _, _ => None
                      end) s (Some 0)
  end.

Fixpoint lstrip_by (p : Z -> bool) (s : pystr) : pystr :=
  match s with
  | c :: s' => if p c then lstrip_by p s' else s
  | [] => []
  end.

Definition rstrip_by (p : Z -> bool) (s : pystr) : pystr :=
  rev (lstrip_by p (rev s)).

Definition strip_by (p : Z -> bool) (s : pystr) : pystr :=
  rstrip_by p (lstrip_by p s).

(** [s.strip()] *)
Definition strip (s : pystr) : pystr := strip_by isspace s.

(** [s.strip(chars)] *)
Definition strip_chars (chars : pystr) (s : pystr) : pystr :=
  strip_by (fun c => existsb (Z.eqb c) chars) s.

(** [s.split(sep)] for a separator of one code point. *)
Fixpoint split (sep : Z) (s : pystr) : list pystr :=
  match s with
  | [] => [[]]
  | c :: s' =>
      if c =? sep then [] :: split sep s'
      else match split sep s' with
           | l :: ls => (c :: l) :: ls
           | [] => [[c]]
           end
  end.

(** [sep.join(parts)] *)
Fixpoint join (sep : pystr) (parts : list pystr) : pystr :=
  match parts with
  | [] => []
  | [p] => p
  | p :: ps => p ++ sep ++ join sep ps
  end.

Fixpoint startswith (pre s : pystr) : bool :=
  match pre, s with
  | [], _ => true
  | a :: pre', b :: s' => (a =? b) && startswith pre' s'
  | _ :: _, [] => false
  end.

(** [sub in s] *)
Fixpoint contains (sub s : pystr) : bool :=
  startswith sub s || match s with [] => false | _ :: s' => contains sub s' end.

(** [s.replace(old, new)] for a non-empty [old]: leftmost occurrences,
    not overlapping.  [skip] counts the code points of an occurrence
    still to be passed over. *)
Fixpoint replace_from (old new : pystr) (skip : nat) (s : pystr) : pystr :=
  match s with
  | [] => []
  | c :: s' =>
      match skip with
      | S k => replace_from old new k s'
      | O => if startswith old s
             then new ++ replace_from old new (length old - 1) s'
             else c :: replace_from old new 0 s'
      end
  end.

Definition replace (old new s : pystr) : pystr := replace_from old new 0 s.

(** [s[-n:]] and [s[:n]] *)
Definition last_chars (n : nat) (s : pystr) : pystr := drop (length s - n) s.
Definition first_chars (n : nat) (s : pystr) : pystr := take n s.

Fixpoint uint_digits (d : Decimal.uint) : pystr :=
  match d with
  | Decimal.Nil => []
  | Decimal.D0 d => 48 :: uint_digits d
  | Decimal.D1 d => 49 :: uint_digits d
  | Decimal.D2 d => 50 :: uint_digits d
  | Decimal.D3 d => 51 :: uint_digits d
  | Decimal.D4 d => 52 :: uint_digits d
  | Decimal.D5 d => 53 :: uint_digits d
  | Decimal.D6 d => 54 :: uint_digits d
  | Decimal.D7 d => 55 :: uint_digits d
  | Decimal.D8 d => 56 :: uint_digits d
  | Decimal.D9 d => 57 :: uint_digits d
  end.

(** [format(n, "0<width>d")]: the sign, then zeros up to the width, then
    the digits.  Width 0 is plain [str(n)]. *)
Definition format_d (width : nat) (n : Z) : pystr :=
  let ds := uint_digits (N.to_uint (Z.to_N (Z.abs n))) in
  let sign := if n <? 0 then [45] else [] in
  sign ++ repeat 48 (width - length sign - length ds) ++ ds.

(** [format(x, ".<k>f")] for a finite float: the exact value rounded to
    [k] decimals, ties to even. *)
Definition format_f (k : nat) (x : Q) : pystr :=
  let scaled := F64.rne (Qabs x * inject_Z (10 ^ Z.of_nat k)) in
  let ds := uint_digits (N.to_uint (Z.to_N scaled)) in
  let ds := repeat 48 (S k - length ds) ++ ds in
  let sign := if F64.Qltb x 0 then [45] else [] in
  let ip := take (length ds - k) ds in
  let fp := drop (length ds - k) ds in
  sign ++ ip ++ (match k with O => [] | _ => 46 :: fp end).

End Py.

(** ** Regular expressions

    The fragment of [re] the program uses: character classes, greedy
    bounded or unbounded repetition of a class (with backtracking),
    concatenation and capturing groups (never nested).  None of the
    program's patterns matches the empty string. *)

Module Re.

Inductive regex :=
| Eps
| Cls (p : Z -> bool)
| Rep (p : Z -> bool) (lo : nat) (hi : option nat)
| Cat (r1 r2 : regex)
| Grp (r : regex).

Section Matcher.
Context {R : Type}.

(** Greedy repetition: take one more while allowed, and fall back to
    stopping here when the rest of the pattern fails further on. *)
Fixpoint rep (p : Z -> bool) (lo : nat) (hi : option nat) (n : nat)
    (s : pystr) (k : pystr -> option R) : option R :=
  let stop := if (lo <=? n)%nat then k s else None in
  match s with
  | c :: s' =>
      if p c && match hi with Some h => (n <? h)%nat | None => true end
      then match rep p lo hi (S n) s' k with
           | Some r => Some r
           | None => stop
           end
      else stop
  | [] => stop
  end.

Fixpoint run (r : regex) (s : pystr) (caps : list pystr)
    (k : pystr -> list pystr -> option R) : option R :=
  match r with
  | Eps => k s caps
  | Cls p => match s with
             | c :: s' => if p c then k s' caps else None
             | [] => None
             end
  | Rep p lo hi => rep p lo hi 0 s (fun s' => k s' caps)
  | Cat r1 r2 => run r1 s caps (fun s1 c1 => run r2 s1 c1 k)
  | Grp r1 =>
      run r1 s caps
        (fun s1 c1 => k s1 (c1 ++ [take (length s - length s1) s]))
  end.
End Matcher.

(** [re.match(r, s)]: the unmatched rest and the groups. *)
Definition rmatch (r : regex) (s : pystr) : option (pystr * list pystr) :=
  run r s [] (fun rest caps => Some (rest, caps)).

(** Number of code points of the match of [r] at the head of [s]. *)
Definition match_len (r : regex) (s : pystr) : option nat :=
  match rmatch r s with
  | Some (rest, _) => Some (length s - length rest)%nat
  | None => None
  end.

(** [re.sub(r, repl, s)] for a constant replacement. *)
Fixpoint sub_from (r : regex) (repl : pystr) (skip : nat) (s : pystr)
    : pystr :=
  match s with
  | [] => []
  | c :: s' =>
      match skip with
      | S k => sub_from r repl k s'
      | O => match match_len r s with
             | Some (S n) => repl ++ sub_from r repl n s'
             | _ => c :: sub_from r repl 0 s'
             end
      end
  end.

Definition sub (r : regex) (repl s : pystr) : pystr := sub_from r repl 0 s.

(** [re.split(r, s)] for a pattern without groups; [cur] is the piece
    being collected, in reverse. *)
Fixpoint split_from (r : regex) (skip : nat) (cur : pystr) (s : pystr)
    : list pystr :=
  match s with
  | [] => [rev cur]
  | c :: s' =>
      match skip with
      | S k => split_from r k cur s'
      | O => match match_len r s with
             | Some (S n) => rev cur :: split_from r n [] s'
             | _ => split_from r 0 (c :: cur) s'
             end
      end
  end.

Definition split (r : regex) (s : pystr) : list pystr := split_from r 0 [] s.

Definition chr (c : Z) : regex := Cls (Z.eqb c).
Definition one_of (cs : pystr) : regex := Cls (fun c => existsb (Z.eqb c) cs).
Definition none_of (cs : pystr) : regex :=
  Cls (fun c => negb (existsb (Z.eqb c) cs)).
Definition str (s : pystr) : regex := fold_right (fun c r => Cat (chr c) r) Eps s.
Definition digits (n : nat) : regex := Rep Py.isdecimal n (Some n).
Definition spaces : regex := Rep Py.isspace 0 None.
Fixpoint seq (rs : list regex) : regex :=
  match rs with
  | [] => Eps
  | r :: rs' => Cat r (seq rs')
  end.

End Re.

(** ** Settings *)

Definition CHINESE_MARGIN_V_PCT : Q := F64.literal 18 100.
Definition GAP_PCT : Q := F64.literal 15 1000.
Definition CHINESE_FONT_PCT : Q := F64.literal 52 1000.
Definition ENGLISH_FONT_PCT : Q := F64.literal 38 1000.

(** ** SRT utilities *)

Definition NL : Z := 10.
Definition CR : Z := 13.
Definition BOM : Z := 0xFEFF.

(** One subtitle cue, the dict [{'start', 'end', 'text'}]. *)
Record entry := Entry { e_start : Q; e_end : Q; e_text : pystr }.

(** [(\d{2}):(\d{2}):(\d{2})[,.](\d{3})] *)
Definition time_re : Re.regex :=
  Re.seq [Re.Grp (Re.digits 2); Re.chr 58; Re.Grp (Re.digits 2); Re.chr 58;
          Re.Grp (Re.digits 2); Re.one_of (lit ",."); Re.Grp (Re.digits 3)].

(** The timestamp line: two times around [\s*-->\s*]. *)
Definition timestamp_re : Re.regex :=
  Re.seq [time_re; Re.spaces; Re.str (lit "-->"); Re.spaces; time_re].

(** [\n\s*\n] *)
Definition blank_re : Re.regex := Re.seq [Re.chr NL; Re.spaces; Re.chr NL].

(** [<[^>]+>] *)
Definition angle_tag_re : Re.regex :=
  Re.seq [Re.chr 60; Re.Rep (fun c => negb (c =? 62)) 1 None; Re.chr 62].

(** [\{[^}]+\}] *)
Definition brace_tag_re : Re.regex :=
  Re.seq [Re.chr 123; Re.Rep (fun c => negb (c =? 125)) 1 None; Re.chr 125].

(** [int(g[i])*3600 + int(g[i+1])*60 + int(g[i+2]) + int(g[i+3])/1000];
    [None] stands for the ValueError of [int()]. *)
Definition group_seconds (g : list pystr) (i : nat) : option Q :=
  hh ← g !! i ≫= Py.int_of_digits;
  mm ← g !! (i + 1)%nat ≫= Py.int_of_digits;
  ss ← g !! (i + 2)%nat ≫= Py.int_of_digits;
  ms ← g !! (i + 3)%nat ≫= Py.int_of_digits;
  Some (F64.fadd (F64.round64 (inject_Z (hh * 3600 + mm * 60 + ss)))
                 (F64.int_truediv ms 1000)).

(** The inner [for li, line in enumerate(lines)] with its [break]: the
    groups of the first matching line and its index. *)
Fixpoint find_time (lines : list pystr) (li : nat)
    : option (list pystr * nat) :=
  match lines with
  | [] => None
  | line :: rest =>
      match Re.rmatch timestamp_re (Py.strip line) with
      | Some (_, g) => Some (g, li)
      | None => find_time rest (S li)
      end
  end.

(** The markup stripping of an entry's text. *)
Definition clean_text (text : pystr) : pystr :=
  Py.strip (Re.sub brace_tag_re [] (Re.sub angle_tag_re [] text)).

(** One turn of [for block in re.split(...)]: [entries] after the turn. *)
Definition parse_block (entries : list entry) (block : pystr)
    : option (list entry) :=
  let lines := Py.split NL (Py.strip block) in
  if (length lines <? 2)%nat then Some entries
  else
    match find_time lines 0 with
    | None => Some entries
    | Some (g, time_idx) =>
        start ← group_seconds g 0;
        end_ ← group_seconds g 4;
        let text := Py.join [NL] (drop (time_idx + 1) lines) in
        let text := clean_text text in
        match text with
        | [] => Some entries
        | _ => Some (entries ++ [Entry start end_ text])
        end
    end.

Definition normalize_newlines (content : pystr) : pystr :=
  Py.replace [CR] [NL] (Py.replace [CR; NL] [NL] (Py.replace [BOM] [] content)).

Definition srt_blocks (content : pystr) : list pystr :=
  Re.split blank_re (Py.strip (normalize_newlines content)).

(** [parse_srt] from the decoded file content on. *)
Definition parse_srt_text (content : pystr) : option (list entry) :=
  fold_left (fun acc block => entries ← acc; parse_block entries block)
            (srt_blocks content) (Some []).

Inductive language := Cjk | Latin.

Definition is_cjk_codepoint (cp : Z) : bool :=
  Py.between 0x4E00 0x9FFF cp || Py.between 0x3400 0x4DBF cp
  || Py.between 0xF900 0xFAFF cp || Py.between 0x2E80 0x2EFF cp
  || Py.between 0x3000 0x303F cp || Py.between 0xFF00 0xFFEF cp
  || Py.between 0xAC00 0xD7AF cp || Py.between 0x3040 0x309F cp
  || Py.between 0x30A0 0x30FF cp.

(** One turn of [for ch in text] on the pair [(cjk, total)]. *)
Definition count_step (st : Z * Z) (cp : Z) : Z * Z :=
  let '(cjk, total) := st in
  let total := total + 1 in
  if is_cjk_codepoint cp then (cjk + 1, total) else (cjk, total).

Definition count_codepoints (text : pystr) : Z * Z :=
  fold_left count_step text (0, 0).

Definition detect_language (text : pystr) : language :=
  let '(cjk, total) := count_codepoints text in
  if total =? 0 then Latin
  else if F64.Qltb (F64.literal 2 10) (F64.int_truediv cjk total)
       then Cjk else Latin.

Definition is_cjk (l : language) : bool :=
  match l with Cjk => true | Latin => false end.

Definition nonempty (s : pystr) : bool :=
  match s with [] => false | _ => true end.

(** [[l.strip() for l in text.split('\n') if l.strip()]] *)
Definition stripped_lines (text : pystr) : list pystr :=
  map Py.strip (List.filter (fun l => nonempty (Py.strip l)) (Py.split NL text)).

Definition split_step (st : list pystr * list pystr) (line : pystr)
    : list pystr * list pystr :=
  let '(cjk_lines, lat_lines) := st in
  if is_cjk (detect_language line)
  then (cjk_lines ++ [line], lat_lines)
  else (cjk_lines, lat_lines ++ [line]).

Definition split_cjk_latin (text : pystr) : pystr * pystr :=
  let '(cjk_lines, lat_lines) :=
    fold_left split_step (stripped_lines text) ([], []) in
  (Py.join [NL] cjk_lines, Py.join [NL] lat_lines).

Definition format_ass_time (s : Q) : pystr :=
  let h := F64.trunc (F64.floordiv s 3600) in
  let m := F64.trunc (F64.floordiv (F64.pymod s 3600) 60) in
  let sc := F64.trunc (F64.pymod s 60) in
  let cs := F64.trunc (F64.fmul (F64.pymod s 1) 100) in
  Py.format_d 0 h ++ lit ":" ++ Py.format_d 2 m ++ lit ":"
  ++ Py.format_d 2 sc ++ lit "." ++ Py.format_d 2 cs.

Definition format_srt_time (s : Q) : pystr :=
  let h := F64.trunc (F64.floordiv s 3600) in
  let m := F64.trunc (F64.floordiv (F64.pymod s 3600) 60) in
  let sc := F64.trunc (F64.pymod s 60) in
  let ms := F64.trunc (F64.fmul (F64.pymod s 1) 1000) in
  Py.format_d 2 h ++ lit ":" ++ Py.format_d 2 m ++ lit ":"
  ++ Py.format_d 2 sc ++ lit "," ++ Py.format_d 3 ms.

(** ** The ASS generator *)

Record layout := Layout {
  cjk_fs : Z; lat_fs : Z; mlr : Z; cjk_mv : Z; eng_mv : Z }.

(** [int(n * c)] for an int [n] and a float [c]; [None] is the
    OverflowError of the conversions. *)
Definition int_times (n : Z) (c : Q) : option Z :=
  x ← F64.of_int n;
  p ← F64.finite (F64.fmul x c);
  Some (F64.trunc p).

(** Lines 202 to 209 of [create_ass]. *)
Definition create_ass_layout (w h : Z) (margin_v_pct : option Q)
    : option layout :=
  let margin_v_pct := default CHINESE_MARGIN_V_PCT margin_v_pct in
  a ← int_times h CHINESE_FONT_PCT;
  let cjk_fs := Z.max a 26 in
  b ← int_times h ENGLISH_FONT_PCT;
  let lat_fs := Z.max b 20 in
  mlr ← int_times w (F64.literal 6 100);
  cjk_mv ← int_times h margin_v_pct;
  g ← int_times h GAP_PCT;
  let eng_mv := cjk_mv + cjk_fs + g in
  Some (Layout cjk_fs lat_fs mlr cjk_mv eng_mv).

Definition str_of_int (n : Z) : pystr := Py.format_d 0 n.

Definition ass_header (w h : Z) (l : layout) : pystr :=
  lit "[Script Info]" ++ [NL]
  ++ lit "ScriptType: v4.00+" ++ [NL]
  ++ lit "PlayResX: " ++ str_of_int w ++ [NL]
  ++ lit "PlayResY: " ++ str_of_int h ++ [NL]
  ++ lit "WrapStyle: 0" ++ [NL]
  ++ lit "ScaledBorderAndShadow: yes" ++ [NL; NL]
  ++ lit "[V4+ Styles]" ++ [NL]
  ++ lit "Format: Name, Fontname, Fontsize, "
  ++ lit "PrimaryColour, SecondaryColour, "
  ++ lit "OutlineColour, BackColour, Bold, Italic, "
  ++ lit "Underline, StrikeOut, ScaleX, ScaleY, "
  ++ lit "Spacing, Angle, BorderStyle, Outline, Shadow, "
  ++ lit "Alignment, MarginL, MarginR, MarginV, Encoding" ++ [NL]
  ++ lit "Style: Chinese,"
  ++ lit "Arial Unicode MS," ++ str_of_int (cjk_fs l) ++ lit ","
  ++ lit "&H00FFFFFF,&H000000FF,&H00000000,&H96000000,"
  ++ lit "-1,0,0,0,100,100,0,0,1,3,1,2,"
  ++ str_of_int (mlr l) ++ lit "," ++ str_of_int (mlr l) ++ lit ","
  ++ str_of_int (cjk_mv l) ++ lit ",1" ++ [NL]
  ++ lit "Style: English,"
  ++ lit "Arial," ++ str_of_int (lat_fs l) ++ lit ","
  ++ lit "&H00FFFFFF,&H000000FF,&H00000000,&H96000000,"
  ++ lit "0,0,0,0,100,100,0,0,1,2,1,2,"
  ++ str_of_int (mlr l) ++ lit "," ++ str_of_int (mlr l) ++ lit ","
  ++ str_of_int (eng_mv l) ++ lit ",1" ++ [NL; NL]
  ++ lit "[Events]" ++ [NL]
  ++ lit "Format: Layer, Start, End, Style, Name, "
  ++ lit "MarginL, MarginR, MarginV, Effect, Text" ++ [NL].

(** A line feed becomes the forced line break of ASS, backslash and
    the letter N. *)
Definition ass_breaks (text : pystr) : pystr :=
  Py.replace [NL] [92; 78] text.

Definition dialogue (s en : pystr) (style : string) (text : pystr) : pystr :=
  lit "Dialogue: 0," ++ s ++ lit "," ++ en ++ lit "," ++ lit style
  ++ lit ",,0,0,0,," ++ text ++ [NL].

(** One turn of [for e in entries]: [dlg] after the turn. *)
Definition dialogue_step (dlg : list pystr) (e : entry) : list pystr :=
  let s := format_ass_time (e_start e) in
  let en := format_ass_time (e_end e) in
  let '(cjk, lat) := split_cjk_latin (e_text e) in
  if nonempty cjk && nonempty lat then
    (dlg ++ [dialogue s en "Chinese" (ass_breaks cjk)])
    ++ [dialogue s en "English" (ass_breaks lat)]
  else if nonempty cjk then
    dlg ++ [dialogue s en "Chinese" (ass_breaks cjk)]
  else
    let fb := ass_breaks (if nonempty lat then lat else e_text e) in
    dlg ++ [dialogue s en "English" fb].

Definition dialogues (entries : list entry) : list pystr :=
  fold_left dialogue_step entries [].

(** What [create_ass] writes to [ass_path], and what it returns. *)
Definition ass_script (entries : list entry) (w h : Z)
    (margin_v_pct : option Q) : option (pystr * Z) :=
  l ← create_ass_layout w h margin_v_pct;
  Some (ass_header w h l ++ concat (dialogues entries),
        Z.of_nat (length entries)).

(** One block written by [clean_srt]; [i] counts from 1. *)
Definition srt_block (i : Z) (e : entry) : pystr :=
  str_of_int i ++ [NL]
  ++ format_srt_time (e_start e) ++ lit " --> "
  ++ format_srt_time (e_end e) ++ [NL]
  ++ e_text e ++ [NL; NL].

Fixpoint srt_blocks_from (i : Z) (entries : list entry) : pystr :=
  match entries with
  | [] => []
  | e :: rest => srt_block i e ++ srt_blocks_from (i + 1) rest
  end.

Definition clean_srt_text (entries : list entry) : pystr :=
  srt_blocks_from 1 entries.

(** ** The world of one job

    The file system holds regular files (path to content) and
    directories; [procs] is the list of external commands launched so
    far, oldest first. *)

Record filesystem := FS { files : gmap pystr bytes; dirs : gset pystr }.
Record world := World { w_fs : filesystem; procs : list (list pystr) }.

(** A raised exception: whether its class derives from [Exception] (so
    that [except Exception] catches it; KeyboardInterrupt, SystemExit and
    Streamlit's script-control exceptions do not), and [str(ex)]. *)
Record exn := Exn { catchable : bool; exn_text : pystr }.

Inductive outcome (A : Type) :=
| Ok (a : A)
| Raise (e : exn).
Arguments Ok {A} a.
Arguments Raise {A} e.

(** Computations that read and change the world and may raise. *)
Definition M (A : Type) : Type := world -> outcome A * world.

Definition ret {A} (a : A) : M A := fun w => (Ok a, w).
Definition raise {A} (e : exn) : M A := fun w => (Raise e, w).
Definition bind {A B} (m : M A) (k : A -> M B) : M B :=
  fun w => match m w with
           | (Ok a, w') => k a w'
           | (Raise e, w') => (Raise e, w')
           end.

Notation "'let*' x ':=' m 'in' k" := (bind m (fun x => k))
  (at level 10, x name, m at level 200, k at level 200).

(** [try: m  except Exception as ex: h ex] *)
Definition try_except {A} (m : M A) (h : exn -> M A) : M A :=
  fun w => match m w with
           | (Raise e, w') => if catchable e then h e w' else (Raise e, w')
           | r => r
           end.

(** [try: m  finally: f], for an [f] that does not raise. *)
Definition try_finally {A} (m : M A) (f : M unit) : M A :=
  fun w => match m w with
           | (r, w') => (r, snd (f w'))
           end.

Definition get_fs : M filesystem := fun w => (Ok (w_fs w), w).
Definition put_fs (fs : filesystem) : M unit :=
  fun w => (Ok tt, World fs (procs w)).

Definition error (text : string) : exn := Exn true (lit text).

(** The result of [subprocess.run(..., capture_output=True)]. *)
Record completed := Completed {
  returncode : Z; stdout : pystr; stderr : pystr }.

Record video_info := VideoInfo { width : Z; height : Z; duration : Q }.

Inductive codec := Utf8Sig | Utf8 | Latin1 | Cp1252.

Inductive io_op :=
| OpWrite (path : pystr)
| OpRead (path : pystr)
| OpSize (path : pystr)
| OpRemove (path : pystr).

(** What the program takes from its libraries and its environment.
    - [env_mkdtemp]: the directory [tempfile.mkdtemp] creates, or its
      exception;
    - [env_fault]: the exception, if any, of a file operation
      ([OpRemove] is the removal of a file or of a directory, by
      [os.remove] or inside [shutil.rmtree]);
    - [env_run]: [subprocess.run] of a command with a timeout on a file
      system: the completed process, or [None] when the call raised
      (TimeoutExpired, a missing program), and the file system it leaves;
    - [env_decode], [env_decode_replace], [env_encode]: the text codecs;
    - [env_probe]: lines 304 to 313 of [get_video_info] on the probe's
      output ([json.loads] and the loop over the streams), [None] when
      they raise;
    - [env_suffix]: [Path(name).suffix.lower()]. *)
Record environment := Env {
  env_mkdtemp : filesystem -> outcome pystr;
  env_fault : io_op -> filesystem -> option exn;
  env_run : list pystr -> Z -> filesystem -> option completed * filesystem;
  env_decode : codec -> bytes -> option pystr;
  env_decode_replace : bytes -> pystr;
  env_encode : pystr -> bytes;
  env_probe : pystr -> option video_info;
  env_suffix : pystr -> pystr }.

(** [os.path.join(d, name)] for a relative [name]. *)
Definition path_join (d name : pystr) : pystr := d ++ lit "/" ++ name.

(** A path strictly inside directory [d]. *)
Definition under (d p : pystr) : bool := Py.startswith (d ++ lit "/") p.

Section Primitives.
Variable env : environment.

Definition check_fault (op : io_op) : M unit :=
  let* fs := get_fs in
  match env_fault env op fs with
  | Some e => raise e
  | None => ret tt
  end.

(** [tempfile.mkdtemp(prefix='st_merger_')] *)
Definition mkdtemp : M pystr :=
  let* fs := get_fs in
  match env_mkdtemp env fs with
  | Raise e => raise e
  | Ok d => let* _ := put_fs (FS (files fs) ({[d]} ∪ dirs fs)) in ret d
  end.

(** [shutil.rmtree(d, ignore_errors=True)]: the removal of everything
    beneath [d] and of [d] itself is attempted, and every error is
    swallowed.  A file whose removal fails stays.  A directory stays
    when its own removal fails, or when something beneath it stays (a
    directory that is not empty cannot be removed).  Nothing outside
    [d] is touched, and the call never raises.  The failures are those
    of [OpRemove], on the file system the call finds. *)
Definition rmtree (d : pystr) : M unit :=
  let* fs := get_fs in
  let left :=
    filter (fun kv : pystr * bytes =>
              under d kv.1 = false
              \/ is_Some (env_fault env (OpRemove kv.1) fs)) (files fs) in
  put_fs
    (FS left
        (filter (fun q : pystr =>
                   (q <> d /\ under d q = false)
                   \/ is_Some (env_fault env (OpRemove q) fs)
                   \/ map_Exists (fun p _ => under q p = true) left
                   \/ set_Exists
                        (fun q' => under q q' = true
                                   /\ is_Some (env_fault env (OpRemove q') fs))
                        (dirs fs))
                (dirs fs))).

(** [with open(path, 'wb') as f: f.write(data)] *)
Definition write_file (path : pystr) (data : bytes) : M unit :=
  let* _ := check_fault (OpWrite path) in
  let* fs := get_fs in
  put_fs (FS (<[path := data]> (files fs)) (dirs fs)).

(** [with open(path, 'rb') as f: f.read()] *)
Definition read_file (path : pystr) : M bytes :=
  let* _ := check_fault (OpRead path) in
  let* fs := get_fs in
  match files fs !! path with
  | Some data => ret data
  | None => raise (error "No such file or directory")
  end.

(** [os.path.getsize(path)] *)
Definition getsize (path : pystr) : M Z :=
  let* _ := check_fault (OpSize path) in
  let* fs := get_fs in
  match files fs !! path with
  | Some data => ret (Z.of_nat (length data))
  | None => raise (error "No such file or directory")
  end.

(** [os.path.exists(path)] *)
Definition path_exists (path : pystr) : M bool :=
  let* fs := get_fs in
  ret (bool_decide (is_Some (files fs !! path)) || bool_decide (path ∈ dirs fs)).

(** [os.remove(path)] *)
Definition os_remove (path : pystr) : M unit :=
  let* _ := check_fault (OpRemove path) in
  let* fs := get_fs in
  match files fs !! path with
  | Some _ => put_fs (FS (delete path (files fs)) (dirs fs))
  | None => raise (error "No such file or directory")
  end.

(** [subprocess.run(cmd, capture_output=True, timeout=t)] inside a
    [try] whose handlers turn every exception into [None]. *)
Definition subprocess_run (cmd : list pystr) (timeout : Z)
    : M (option completed) :=
  fun w =>
    let '(r, fs') := env_run env cmd timeout (w_fs w) in
    (Ok r, World fs' (procs w ++ [cmd])).

End Primitives.

(** ** The program's effectful functions *)

(** [os.path.abspath] on the paths of a job, which are absolute. *)
Definition abspath (p : pystr) : pystr := p.

(** [str(Path(out).with_suffix('.mkv'))] for an [out] ending in [.mp4]. *)
Definition with_suffix_mkv (out : pystr) : pystr :=
  take (length out - 4) out ++ lit ".mkv".

(** The dict [{'success', 'output_bytes', 'filename', 'message'}]. *)
Record merge_result := MergeResult {
  success : bool;
  output_bytes : option bytes;
  filename : option pystr;
  message : pystr }.

Definition failure (msg : pystr) : merge_result :=
  MergeResult false None None msg.

Record filters := Filters { f_subtitles : bool; f_ass : bool }.

(** Lines 490 and 491: the class of the characters unsafe in file
    names (less-than, greater-than, colon, double quote, slash,
    backslash, bar, question mark, star) and the runs of underscores. *)
Definition unsafe_re : Re.regex :=
  Re.one_of [60; 62; 58; 34; 47; 92; 124; 63; 42].
Definition underscores_re : Re.regex := Re.Rep (fun c => c =? 95) 1 None.

Definition safe_name (ep_name : pystr) : pystr :=
  let safe := Re.sub unsafe_re (lit "_") ep_name in
  let safe := Py.strip_chars (lit "_") (Re.sub underscores_re (lit "_") safe) in
  if nonempty safe then safe else lit "episode".

Definition or_default (s d : pystr) : pystr := if nonempty s then s else d.

Definition str_eqb (a b : pystr) : bool := bool_decide (a = b).

(** [result.stderr[-200:] if result and result.stderr else dflt] *)
Definition stderr_tail (result : option completed) (dflt : string) : pystr :=
  match result with
  | Some r => if nonempty (stderr r) then Py.last_chars 200 (stderr r)
              else lit dflt
  | None => lit dflt
  end.

Section Program.
Variable env : environment.

Definition universal_newlines (t : pystr) : pystr :=
  Py.replace [CR] [NL] (Py.replace [CR; NL] [NL] t).

(** [with open(path, 'r', encoding=enc) as f: content = f.read()] *)
Definition read_text (path : pystr) (enc : codec) : M pystr :=
  let* data := read_file env path in
  match env_decode env enc data with
  | Some t => ret (universal_newlines t)
  | None => raise (error "codec can't decode bytes")
  end.

(** The [for enc in encodings] of [parse_srt], with its [break] and
    its [continue]. *)
Fixpoint read_first (encodings : list codec) (path : pystr)
    : M (option pystr) :=
  match encodings with
  | [] => ret None
  | enc :: rest =>
      let* r := try_except (let* t := read_text path enc in ret (Some t))
                     (fun _ => ret None) in
      match r with
      | Some t => ret (Some t)
      | None => read_first rest path
      end
  end.

Definition parse_srt (path : pystr) : M (list entry) :=
  let* content := read_first [Utf8Sig; Utf8; Latin1; Cp1252] path in
  let* content := match content with
            | Some (c :: t) => ret (c :: t)
            | _ => let* data := read_file env path in
                   ret (universal_newlines (env_decode_replace env data))
            end in
  match parse_srt_text content with
  | Some entries => ret entries
  | None => raise (error "invalid literal for int() with base 10")
  end.

(** [with open(path, 'w', encoding='utf-8') as f: f.write(text)] *)
Definition write_text (path : pystr) (text : pystr) : M unit :=
  write_file env path (env_encode env text).

Definition create_ass (srt_path ass_path : pystr) (w h : Z)
    (margin_v_pct : option Q) : M Z :=
  let* entries := parse_srt srt_path in
  match ass_script entries w h margin_v_pct with
  | None => raise (error "int too large to convert to float")
  | Some (text, n) => let* _ := write_text ass_path text in ret n
  end.

Definition clean_srt (src dst : pystr) : M Z :=
  let* entries := parse_srt src in
  let* _ := write_text dst (clean_srt_text entries) in
  ret (Z.of_nat (length entries)).

Definition default_info : video_info := VideoInfo 1920 1080 0.

Definition get_video_info (path : pystr) : M video_info :=
  let* r := subprocess_run env
        [lit "ffprobe"; lit "-v"; lit "quiet";
         lit "-print_format"; lit "json";
         lit "-show_streams"; lit "-show_format"; path] 30 in
  match r with
  | Some c =>
      if returncode c =? 0
      then ret (default default_info (env_probe env (stdout c)))
      else ret default_info
  | None => ret default_info
  end.

(** [check_filters], without the sixty-second cache of its decorator. *)
Definition check_filters : M filters :=
  let* r := subprocess_run env [lit "ffmpeg"; lit "-filters"] 10 in
  match r with
  | Some c =>
      let ls := Py.split NL (stdout c) in
      ret (Filters
             (existsb (fun l => Py.contains (lit "subtitles") l
                                && Py.contains (lit "V->V") l) ls)
             (existsb (fun l => Py.contains (lit " ass ") l
                                && Py.contains (lit "V->V") l) ls))
  | None => ret (Filters false false)
  end.

Definition run_ff (cmd : list pystr) (timeout : Z) : M (option completed) :=
  subprocess_run env cmd timeout.

Definition good (result : option completed) (path : pystr) : M bool :=
  match result with
  | None => ret false
  | Some r =>
      if returncode r =? 0 then
        let* ex := path_exists path in
        if ex then let* sz := getsize env path in ret (10000 <? sz)
        else ret false
      else ret false
  end.

(** The two replacements on a path: backslash by slash, then colon by
  backslash and colon. *)
Definition escape_path (p : pystr) : pystr :=
  Py.replace (lit ":") [92; 58] (Py.replace [92] (lit "/") p).

Definition method : Type :=
  pystr -> pystr -> pystr -> pystr -> pystr -> video_info -> Q
  -> M (option completed).

Definition burn_ass : method :=
  fun video sub out sub_ext work_dir info margin_v_pct =>
  let ass := path_join work_dir (lit "styled.ass") in
  let* n := create_ass (abspath sub) ass (width info) (height info)
                 (Some margin_v_pct) in
  if n =? 0 then ret None
  else
    let esc := escape_path (abspath ass) in
    run_ff [lit "ffmpeg"; lit "-y";
            lit "-i"; abspath video;
            lit "-vf"; lit "ass='" ++ esc ++ lit "'";
            lit "-c:v"; lit "libx264"; lit "-crf"; lit "20";
            lit "-preset"; lit "fast";
            lit "-c:a"; lit "aac"; lit "-b:a"; lit "192k";
            lit "-movflags"; lit "+faststart";
            abspath out] 7200.

Definition burn_subtitles : method :=
  fun video sub out sub_ext work_dir info margin_v_pct =>
  let abs_sub := abspath sub in
  let esc := escape_path abs_sub in
  let vf := if str_eqb sub_ext (lit ".ass") || str_eqb sub_ext (lit ".ssa")
            then lit "ass='" ++ esc ++ lit "'"
            else lit "subtitles='" ++ esc ++ lit "'" in
  run_ff [lit "ffmpeg"; lit "-y";
          lit "-i"; abspath video;
          lit "-vf"; vf;
          lit "-c:v"; lit "libx264"; lit "-crf"; lit "20";
          lit "-preset"; lit "fast";
          lit "-c:a"; lit "aac"; lit "-b:a"; lit "192k";
          lit "-movflags"; lit "+faststart";
          abspath out] 7200.

Definition burn_ffmpeg_conv : method :=
  fun video sub out sub_ext work_dir info margin_v_pct =>
  let conv := path_join work_dir (lit "conv.ass") in
  let* r := run_ff [lit "ffmpeg"; lit "-y"; lit "-i"; abspath sub; conv] 60 in
  let* ok := match r with
       | Some c => if returncode c =? 0 then path_exists conv else ret false
       | None => ret false
       end in
  if negb ok then ret None
  else
    let esc := escape_path (abspath conv) in
    run_ff [lit "ffmpeg"; lit "-y";
            lit "-i"; abspath video;
            lit "-vf"; lit "ass='" ++ esc ++ lit "'";
            lit "-c:v"; lit "libx264"; lit "-crf"; lit "20";
            lit "-preset"; lit "fast";
            lit "-c:a"; lit "aac"; lit "-b:a"; lit "192k";
            lit "-movflags"; lit "+faststart";
            abspath out] 7200.

Definition soft_mkv (video sub out sub_ext : pystr)
    : M (option completed * pystr) :=
  let mkv := with_suffix_mkv out in
  let sc := if str_eqb sub_ext (lit ".ass") || str_eqb sub_ext (lit ".ssa")
            then lit "ass" else lit "srt" in
  let* r := run_ff [lit "ffmpeg"; lit "-y";
              lit "-i"; abspath video;
              lit "-i"; abspath sub;
              lit "-map"; lit "0:v"; lit "-map"; lit "0:a?";
              lit "-map"; lit "1:0";
              lit "-c:v"; lit "copy"; lit "-c:a"; lit "copy";
              lit "-c:s"; sc;
              lit "-metadata:s:s:0"; lit "language=eng";
              lit "-disposition:s:0"; lit "default";
              mkv] 3600 in
  ret (r, mkv).

Definition soft_mp4 (video sub out sub_ext work_dir : pystr)
    : M (option completed) :=
  let clean := path_join work_dir (lit "clean.srt") in
  let* _ := clean_srt (abspath sub) clean in
  run_ff [lit "ffmpeg"; lit "-y";
          lit "-i"; abspath video;
          lit "-i"; clean;
          lit "-map"; lit "0:v"; lit "-map"; lit "0:a?";
          lit "-map"; lit "1:0";
          lit "-c:v"; lit "copy"; lit "-c:a"; lit "copy";
          lit "-c:s"; lit "mov_text";
          lit "-metadata:s:s:0"; lit "language=eng";
          lit "-disposition:s:0"; lit "default";
          lit "-movflags"; lit "+faststart";
          abspath out] 3600.

End Program.

(** ** The core process *)

Section Episode.
Variable env : environment.
Variables video_bytes : bytes.
Variables video_name : pystr.
Variables srt_bytes : bytes.
Variables srt_name ep_name merge_type : pystr.
Variable margin_v_pct : Q.
Variable log_fn : option (pystr -> M unit).

Definition log (msg : pystr) : M unit :=
  match log_fn with
  | Some f => f msg
  | None => ret tt
  end.

Definition hard_methods : list (pystr * method) :=
  [(lit "Dual-style ASS burn", burn_ass env);
   (lit "Subtitles filter", burn_subtitles env);
   (lit "FFmpeg ASS convert", burn_ffmpeg_conv env)].

(** The [for mname, mfn in methods] of the hard branch on the pair
    [(success, last_err)]; a [true] first component is the [break]. *)
Fixpoint hard_loop (methods : list (pystr * method))
    (v_path s_path out_path s_ext job_dir : pystr) (info : video_info)
    (last_err : pystr) : M (bool * pystr) :=
  match methods with
  | [] => ret (false, last_err)
  | (mname, mfn) :: rest =>
      let* _ := log (lit "Trying: " ++ mname) in
      let* st :=
        try_except
          (let* result :=
             mfn v_path s_path out_path s_ext job_dir info margin_v_pct in
           let* g := good env result out_path in
           if g then
             let* _ := log (lit "Success: " ++ mname) in
             ret (true, last_err)
           else
             let last_err := stderr_tail result "failed silently" in
             let* ex := path_exists out_path in
             let* _ := (if ex then os_remove env out_path else ret tt) in
             ret (false, last_err))
          (fun ex =>
             let* _ := log (lit "Error in " ++ mname ++ lit ": "
                            ++ exn_text ex) in
             ret (false, exn_text ex)) in
      if st.1 then ret st
      else hard_loop rest v_path s_path out_path s_ext job_dir info st.2
  end.

(** The variables [(out_path, out_name, success, last_err)] of the
    soft branch. *)
Definition soft_state : Type := option pystr * option pystr * bool * pystr.

(** One soft attempt.  The three assignments of the accepted case come
    before its [log] call, so that an exception of that call is handled
    with them in force. *)
Definition soft_attempt (attempt : M (option completed * pystr))
    (out_name : pystr) (done_msg dflt : string) (st : soft_state)
    : M soft_state :=
  let '(out_path0, out_name0, success0, _) := st in
  try_except
    (let* rp := attempt in
     let* g := good env rp.1 rp.2 in
     if g then
       try_except
         (let* _ := log (lit done_msg) in
          ret (Some rp.2, Some out_name, true, st.2))
         (fun ex => ret (Some rp.2, Some out_name, true, exn_text ex))
     else ret (out_path0, out_name0, success0, stderr_tail rp.1 dflt))
    (fun ex => ret (out_path0, out_name0, success0, exn_text ex)).

(** Lines 598 to 609. *)
Definition finalize (out_path out_name : pystr) : M merge_result :=
  let* out_bytes := read_file env out_path in
  let size_mb :=
    F64.fdiv (F64.int_truediv (Z.of_nat (length out_bytes)) 1024) 1024 in
  let* _ := log (lit "Done! " ++ Py.format_f 1 size_mb ++ lit " MB") in
  ret (MergeResult true (Some out_bytes) (Some out_name)
         (lit "Done! (" ++ Py.format_f 1 size_mb ++ lit " MB)")).

Definition hard_branch (job_dir v_path s_path s_ext safe : pystr)
    (info : video_info) (flt : filters) : M merge_result :=
  let out_path := path_join job_dir (safe ++ lit ".mp4") in
  let out_name := safe ++ lit ".mp4" in
  let methods := if f_ass flt || f_subtitles flt then hard_methods else [] in
  match methods with
  | [] => ret (failure (lit "No subtitle filters available in FFmpeg"))
  | _ =>
      let* st := hard_loop methods v_path s_path out_path s_ext job_dir
                           info (lit "No methods ran") in
      if negb st.1 then
        ret (failure (lit "All methods failed: " ++ Py.first_chars 200 st.2))
      else finalize out_path out_name
  end.

Definition soft_branch (job_dir v_path s_path s_ext safe : pystr)
    : M merge_result :=
  let st0 : soft_state := (None, None, false, []) in
  let* _ := log (lit "Trying soft sub MKV...") in
  let* st1 :=
    soft_attempt
      (let base := path_join job_dir (safe ++ lit ".mp4") in
       soft_mkv env v_path s_path base s_ext)
      (safe ++ lit ".mkv") "MKV soft sub succeeded" "mkv failed" st0 in
  let* st2 :=
    if negb st1.1.2 then
      let* _ := log (lit "Trying soft sub MP4...") in
      soft_attempt
        (let mp4 := path_join job_dir (safe ++ lit ".mp4") in
         let* r := soft_mp4 env v_path s_path mp4 s_ext job_dir in
         ret (r, mp4))
        (safe ++ lit ".mp4") "MP4 soft sub succeeded" "mp4 failed" st1
    else ret st1 in
  match st2 with
  | (Some out_path, Some out_name, true, _) => finalize out_path out_name
  | (_, _, _, last_err) =>
      ret (failure (lit "Soft-sub failed: " ++ Py.first_chars 200 last_err))
  end.

(** The body of the outer [try], lines 454 to 609. *)
Definition episode_body (job_dir : pystr) : M merge_result :=
  let v_ext := or_default (env_suffix env video_name) (lit ".mp4") in
  let s_ext := or_default (env_suffix env srt_name) (lit ".srt") in
  let v_path := path_join job_dir (lit "video" ++ v_ext) in
  let s_path := path_join job_dir (lit "subs" ++ s_ext) in
  let* _ := write_file env v_path video_bytes in
  let* _ := write_file env s_path srt_bytes in
  let* vsize := getsize env v_path in
  if vsize <? 1000 then
    ret (failure (lit "Video file too small or corrupt"))
  else
  let* ssize := getsize env s_path in
  if ssize <? 5 then
    ret (failure (lit "Subtitle file too small or corrupt"))
  else
  let* entries := parse_srt env s_path in
  match entries with
  | [] =>
      ret (failure (lit "No subtitle entries found " ++ [0x2014]
                    ++ lit " check SRT format"))
  | _ =>
      let* _ := log (lit "Subtitles: "
                     ++ str_of_int (Z.of_nat (length entries))
                     ++ lit " entries") in
      let* info := get_video_info env v_path in
      let* _ := log (lit "Video: " ++ str_of_int (width info) ++ lit "x"
                     ++ str_of_int (height info) ++ lit "  "
                     ++ Py.format_f 0 (duration info) ++ lit "s") in
      let safe := safe_name ep_name in
      let* flt := check_filters env in
      if str_eqb merge_type (lit "hard")
      then hard_branch job_dir v_path s_path s_ext safe info flt
      else soft_branch job_dir v_path s_path s_ext safe
  end.

Definition process_episode : M merge_result :=
  let* job_dir := mkdtemp env in
  try_finally
    (try_except (episode_body job_dir)
                (fun ex => ret (failure (exn_text ex))))
    (rmtree env job_dir).

End Episode.

(** ** Definitions used to state the properties *)

(** The ratio the classifier is specified by: code points of the CJK
    ranges over all code points, as an exact rational (0 for the empty
    line). *)
Definition cjk_count (text : pystr) : Z :=
  Z.of_nat (length (List.filter is_cjk_codepoint text)).

Definition cjk_ratio (text : pystr) : Q :=
  (inject_Z (cjk_count text) / inject_Z (Z.of_nat (length text)))%Q.

(** The layout formulas of the specification, for a given way of
    turning a product into an integer:
    [cjkFontSize = max(round(h * 0.052), 26)],
    [latinFontSize = max(round(h * 0.038), 20)],
    [sideMargin = round(w * 0.06)],
    [cjkVerticalMargin = round(h * mv)],
    [latinVerticalMargin = cjkVerticalMargin + cjkFontSize + round(h * 0.015)]. *)
Definition scaled (rounding : Q -> Z) (n : Z) (c : Q) : option Z :=
  x ← F64.of_int n;
  p ← F64.finite (F64.fmul x c);
  Some (rounding p).

Definition spec_layout (rounding : Q -> Z) (w h : Z) (mv : Q) : option layout :=
  cjkFontSize ← (fun v => Z.max v 26) <$> scaled rounding h (F64.literal 52 1000);
  latinFontSize ← (fun v => Z.max v 20) <$> scaled rounding h (F64.literal 38 1000);
  sideMargin ← scaled rounding w (F64.literal 6 100);
  cjkVerticalMargin ← scaled rounding h mv;
  gap ← scaled rounding h (F64.literal 15 1000);
  Some (Layout cjkFontSize latinFontSize sideMargin cjkVerticalMargin
               (cjkVerticalMargin + cjkFontSize + gap)).

(** Decoding one SubRip time the way the parser does: the pattern of
    one time (line 132), then the arithmetic of line 143. *)
Definition decode_srt_time (t : pystr) : option Q :=
  match Re.rmatch time_re t with
  | Some (_, g) => group_seconds g 0
  | None => None
  end.

(** Whether the time of [n] milliseconds survives being written and
    read back. *)
Definition srt_roundtrip_ok (n : Z) : bool :=
  let x := F64.int_truediv n 1000 in
  match decode_srt_time (format_srt_time x) with
  | Some y => Qeq_bool x y
  | None => false
  end.

(** The sanitizing of a display name in the specification's words:
    unsafe characters become underscores, runs of underscores collapse
    to one, leading and trailing underscores go, and an empty result is
    replaced by the name [episode]. *)
Definition is_unsafe (c : Z) : bool :=
  existsb (Z.eqb c) [60; 62; 58; 34; 47; 92; 124; 63; 42].

Definition is_underscore (c : Z) : bool := c =? 95.

Definition replace_unsafe (s : pystr) : pystr :=
  map (fun c => if is_unsafe c then 95 else c) s.

Fixpoint collapse_underscores (s : pystr) : pystr :=
  match s with
  | [] => []
  | c :: s' =>
      if is_underscore c
         && match s' with c' :: _ => is_underscore c' | [] => false end
      then collapse_underscores s'
      else c :: collapse_underscores s'
  end.

Definition sanitize_spec (name : pystr) : pystr :=
  let t := Py.strip_by is_underscore (collapse_underscores (replace_unsafe name)) in
  match t with
  | [] => lit "episode"
  | _ => t
  end.

(** No two underscores in a row. *)
Definition single_underscores (s : pystr) : Prop :=
  forall l1 l2, s <> l1 ++ 95 :: 95 :: l2.

(** Length of the leading run of code points of a class. *)
Fixpoint lead (p : Z -> bool) (s : pystr) : nat :=
  match s with
  | c :: s' => if p c then S (lead p s') else O
  | [] => O
  end.

(** A string without a line feed. *)
Definition one_line (s : pystr) : bool := forallb (fun c => negb (c =? NL)) s.

(** An event is one line of the script: the Dialogue prefix, a body
    without line feed, and the line feed that ends it. *)
Definition event_line (ev : pystr) : Prop :=
  exists body, ev = lit "Dialogue: 0," ++ body ++ [NL] /\ one_line body = true.

(** The events the generator emits for one entry. *)
Definition entry_events (e : entry) : list pystr := dialogue_step [] e.

(** An event as the ASS format has it: the ten fields named by the
    [Format:] line of the [Events] section (layer, start, end, style,
    name, the three margins, effect, text), separated by commas after
    [Dialogue: ], and a line feed.  The generator's events have layer
    0, no name, zero margins and no effect. *)
Record ass_event := AssEvent {
  ev_start : pystr; ev_end : pystr; ev_style : string; ev_text : pystr }.

Definition event_fields (ev : ass_event) : list pystr :=
  [lit "0"; ev_start ev; ev_end ev; lit (ev_style ev); [];
   lit "0"; lit "0"; lit "0"; []; ev_text ev].

Definition render_event (ev : ass_event) : pystr :=
  lit "Dialogue: " ++ Py.join (lit ",") (event_fields ev) ++ [NL].

(** A text with each of its line feeds written as the line break of
    ASS, a backslash and the letter N. *)
Definition ass_line_breaks (text : pystr) : pystr :=
  flat_map (fun c => if c =? NL then [92; 78] else [c]) text.

(** The events asked of an entry: Chinese then English when both
    buckets of its text are non-empty, the one of the non-empty bucket
    when one is, and an English event with the entry's own text when
    both are empty. *)
Definition expected_events (e : entry) : list ass_event :=
  let s := format_ass_time (e_start e) in
  let en := format_ass_time (e_end e) in
  match split_cjk_latin (e_text e) with
  | ((_ :: _) as cjk, (_ :: _) as lat) =>
      [AssEvent s en "Chinese" (ass_line_breaks cjk);
       AssEvent s en "English" (ass_line_breaks lat)]
  | ((_ :: _) as cjk, []) => [AssEvent s en "Chinese" (ass_line_breaks cjk)]
  | ([], (_ :: _) as lat) => [AssEvent s en "English" (ass_line_breaks lat)]
  | ([], []) => [AssEvent s en "English" (ass_line_breaks (e_text e))]
  end.

(** Two cues for the examples: a Latin one, and a bilingual one. *)
Definition demo_entries : list entry :=
  [Entry 1 2 (lit "Hello");
   Entry 3 (9 # 2) ([0x4F60; 0x597D; NL] ++ lit "Hi")].

(** One block in the words of the claim: its lines, whether one of
    them matches the timestamp pattern, the text that follows the first
    such line with its markup stripped, and whether the block is kept.
    None of this uses the parser's loop. *)
Definition block_lines (block : pystr) : list pystr :=
  Py.split NL (Py.strip block).

Definition is_timestamp_line (line : pystr) : bool :=
  match Re.rmatch timestamp_re (Py.strip line) with
  | Some _ => true
  | None => false
  end.

Definition has_timestamp (block : pystr) : bool :=
  existsb is_timestamp_line (block_lines block).

(** The lines after the first timestamp line. *)
Fixpoint after_timestamp (lines : list pystr) : option (list pystr) :=
  match lines with
  | [] => None
  | line :: rest =>
      if is_timestamp_line line then Some rest else after_timestamp rest
  end.

(** Removing the tags of a text from left to right.  A tag is an
    opening mark, one or more code points other than the closing mark,
    and the closing mark; [skip] counts the code points of a tag still
    to be passed over.  An opening mark that starts no tag stays. *)
Fixpoint remove_tags (opening closing : Z) (skip : nat) (s : pystr)
    : pystr :=
  match s with
  | [] => []
  | x :: s' =>
      match skip with
      | S k => remove_tags opening closing k s'
      | O =>
          let inner := lead (fun y => negb (y =? closing)) s' in
          if (x =? opening) && (0 <? inner)%nat && (inner <? length s')%nat
          then remove_tags opening closing (S inner) s'
          else x :: remove_tags opening closing 0 s'
      end
  end.

(** The markup stripping: the tags in angle brackets, then the tags in
    braces, then the white space at both ends. *)
Definition strip_markup (text : pystr) : pystr :=
  Py.strip (remove_tags 123 125 0 (remove_tags 60 62 0 text)).

Definition block_text (block : pystr) : pystr :=
  match after_timestamp (block_lines block) with
  | Some rest => strip_markup (Py.join [NL] rest)
  | None => []
  end.

Definition kept (block : pystr) : bool :=
  has_timestamp block && nonempty (block_text block).

(** The two times of the first timestamp line of a block. *)
Definition block_times (block : pystr) : option (Q * Q) :=
  line ← List.find is_timestamp_line (block_lines block);
  mg ← Re.rmatch timestamp_re (Py.strip line);
  start ← group_seconds mg.2 0;
  end_ ← group_seconds mg.2 4;
  Some (start, end_).

(** The entry of a block that is kept. *)
Definition timed_entry (block : pystr) : option entry :=
  if kept block then
    match block_times block with
    | Some (start, end_) => Some (Entry start end_ (block_text block))
    | None => None
    end
  else None.

(** What one turn of the parser's loop contributes for a block. *)
Definition block_entry (block : pystr) : option entry :=
  match parse_block [] block with
  | Some [e] => Some e
  | _ => None
  end.

(** Number of capturing groups of a pattern, and the patterns whose
    groups each capture one or more decimal digits. *)
Fixpoint ngroups (r : Re.regex) : nat :=
  match r with
  | Re.Cat r1 r2 => ngroups r1 + ngroups r2
  | Re.Grp r1 => S (ngroups r1)
  | _ => O
  end.

Fixpoint digit_groups (r : Re.regex) : Prop :=
  match r with
  | Re.Cat r1 r2 => digit_groups r1 /\ digit_groups r2
  | Re.Grp (Re.Rep p (S _) _) => p = Py.isdecimal
  | Re.Grp _ => False
  | _ => True
  end.

Definition digit_string (g : pystr) : Prop :=
  g <> [] /\ forallb Py.isdecimal g = true.

(** The world once [mkdtemp] has created directory [d]. *)
Definition with_dir (d : pystr) (w : world) : world :=
  World (FS (files (w_fs w)) ({[d]} ∪ dirs (w_fs w))) (procs w).




(** [post m P]: every value [m] returns satisfies [P]. *)
Definition post {A} (m : M A) (P : A -> Prop) : Prop :=
  forall w a w', m w = (Ok a, w') -> P a.

(** An environment for the examples: no file operation fails, bytes
    and code points coincide, the probe fails (so the default
    resolution is used), [ffmpeg -filters] lists the ass filter, and
    every other command succeeds and leaves 10001 bytes at the path
    that is its last argument. *)
Definition demo_run (cmd : list pystr) (timeout : Z) (fs : filesystem)
    : option completed * filesystem :=
  if bool_decide (cmd = [lit "ffmpeg"; lit "-filters"]) then
    (Some (Completed 0 (lit " .. ass               V->V       Render ASS") []), fs)
  else if bool_decide (head cmd = Some (lit "ffprobe")) then (None, fs)
  else
    (Some (Completed 0 [] []),
     FS (<[List.last cmd [] := repeat 0 (Z.to_nat 10001)]> (files fs)) (dirs fs)).

Definition demo_env : environment :=
  Env (fun _ => Ok (lit "/tmp/st_merger_0"))
      (fun _ _ => None)
      demo_run
      (fun _ data => Some data)
      (fun data => data)
      (fun text => text)
      (fun _ => None)
      (fun name => Py.last_chars 4 name).




(** The same, with files that cannot be removed. *)
Definition demo_env_busy : environment :=
  Env (env_mkdtemp demo_env)
      (fun op _ => match op with
                   | OpRemove _ =>
                       Some (error "[Errno 16] Device or resource busy")
                   | _ => None
                   end)
      demo_run (env_decode demo_env) (env_decode_replace demo_env)
      (env_encode demo_env) (env_probe demo_env) (env_suffix demo_env).

Definition demo_world : world := World (FS ∅ ∅) [].

Definition demo_video : bytes := repeat 0 (Z.to_nat 1000).

Definition demo_srt : bytes :=
  lit "1" ++ [NL] ++ lit "00:00:01,000 --> 00:00:02,500" ++ [NL]
  ++ lit "Hello" ++ [NL].


Definition demo_job (env : environment) (video srt : bytes)
    (log_fn : option (pystr -> M unit)) : outcome merge_result * world :=
  process_episode env video (lit "ep.mp4") srt (lit "ep.srt") (lit "ep")
                  (lit "hard") CHINESE_MARGIN_V_PCT log_fn demo_world.

(** ** Further definitions used to state properties *)

(** The same text with CR LF, or with a bare CR, for every line feed. *)
Definition to_crlf (s : pystr) : pystr :=
  flat_map (fun c => if c =? NL then [CR; NL] else [c]) s.

Definition to_cr (s : pystr) : pystr :=
  map (fun c => if c =? NL then CR else c) s.

(** The two buckets of the splitter, as lists of lines. *)
Definition cjk_lines_of (text : pystr) : list pystr :=
  List.filter (fun l => is_cjk (detect_language l)) (stripped_lines text).

Definition latin_lines_of (text : pystr) : list pystr :=
  List.filter (fun l => negb (is_cjk (detect_language l))) (stripped_lines text).

(** A file of more than 10000 bytes at a path. *)
Definition big_file (p : pystr) (w : world) : Prop :=
  exists data, files (w_fs w) !! p = Some data
               /\ 10000 < Z.of_nat (length data).

(** [post_w m Q]: every value [m] returns satisfies [Q] with the world
    it leaves. *)
Definition post_w {A} (m : M A) (Q : A -> world -> Prop) : Prop :=
  forall w a w', m w = (Ok a, w') -> Q a w'.

(** The external tools: a command line that starts with [ffprobe] or
    with [ffmpeg]. *)
Definition tool_command (cmd : list pystr) : Prop :=
  head cmd = Some (lit "ffprobe") \/ head cmd = Some (lit "ffmpeg").

(** [launches n Q m]: whatever [m] comes to, it launches at most [n]
    external commands, all of them tools, and changes nothing else of
    the record of launches; a value it returns satisfies [Q]. *)
Definition launches {A} (n : nat) (Q : A -> Prop) (m : M A) : Prop :=
  forall w,
    (exists l, procs (m w).2 = procs w ++ l /\ (length l <= n)%nat
               /\ Forall tool_command l)
    /\ (forall a, (m w).1 = Ok a -> Q a).

(** A log sink that launches nothing. *)
Definition quiet_log (log_fn : option (pystr -> M unit)) : Prop :=
  forall f, log_fn = Some f -> forall msg w, procs (f msg w).2 = procs w.

(** A log sink that leaves the world as it is (it may still raise). *)
Definition pure_log (log_fn : option (pystr -> M unit)) : Prop :=
  forall f, log_fn = Some f -> forall msg w, (f msg w).2 = w.

(** What the demonstration job returns. *)
Definition demo_result : merge_result :=
  match (demo_job demo_env demo_video demo_srt None).1 with
  | Ok r => r
  | Raise _ => failure []
  end.

(** The files outside directory [d] are in [w'] what they are in [w]. *)
Definition same_outside (d : pystr) (w w' : world) : Prop :=
  forall p, under d p = false -> files (w_fs w') !! p = files (w_fs w) !! p.

(** A computation that leaves the files outside [d] alone. *)
Definition confined {A} (d : pystr) (m : M A) : Prop :=
  forall w, same_outside d w (m w).2.

(** External commands that leave the files outside [d] alone. *)
Definition tools_confined (env : environment) (d : pystr) : Prop :=
  forall cmd timeout fs p,
    under d p = false ->
    files (env_run env cmd timeout fs).2 !! p = files fs !! p.

(** The demonstration environment on a machine without the tools:
    every launch fails. *)
Definition demo_env_no_tools : environment :=
  Env (env_mkdtemp demo_env) (env_fault demo_env)
      (fun _ _ fs => (None, fs)) (env_decode demo_env)
      (env_decode_replace demo_env) (env_encode demo_env)
      (env_probe demo_env) (env_suffix demo_env).

(** The filter query fails, or lists no video filter at all. *)
Definition no_video_filter (env : environment) : Prop :=
  forall timeout fs,
    match (env_run env [lit "ffmpeg"; lit "-filters"] timeout fs).1 with
    | Some c => Forall (fun l => Py.contains (lit "V->V") l = false)
                       (Py.split NL (stdout c))
    | None => True
    end.

(** The commands that come before any encoder: an [ffprobe] command,
    or the filter query. *)
Definition probe_or_query (cmd : list pystr) : Prop :=
  head cmd = Some (lit "ffprobe") \/ cmd = [lit "ffmpeg"; lit "-filters"].

(** [launches_only only n Q m]: [m] launches at most [n] commands, each
    of them satisfying [only], and returns values satisfying [Q]. *)
Definition launches_only {A} (only : list pystr -> Prop) (n : nat)
    (Q : A -> Prop) (m : M A) : Prop :=
  forall w,
    (exists l, procs (m w).2 = procs w ++ l /\ (length l <= n)%nat
               /\ Forall only l)
    /\ (forall a, (m w).1 = Ok a -> Q a).


(** * Properties

    ** Binary64 rounding *)

Module F64Facts.
Import F64.
Local Open Scope Q_scope.

Lemma pow2_pos k : 0 < pow2 k.
Proof. apply Qpower_0_lt. reflexivity. Qed.

Lemma pow2_le a b : (a <= b)%Z -> pow2 a <= pow2 b.
Proof. intros H. apply Qpower_le_compat_l; [exact H | discriminate]. Qed.

Lemma pow2_lt a b : (a < b)%Z -> pow2 a < pow2 b.
Proof. intros H. apply Qpower_lt_compat_l; [exact H | reflexivity]. Qed.

Lemma pow2_add a b : pow2 (a + b) == pow2 a * pow2 b.
Proof. apply Qpower_plus. discriminate. Qed.

Lemma pow2_Z n : (0 <= n)%Z -> pow2 n == inject_Z (2 ^ n).
Proof. intros H. unfold pow2. rewrite Zpower_Qpower by exact H. reflexivity. Qed.

Lemma pow2_cancel a : pow2 (- a) * pow2 a == 1.
Proof. rewrite <- pow2_add. replace (- a + a)%Z with 0%Z by lia. reflexivity. Qed.

Lemma pow2_sub a b : pow2 (a - b) == pow2 a / pow2 b.
Proof.
  unfold Z.sub. rewrite pow2_add. unfold pow2 at 2. rewrite Qpower_opp. reflexivity.
Qed.

Lemma ilog2_raw (x : Q) : 0 < x ->
  let k := (Z.log2 (Qnum x) - Z.log2 (Zpos (Qden x)))%Z in
  pow2 (k - 1) <= x /\ x < pow2 (k + 1).
Proof.
  destruct x as [p q]. intros Hp0. unfold Qlt in Hp0. cbn [Qnum Qden] in *. cbv zeta.
  assert (Hp : (0 < p)%Z) by lia. clear Hp0.
  destruct (Z.log2_spec p Hp) as [Ha1 Ha2].
  destruct (Z.log2_spec (Zpos q) eq_refl) as [Hb1 Hb2].
  pose proof (Z.log2_nonneg p) as Ha0. pose proof (Z.log2_nonneg (Zpos q)) as Hb0.
  set (a := Z.log2 p) in *. set (b := Z.log2 (Zpos q)) in *.
  assert (HA : (0 < 2 ^ a)%Z) by (apply Z.pow_pos_nonneg; lia).
  assert (HB : (0 < 2 ^ b)%Z) by (apply Z.pow_pos_nonneg; lia).
  split.
  - replace (a - b - 1)%Z with (a - Z.succ b)%Z by lia.
    assert (E : pow2 (a - Z.succ b) == inject_Z (2 ^ a) / inject_Z (2 ^ Z.succ b)).
    { rewrite pow2_sub. rewrite (pow2_Z a), (pow2_Z (Z.succ b)) by lia. reflexivity. }
    rewrite E.
    apply Qle_shift_div_r.
    + change 0 with (inject_Z 0). rewrite <- Zlt_Qlt. apply Z.pow_pos_nonneg; lia.
    + unfold Qle. cbn [Qnum Qden Qmult inject_Z]. nia.
  - replace (a - b + 1)%Z with (Z.succ a - b)%Z by lia.
    assert (E : pow2 (Z.succ a - b) == inject_Z (2 ^ Z.succ a) / inject_Z (2 ^ b)).
    { rewrite pow2_sub. rewrite (pow2_Z (Z.succ a)), (pow2_Z b) by lia. reflexivity. }
    rewrite E.
    apply Qlt_shift_div_l.
    + change 0 with (inject_Z 0). rewrite <- Zlt_Qlt. exact HB.
    + unfold Qlt. cbn [Qnum Qden Qmult inject_Z]. nia.
Qed.

Lemma ilog2_spec (x : Q) : 0 < x -> pow2 (ilog2 x) <= x /\ x < pow2 (ilog2 x + 1).
Proof.
  intros Hx. pose proof (ilog2_raw x Hx) as [H1 H2]. unfold ilog2.
  set (k := (Z.log2 (Qnum x) - Z.log2 (Zpos (Qden x)))%Z) in *.
  destruct (Qle_bool (pow2 k) x) eqn:E.
  - apply Qle_bool_iff in E. split; assumption.
  - split; [exact H1|]. replace (k - 1 + 1)%Z with k by lia.
    apply Qnot_le_lt. intros H. apply Qle_bool_iff in H. congruence.
Qed.

Lemma ilog2_mono x y : 0 < x -> x <= y -> (ilog2 x <= ilog2 y)%Z.
Proof.
  intros Hx Hxy. assert (Hy : 0 < y) by (eapply Qlt_le_trans; eauto).
  destruct (ilog2_spec x Hx) as [H1 _]. destruct (ilog2_spec y Hy) as [_ H2].
  destruct (Z_le_gt_dec (ilog2 x) (ilog2 y)) as [|Hgt]; [assumption|exfalso].
  assert (pow2 (ilog2 y + 1) <= pow2 (ilog2 x)) by (apply pow2_le; lia).
  apply (Qlt_irrefl y). eapply Qlt_le_trans; [exact H2|].
  eapply Qle_trans; [eassumption|]. eapply Qle_trans; eassumption.
Qed.

Lemma rne_floor y : (Qfloor y <= rne y <= Qfloor y + 1)%Z.
Proof. unfold rne. destruct (_ ?= _); [destruct (Z.even _)|..]; lia. Qed.

Lemma rne_ge_int (n : Z) y : inject_Z n <= y -> (n <= rne y)%Z.
Proof.
  intros H. apply Qfloor_resp_le in H. rewrite Qfloor_Z in H.
  pose proof (rne_floor y). lia.
Qed.

Lemma rne_le_int (n : Z) y : y <= inject_Z n -> (rne y <= n)%Z.
Proof.
  intros H. pose proof (rne_floor y) as Hr.
  destruct (Z_lt_le_dec (Qfloor y) n) as [|Hge]; [lia|].
  pose proof (Qfloor_resp_le _ _ H) as Hf. rewrite Qfloor_Z in Hf.
  assert (Hfn : Qfloor y = n) by lia.
  assert (Hy : y == inject_Z n).
  { apply Qle_antisym; [exact H|]. rewrite <- Hfn. apply Qfloor_le. }
  unfold rne. rewrite Hfn.
  assert (Hc : (y - inject_Z n ?= 1 # 2) = Lt).
  { rewrite <- Qlt_alt. rewrite Hy. ring_simplify. reflexivity. }
  rewrite Hc. lia.
Qed.

Lemma rne_mono x y : x <= y -> (rne x <= rne y)%Z.
Proof.
  intros H. pose proof (Qfloor_resp_le _ _ H) as Hf.
  pose proof (rne_floor x) as Hx. pose proof (rne_floor y) as Hy.
  destruct (Z.eq_dec (Qfloor x) (Qfloor y)) as [E|NE]; [|lia].
  unfold rne in *. rewrite <- E in *.
  destruct (x - inject_Z (Qfloor x) ?= 1 # 2) eqn:Cx;
    destruct (y - inject_Z (Qfloor x) ?= 1 # 2) eqn:Cy;
    try (destruct (Z.even (Qfloor x)); lia); try lia; exfalso.
  - apply Qeq_alt in Cx. rewrite <- Qlt_alt in Cy. 
    apply (Qlt_irrefl (1#2)). rewrite <- Cx at 1. eapply Qle_lt_trans; [|exact Cy].
    apply Qplus_le_l. exact H.
  - rewrite <- Qgt_alt in Cx. apply Qeq_alt in Cy.
    apply (Qlt_irrefl (1#2)). rewrite <- Cy at 2. eapply Qlt_le_trans; [exact Cx|].
    apply Qplus_le_l. exact H.
  - rewrite <- Qgt_alt in Cx. rewrite <- Qlt_alt in Cy.
    apply (Qlt_irrefl (1#2)). eapply Qlt_trans; [exact Cx|]. eapply Qle_lt_trans; [|exact Cy].
    apply Qplus_le_l. exact H.
Qed.

Lemma round_pos_eq x :
  round_pos x == inject_Z (rne (x * pow2 (- fexp x))) * pow2 (fexp x).
Proof. unfold round_pos. apply Qred_correct. Qed.

Lemma fexp_mono x y : 0 < x -> x <= y -> (fexp x <= fexp y)%Z.
Proof. intros Hx Hxy. unfold fexp. pose proof (ilog2_mono x y Hx Hxy). lia. Qed.

Lemma scaled_upper x : 0 < x -> (rne (x * pow2 (- fexp x)) <= 2 ^ 53)%Z.
Proof.
  intros Hx. apply rne_le_int. destruct (ilog2_spec x Hx) as [_ H].
  rewrite <- (pow2_Z 53) by lia.
  assert (E : pow2 53 == pow2 (fexp x + 53) * pow2 (- fexp x)).
  { rewrite <- pow2_add. replace (fexp x + 53 + - fexp x)%Z with 53%Z by lia. reflexivity. }
  rewrite E. apply Qmult_le_compat_r; [|apply Qlt_le_weak, pow2_pos].
  apply Qlt_le_weak. eapply Qlt_le_trans; [exact H|].
  apply pow2_le. unfold fexp. lia.
Qed.

Lemma scaled_lower x : 0 < x -> (-1074 < fexp x)%Z -> (2 ^ 52 <= rne (x * pow2 (- fexp x)))%Z.
Proof.
  intros Hx He. apply rne_ge_int. destruct (ilog2_spec x Hx) as [H _].
  rewrite <- (pow2_Z 52) by lia.
  assert (E : pow2 52 == pow2 (fexp x + 52) * pow2 (- fexp x)).
  { rewrite <- pow2_add. replace (fexp x + 52 + - fexp x)%Z with 52%Z by lia. reflexivity. }
  rewrite E. apply Qmult_le_compat_r; [|apply Qlt_le_weak, pow2_pos].
  eapply Qle_trans; [|exact H]. apply pow2_le. unfold fexp in *. lia.
Qed.

Lemma round_pos_nonneg x : 0 < x -> 0 <= round_pos x.
Proof.
  intros Hx. rewrite round_pos_eq. apply Qmult_le_0_compat; [|apply Qlt_le_weak, pow2_pos].
  change 0 with (inject_Z 0). rewrite <- Zle_Qle. apply rne_ge_int.
  apply Qmult_le_0_compat; [apply Qlt_le_weak, Hx | apply Qlt_le_weak, pow2_pos].
Qed.

Lemma round_pos_mono x y : 0 < x -> x <= y -> round_pos x <= round_pos y.
Proof.
  intros Hx Hxy. assert (Hy : 0 < y) by (eapply Qlt_le_trans; eauto).
  rewrite !round_pos_eq.
  pose proof (fexp_mono x y Hx Hxy) as He.
  destruct (Z.eq_dec (fexp x) (fexp y)) as [E|NE].
  - rewrite E. apply Qmult_le_compat_r; [|apply Qlt_le_weak, pow2_pos].
    rewrite <- Zle_Qle. apply rne_mono.
    apply Qmult_le_compat_r; [exact Hxy|apply Qlt_le_weak, pow2_pos].
  - assert (Hlt : (fexp x < fexp y)%Z) by lia.
    assert (Hx53 := scaled_upper x Hx).
    assert (Hy52 : (2 ^ 52 <= rne (y * pow2 (- fexp y)))%Z).
    { apply scaled_lower; [exact Hy|]. unfold fexp in *. lia. }
    apply Qle_trans with (pow2 (53 + fexp x)).
    + rewrite pow2_add, (pow2_Z 53) by lia.
      apply Qmult_le_compat_r; [|apply Qlt_le_weak, pow2_pos].
      rewrite <- Zle_Qle. exact Hx53.
    + apply Qle_trans with (pow2 (52 + fexp y)); [apply pow2_le; lia|].
      rewrite pow2_add, (pow2_Z 52) by lia.
      apply Qmult_le_compat_r; [|apply Qlt_le_weak, pow2_pos].
      rewrite <- Zle_Qle. exact Hy52.
Qed.

Lemma Qnum_pos x : 0 < x <-> (0 < Qnum x)%Z.
Proof. unfold Qlt. cbn [Qnum Qden]. lia. Qed.

Lemma Qnum_neg x : x < 0 <-> (Qnum x < 0)%Z.
Proof. unfold Qlt. cbn [Qnum Qden]. lia. Qed.

Lemma round64_nonneg x : 0 <= x -> 0 <= round64 x.
Proof.
  intros H. unfold round64. destruct (Qnum x) eqn:E.
  - apply Qle_refl.
  - apply round_pos_nonneg. apply Qnum_pos. lia.
  - exfalso. unfold Qle in H. cbn [Qnum Qden] in H. lia.
Qed.

Lemma Qopp_opp_eq (z : Q) : (- - z)%Q = z.
Proof. destruct z as [n d]. unfold Qopp. cbn [Qnum Qden]. now rewrite Z.opp_involutive. Qed.

Lemma round64_opp x : round64 (- x) = (- round64 x)%Q.
Proof.
  unfold round64. destruct x as [[|p|p] q]; cbn [Qnum Qopp Z.opp]; try reflexivity.
  symmetry. apply Qopp_opp_eq.
Qed.

Lemma round64_nonpos x : x <= 0 -> round64 x <= 0.
Proof.
  intros H. rewrite <- (Qopp_opp_eq x), round64_opp.
  apply Qopp_le_compat with (p := 0). apply round64_nonneg.
  apply Qopp_le_compat with (q := 0) in H. exact H.
Qed.

Lemma round64_mono x y : x <= y -> round64 x <= round64 y.
Proof.
  intros H.
  destruct (Qlt_le_dec 0 x) as [Hx|Hx].
  - assert (Hy : 0 < y) by (eapply Qlt_le_trans; eauto).
    unfold round64. apply Qnum_pos in Hx as Hx', Hy as Hy'.
    destruct (Qnum x); try lia. destruct (Qnum y); try lia.
    apply round_pos_mono; assumption.
  - destruct (Qlt_le_dec 0 y) as [Hy|Hy].
    + apply Qle_trans with 0; [apply round64_nonpos, Hx|apply round64_nonneg, Qlt_le_weak, Hy].
    + destruct (Qeq_dec y 0) as [Ey|Ny].
      * assert (E0 : round64 y = 0).
        { unfold round64. destruct y as [[|p|p] q]; try reflexivity; discriminate. }
        rewrite E0. apply round64_nonpos, Hx.
      * assert (Hy' : y < 0).
        { apply Qnot_le_lt. intros Hc. apply Ny. apply Qle_antisym; assumption. }
        assert (Hny : 0 < - y) by (apply Qopp_lt_compat with (q := 0) in Hy'; exact Hy').
        apply Qopp_le_compat in H.
        assert (Hnx : 0 < - x) by (eapply Qlt_le_trans; eauto).
        pose proof (round_pos_mono _ _ Hny H) as Hm.
        apply Qnum_pos in Hny as Hy'', Hnx as Hx''.
        unfold round64. destruct x as [[|p|p] q]; cbn [Qnum Qopp Z.opp] in *; try lia.
        destruct y as [[|p'|p'] q']; cbn [Qnum Qopp Z.opp] in *; try lia.
        apply Qopp_le_compat. exact Hm.
Qed.

Lemma Qred_idem q : Qred (Qred q) = Qred q.
Proof. apply Qred_complete, Qred_correct. Qed.

Lemma round64_reduced x : Qred (round64 x) = round64 x.
Proof.
  unfold round64. destruct (Qnum x); [reflexivity| |].
  - unfold round_pos. apply Qred_idem.
  - unfold round_pos. rewrite Qred_opp, Qred_idem. reflexivity.
Qed.

Lemma round64_ext x y : x == y -> round64 x = round64 y.
Proof.
  intros E. rewrite <- (round64_reduced x), <- (round64_reduced y).
  apply Qred_complete. apply Qle_antisym; apply round64_mono; rewrite E; apply Qle_refl.
Qed.

End F64Facts.

(** ** The language classifier *)

Section Classifier.
Import F64 F64Facts.
Local Open Scope Q_scope.

Lemma Qltb_true x y : Qltb x y = true <-> x < y.
Proof.
  unfold Qltb. rewrite negb_true_iff. split; intros H.
  - apply Qnot_le_lt. intros Hc. apply Qle_bool_iff in Hc. congruence.
  - destruct (Qle_bool y x) eqn:E; [|reflexivity].
    apply Qle_bool_iff in E. exfalso. exact (Qlt_not_le _ _ H E).
Qed.

Lemma count_step_fold text c t :
  fold_left count_step text (c, t)
  = ((c + cjk_count text)%Z, (t + Z.of_nat (length text))%Z).
Proof.
  revert c t. induction text as [|cp text IH]; intros c t.
  - unfold cjk_count. cbn [fold_left List.filter length Z.of_nat]. f_equal; lia.
  - cbn [fold_left]. unfold count_step at 2. unfold cjk_count. cbn [List.filter].
    destruct (is_cjk_codepoint cp); rewrite IH; unfold cjk_count;
      cbn [length]; f_equal; lia.
Qed.

Lemma count_codepoints_spec text :
  count_codepoints text = (cjk_count text, Z.of_nat (length text)).
Proof. unfold count_codepoints. now rewrite count_step_fold. Qed.

Lemma cjk_count_bounds text : (0 <= cjk_count text <= Z.of_nat (length text))%Z.
Proof.
  unfold cjk_count. split; [lia|].
  apply inj_le. induction text as [|c text IH]; cbn; [lia|].
  destruct (is_cjk_codepoint c); cbn; lia.
Qed.

(** The literal [0.2] and the next binary64 number above it. *)
Lemma literal_02 : literal 2 10 = 3602879701896397 # 18014398509481984.
Proof. vm_compute. reflexivity. Qed.

Lemma round64_above_02 :
  round64 (7205759403792795 # 36028797018963968)
  = 7205759403792795 # 36028797018963968.
Proof. vm_compute. reflexivity. Qed.

Lemma ratio_as_fraction (c t : Z) : (0 < t)%Z ->
  inject_Z c / inject_Z t == c # Z.to_pos t.
Proof.
  intros Ht. destruct t as [|p|p]; try lia.
  unfold Qdiv, Qinv, Qmult, Qeq, inject_Z. cbn. lia.
Qed.

(** Below [2^52] code points, the rounded quotient exceeds the literal
    exactly when the exact ratio exceeds one fifth. *)
Lemma quotient_exceeds_02 (c t : Z) : (0 < t < 2 ^ 52)%Z -> (0 <= c)%Z ->
  literal 2 10 < int_truediv c t <-> (t < 5 * c)%Z.
Proof.
  intros [Ht0 Ht] Hc. unfold int_truediv.
  rewrite (round64_ext _ _ (ratio_as_fraction c t Ht0)), literal_02.
  split.
  - intros H. destruct (Z_lt_le_dec t (5 * c)) as [|Hle]; [assumption|exfalso].
    assert (Hq : c # Z.to_pos t <= 2 # 10).
    { unfold Qle. cbn [Qnum Qden]. rewrite Z2Pos.id by lia. lia. }
    apply round64_mono in Hq. fold (literal 2 10) in Hq. rewrite literal_02 in Hq.
    exact (Qlt_not_le _ _ H Hq).
  - intros H.
    assert (Hq : 7205759403792795 # 36028797018963968 <= c # Z.to_pos t).
    { unfold Qle. cbn [Qnum Qden]. rewrite Z2Pos.id by lia.
      change (2 ^ 52)%Z with 4503599627370496%Z in Ht. lia. }
    apply round64_mono in Hq. rewrite round64_above_02 in Hq.
    eapply Qlt_le_trans; [|exact Hq]. reflexivity.
Qed.

(** C3. The classifier answers [Cjk] exactly when the ratio of CJK code
    points to all code points is strictly above 0.2; a line that is 20%
    CJK, and the empty line, are [Latin].  The line is shorter than
    [2^52] code points (beyond any string that fits a memory), which
    keeps the rounding of the quotient from hiding an excess. *)
Theorem detect_language_threshold (text : pystr) :
  (Z.of_nat (length text) < 2 ^ 52)%Z ->
  (detect_language text = Cjk <-> 2 # 10 < cjk_ratio text)
  /\ (cjk_ratio text == 2 # 10 -> detect_language text = Latin)
  /\ (text = [] -> detect_language text = Latin).
Proof.
  intros Hlen.
  assert (Hmain : detect_language text = Cjk <-> 2 # 10 < cjk_ratio text).
  { unfold detect_language, cjk_ratio. rewrite count_codepoints_spec.
    pose proof (cjk_count_bounds text) as [Hc0 Hct].
    set (c := cjk_count text) in *. set (t := Z.of_nat (length text)) in *.
    destruct (Z.eqb_spec t 0) as [E|NE].
    - rewrite E. split; [discriminate|]. intros H. exfalso.
      unfold Qdiv in H. change (/ inject_Z 0) with 0 in H.
      rewrite Qmult_0_r in H. discriminate H.
    - assert (Ht0 : (0 < t)%Z) by (subst t; lia).
      rewrite (ratio_as_fraction c t Ht0).
      assert (Hiff : 2 # 10 < c # Z.to_pos t <-> (t < 5 * c)%Z).
      { unfold Qlt. cbn [Qnum Qden]. rewrite Z2Pos.id by lia. lia. }
      rewrite Hiff, <- (quotient_exceeds_02 c t) by lia.
      rewrite <- Qltb_true.
      destruct (Qltb (literal 2 10) (int_truediv c t)); split; congruence. }
  split; [exact Hmain|]. split.
  - intros E. destruct (detect_language text) eqn:D; [|reflexivity].
    exfalso. destruct Hmain as [H1 _]. specialize (H1 eq_refl).
    rewrite E in H1. exact (Qlt_irrefl _ H1).
  - intros ->. reflexivity.
Qed.

Lemma detect_language_threshold_witness :
  let line : pystr := [0x4F60; 65; 66; 67; 68]%Z in
  (detect_language line = Cjk <-> 2 # 10 < cjk_ratio line)
  /\ (cjk_ratio line == 2 # 10 -> detect_language line = Latin)
  /\ (line = [] -> detect_language line = Latin).
Proof. apply detect_language_threshold. vm_compute. reflexivity. Defined.

End Classifier.

(** ** The layout computation *)

Section LayoutFacts.
Import F64 F64Facts.
Local Open Scope Q_scope.

Lemma trunc_nonneg x : 0 <= x -> (0 <= trunc x)%Z.
Proof.
  intros H. unfold trunc. apply Qle_bool_iff in H as Hb. rewrite Hb.
  apply Qfloor_resp_le in H. exact H.
Qed.

Lemma finite_Some x y : finite x = Some y -> y = x.
Proof. unfold finite. destruct (Qle_bool _ _); congruence. Qed.

Lemma finite_below x : 0 <= x -> x <= pow2 1023 -> finite x = Some x.
Proof.
  intros H0 H. unfold finite.
  destruct (Qle_bool (pow2 1024) (Qabs x)) eqn:E; [exfalso|reflexivity].
  apply Qle_bool_iff in E. rewrite Qabs_pos in E by exact H0.
  assert (Hlt : pow2 1023 < pow2 1024) by (apply pow2_lt; lia).
  apply (Qlt_irrefl (pow2 1023)).
  eapply Qlt_le_trans; [exact Hlt|]. eapply Qle_trans; eassumption.
Qed.

Lemma round64_pow2_1023 : round64 (pow2 1023) == pow2 1023.
Proof. vm_compute. reflexivity. Qed.

Lemma int_times_nonneg n c v :
  (0 <= n)%Z -> 0 <= c -> int_times n c = Some v -> (0 <= v)%Z.
Proof.
  intros Hn Hc. unfold int_times, of_int. intros H.
  destruct (finite (round64 (inject_Z n))) as [x|] eqn:Ex; [|discriminate].
  apply finite_Some in Ex. cbn in H.
  destruct (finite (fmul x c)) as [p|] eqn:Ep; [|discriminate].
  apply finite_Some in Ep. cbn in H. injection H as <-.
  apply trunc_nonneg. subst p x. apply round64_nonneg.
  apply Qmult_le_0_compat; [|exact Hc]. apply round64_nonneg.
  change 0 with (inject_Z 0). rewrite <- Zle_Qle. exact Hn.
Qed.

Lemma int_times_defined n c :
  (0 <= n < 2 ^ 1023)%Z -> 0 <= c -> c <= 1 -> is_Some (int_times n c).
Proof.
  intros [Hn0 Hn] Hc0 Hc1. unfold int_times, of_int.
  assert (Hx0 : 0 <= round64 (inject_Z n)).
  { apply round64_nonneg. change 0 with (inject_Z 0). now rewrite <- Zle_Qle. }
  assert (Hx1 : round64 (inject_Z n) <= pow2 1023).
  { rewrite <- round64_pow2_1023. apply round64_mono.
    rewrite (pow2_Z 1023) by lia. rewrite <- Zle_Qle. lia. }
  rewrite (finite_below _ Hx0 Hx1). cbn.
  set (x := round64 (inject_Z n)) in *.
  assert (Hp0 : 0 <= fmul x c).
  { apply round64_nonneg. now apply Qmult_le_0_compat. }
  assert (Hp1 : fmul x c <= pow2 1023).
  { rewrite <- round64_pow2_1023. apply round64_mono.
    apply Qle_trans with (x * 1); [|now rewrite Qmult_1_r].
    rewrite !(Qmult_comm x). apply Qmult_le_compat_r; assumption. }
  rewrite (finite_below _ Hp0 Hp1). cbn. eexists. reflexivity.
Qed.

Lemma settings_in_unit_interval :
  Forall (fun c => 0 <= c /\ c <= 1)
    [CHINESE_FONT_PCT; ENGLISH_FONT_PCT; literal 6 100; GAP_PCT;
     CHINESE_MARGIN_V_PCT; literal 45 100].
Proof. repeat constructor; vm_compute; discriminate. Qed.

(** C5. For a positive width and height and a margin fraction from 0.05
    to 0.45 (up to the float [0.45] itself), the layout is computed for
    every resolution in the range of a float, and whenever it is
    computed the English margin is strictly above the Chinese one and
    both are non-negative integers. *)
Theorem layout_margins_ordered (w h : Z) (mv : Q) :
  (0 < w)%Z -> (0 < h)%Z -> 5 # 100 <= mv -> mv <= literal 45 100 ->
  ((w < 2 ^ 1023)%Z -> (h < 2 ^ 1023)%Z ->
   is_Some (create_ass_layout w h (Some mv)))
  /\ (forall l, create_ass_layout w h (Some mv) = Some l ->
        (cjk_mv l < eng_mv l)%Z /\ (0 <= cjk_mv l)%Z /\ (0 <= eng_mv l)%Z).
Proof.
  intros Hw Hh Hlo Hhi.
  assert (Hmv0 : 0 <= mv) by (eapply Qle_trans; [|exact Hlo]; discriminate).
  assert (Hmv1 : mv <= 1).
  { eapply Qle_trans; [exact Hhi|]. vm_compute. discriminate. }
  pose proof settings_in_unit_interval as HS.
  repeat match goal with
         | H : Forall _ (_ :: _) |- _ => inversion H; subst; clear H
         end.
  repeat match goal with H : _ /\ _ |- _ => destruct H end.
  split.
  - intros Hw' Hh'. unfold create_ass_layout.
    change (default CHINESE_MARGIN_V_PCT (Some mv)) with mv.
    destruct (int_times_defined h CHINESE_FONT_PCT) as [a ->]; try lia; try assumption.
    destruct (int_times_defined h ENGLISH_FONT_PCT) as [b ->]; try lia; try assumption.
    destruct (int_times_defined w (literal 6 100)) as [m ->]; try lia; try assumption.
    destruct (int_times_defined h mv) as [c ->]; try lia; try assumption.
    destruct (int_times_defined h GAP_PCT) as [g ->]; try lia; try assumption.
    cbn. eexists. reflexivity.
  - intros l. unfold create_ass_layout.
    change (default CHINESE_MARGIN_V_PCT (Some mv)) with mv.
    destruct (int_times h CHINESE_FONT_PCT) as [a|] eqn:Ea; [|discriminate].
    destruct (int_times h ENGLISH_FONT_PCT) as [b|] eqn:Eb; [|discriminate].
    destruct (int_times w (literal 6 100)) as [m|] eqn:Em; [|discriminate].
    destruct (int_times h mv) as [c|] eqn:Ec; [|discriminate].
    destruct (int_times h GAP_PCT) as [g|] eqn:Eg; [|discriminate].
    cbn. intros [= <-]. cbn [cjk_mv eng_mv].
    apply int_times_nonneg in Ec; [|lia|assumption].
    apply int_times_nonneg in Eg; [|lia|assumption].
    lia.
Qed.

Lemma layout_margins_ordered_witness :
  is_Some (create_ass_layout 1920 1080 (Some CHINESE_MARGIN_V_PCT))
  /\ (forall l, create_ass_layout 1920 1080 (Some CHINESE_MARGIN_V_PCT) = Some l ->
        (cjk_mv l < eng_mv l)%Z /\ (0 <= cjk_mv l)%Z /\ (0 <= eng_mv l)%Z).
Proof.
  destruct (layout_margins_ordered 1920 1080 CHINESE_MARGIN_V_PCT) as [H1 H2];
    try (vm_compute; congruence).
  split; [apply H1; vm_compute; reflexivity | exact H2].
Defined.

(** C2, as the code has it.  The generator turns each product into an
    integer by truncation toward zero ([int()]), not by rounding to the
    nearest: the layout is the one of the specification's formulas with
    truncation in the place of rounding. *)
Theorem layout_truncates (w h : Z) (mv : Q) :
  create_ass_layout w h (Some mv) = spec_layout trunc w h mv.
Proof.
  unfold create_ass_layout, spec_layout, scaled, int_times.
  change (default CHINESE_MARGIN_V_PCT (Some mv)) with mv.
  destruct (of_int h) as [x|]; destruct (of_int w) as [y|]; cbn;
    try reflexivity;
    repeat match goal with
           | |- context [finite ?e] => destruct (finite e); cbn; try reflexivity
           end.
Qed.

(** At 2560 by 1440 the Chinese font size is 74, where rounding to the
    nearest gives 75 (the product is 74.88). *)
Lemma layout_rounds_counterexample :
  cjk_fs <$> create_ass_layout 2560 1440 (Some CHINESE_MARGIN_V_PCT) = Some 74%Z
  /\ cjk_fs <$> spec_layout rne 2560 1440 CHINESE_MARGIN_V_PCT = Some 75%Z.
Proof. split; vm_compute; reflexivity. Qed.

End LayoutFacts.

(** ** The timestamp codec *)

Section Codec.
Import F64.

(** The model's rounding is the machine's: the kernel's binary64
    operations give the same values on the computations the results
    below rest on. *)
Lemma binary64_agrees_quotient :
  of_prim (PrimFloat.div (PrimFloat.of_uint63 1001%uint63) (PrimFloat.of_uint63 1000%uint63))
  = Some (int_truediv 1001 1000).
Proof. vm_compute. reflexivity. Qed.

Lemma binary64_agrees_milliseconds :
  let x := PrimFloat.div (PrimFloat.of_uint63 1001%uint63) (PrimFloat.of_uint63 1000%uint63) in
  of_prim (PrimFloat.mul (PrimFloat.sub x (PrimFloat.of_uint63 1%uint63))
                         (PrimFloat.of_uint63 1000%uint63))
  = Some (fmul (pymod (int_truediv 1001 1000) 1) 1000).
Proof. vm_compute. reflexivity. Qed.

Lemma binary64_agrees_font_size :
  let c := PrimFloat.div (PrimFloat.of_uint63 52%uint63) (PrimFloat.of_uint63 1000%uint63) in
  of_prim c = Some CHINESE_FONT_PCT
  /\ of_prim (PrimFloat.mul (PrimFloat.of_uint63 1440%uint63) c)
     = Some (fmul 1440 CHINESE_FONT_PCT).
Proof. split; vm_compute; reflexivity. Qed.

Lemma binary64_agrees_threshold :
  of_prim (PrimFloat.div (PrimFloat.of_uint63 2%uint63) (PrimFloat.of_uint63 10%uint63))
  = Some (literal 2 10).
Proof. vm_compute. reflexivity. Qed.

(** C1, at 1.001 seconds.  The float [1001/1000] lies just below 1.001,
    its fractional part times 1000 is just below 1, and [int()] makes
    that 0: the time is written as one second sharp, and read back as
    1.0, one millisecond short. *)
Theorem srt_time_loses_a_millisecond :
  let x := int_truediv 1001 1000 in
  format_srt_time x = lit "00:00:01,000"
  /\ decode_srt_time (format_srt_time x) = Some 1%Q
  /\ decode_srt_time (lit "00:00:01,001") = Some x
  /\ ~ (1 == x)%Q.
Proof.
  vm_compute. repeat split; try reflexivity. discriminate.
Qed.

(** Where the fractional part is exact, the round trip holds. *)
Lemma srt_time_roundtrip_at_1500ms :
  let x := int_truediv 1500 1000 in
  decode_srt_time (format_srt_time x) = Some x.
Proof. vm_compute. reflexivity. Qed.

(** Below one second every millisecond value survives; from 1.000 to
    1.019 seconds the odd ones are written one millisecond short. *)
Lemma srt_roundtrip_first_second :
  forallb srt_roundtrip_ok (seqZ 0 1000) = true.
Proof. vm_compute. reflexivity. Qed.

Lemma srt_roundtrip_failures_after_one_second :
  List.filter (fun n => negb (srt_roundtrip_ok n)) (seqZ 1000 20)
  = [1001; 1003; 1005; 1007; 1009; 1011; 1013; 1015; 1017; 1019]%Z.
Proof. vm_compute. reflexivity. Qed.

End Codec.

(** ** The output file name *)

Section Sanitize.

Lemma sub_from_skip r repl k s :
  Re.sub_from r repl k s = Re.sub_from r repl 0 (drop k s).
Proof.
  revert k. induction s as [|c s IH]; intros [|k]; try reflexivity.
  cbn [Re.sub_from drop]. apply IH.
Qed.

Lemma match_len_cls p c s :
  Re.match_len (Re.Cls p) (c :: s) = if p c then Some 1%nat else None.
Proof.
  unfold Re.match_len, Re.rmatch. cbn [Re.run].
  destruct (p c); [|reflexivity]. f_equal. cbn [length]. lia.
Qed.

Lemma sub_class p repl s :
  Re.sub (Re.Cls p) repl s = flat_map (fun c => if p c then repl else [c]) s.
Proof.
  unfold Re.sub. induction s as [|c s IH]; [reflexivity|].
  cbn [Re.sub_from flat_map]. rewrite match_len_cls.
  destruct (p c); rewrite IH; reflexivity.
Qed.

Lemma unsafe_class c :
  existsb (Z.eqb c) [60; 62; 58; 34; 47; 92; 124; 63; 42] = is_unsafe c.
Proof. reflexivity. Qed.

Lemma sub_unsafe s : Re.sub unsafe_re (lit "_") s = replace_unsafe s.
Proof.
  unfold unsafe_re, Re.one_of. rewrite sub_class. unfold replace_unsafe.
  induction s as [|c s IH]; [reflexivity|].
  cbn [flat_map map]. rewrite IH, unsafe_class.
  destruct (is_unsafe c); reflexivity.
Qed.

Lemma lead_length p s : (lead p s + length (Py.lstrip_by p s) = length s)%nat.
Proof.
  induction s as [|c s IH]; [reflexivity|]. cbn.
  destruct (p c); cbn; lia.
Qed.

Lemma drop_lead p s : drop (lead p s) s = Py.lstrip_by p s.
Proof.
  induction s as [|c s IH]; [reflexivity|]. cbn.
  destruct (p c); [exact IH|reflexivity].
Qed.

(** A greedy unbounded repetition in front of a continuation that
    accepts everything takes the whole leading run. *)
Lemma rep_greedy {R} p lo n s (k : pystr -> option R) :
  (forall t, is_Some (k t)) ->
  Re.rep p lo None n s k
  = if (lo <=? n + lead p s)%nat then k (Py.lstrip_by p s) else None.
Proof.
  intros Hk. revert n. induction s as [|c s IH]; intros n.
  - cbn. now rewrite Nat.add_0_r.
  - cbn [Re.rep lead Py.lstrip_by]. destruct (p c); cbn [andb].
    + rewrite IH. replace (S n + lead p s)%nat with (n + S (lead p s))%nat by lia.
      destruct (lo <=? n + S (lead p s))%nat eqn:E.
      * destruct (Hk (Py.lstrip_by p s)) as [r ->]. reflexivity.
      * apply Nat.leb_gt in E.
        destruct (lo <=? n)%nat eqn:E'; [apply Nat.leb_le in E'; lia|reflexivity].
    + now rewrite Nat.add_0_r.
Qed.

Lemma match_len_run p s :
  Re.match_len (Re.Rep p 1 None) s
  = match lead p s with O => None | S n => Some (S n) end.
Proof.
  unfold Re.match_len, Re.rmatch. cbn [Re.run].
  rewrite rep_greedy by (intros t; eexists; reflexivity).
  pose proof (lead_length p s) as H. cbn [Nat.add].
  destruct (lead p s) as [|n] eqn:E; [reflexivity|].
  cbn [Nat.leb]. f_equal. lia.
Qed.

Lemma sub_run_cons p repl c s :
  Re.sub (Re.Rep p 1 None) repl (c :: s)
  = if p c then repl ++ Re.sub (Re.Rep p 1 None) repl (Py.lstrip_by p s)
    else c :: Re.sub (Re.Rep p 1 None) repl s.
Proof.
  unfold Re.sub. cbn [Re.sub_from]. rewrite match_len_run. cbn [lead].
  destruct (p c); [|reflexivity].
  rewrite sub_from_skip, drop_lead. reflexivity.
Qed.

Lemma collapse_run s :
  collapse_underscores (95 :: s)
  = 95 :: collapse_underscores (Py.lstrip_by is_underscore s).
Proof.
  induction s as [|c s IH]; [reflexivity|].
  cbn [collapse_underscores Py.lstrip_by] in *.
  change (is_underscore 95) with true in *. cbn [andb] in *.
  destruct (is_underscore c) eqn:E.
  - apply Z.eqb_eq in E. subst c. exact IH.
  - cbn [collapse_underscores]. rewrite E. reflexivity.
Qed.

Lemma lstrip_length p s : (length (Py.lstrip_by p s) <= length s)%nat.
Proof. pose proof (lead_length p s). lia. Qed.

Lemma sub_underscores s :
  Re.sub underscores_re (lit "_") s = collapse_underscores s.
Proof.
  unfold underscores_re. change (fun c => c =? 95) with is_underscore.
  remember (length s) as n eqn:Hn.
  assert (Hle : (length s <= n)%nat) by lia. clear Hn.
  revert s Hle. induction n as [|n IH]; intros [|c s] Hle;
    try reflexivity; cbn [length] in Hle; [lia|].
  rewrite sub_run_cons. destruct (is_underscore c) eqn:E.
  - apply Z.eqb_eq in E. subst c. rewrite collapse_run.
    rewrite IH by (pose proof (lstrip_length is_underscore s); lia).
    reflexivity.
  - rewrite IH by lia. cbn [collapse_underscores]. rewrite E. reflexivity.
Qed.

Lemma strip_chars_underscore s :
  Py.strip_chars (lit "_") s = Py.strip_by is_underscore s.
Proof.
  unfold Py.strip_chars, Py.strip_by, Py.rstrip_by.
  assert (E : forall t, Py.lstrip_by (fun c => existsb (Z.eqb c) (lit "_")) t
                        = Py.lstrip_by is_underscore t).
  { induction t as [|c t IH]; [reflexivity|]. cbn [Py.lstrip_by].
    change (existsb (Z.eqb c) (lit "_")) with ((c =? 95) || false).
    rewrite orb_false_r. fold (is_underscore c). now rewrite IH. }
  now rewrite !E.
Qed.

Lemma safe_name_refines name : safe_name name = sanitize_spec name.
Proof.
  unfold safe_name, sanitize_spec.
  rewrite sub_unsafe, sub_underscores, strip_chars_underscore.
  destruct (Py.strip_by _ _); reflexivity.
Qed.

(** Facts on the three steps. *)

Lemma replace_unsafe_safe s : Forall (fun c => is_unsafe c = false) (replace_unsafe s).
Proof.
  induction s as [|c s IH]; constructor; [|exact IH].
  destruct (is_unsafe c) eqn:E; [reflexivity|exact E].
Qed.

Lemma collapse_Forall (P : Z -> Prop) s :
  Forall P s -> Forall P (collapse_underscores s).
Proof.
  induction 1 as [|c s Hc Hs IH]; [constructor|].
  cbn [collapse_underscores]. destruct (_ && _); [exact IH|now constructor].
Qed.

Lemma lstrip_Forall (P : Z -> Prop) p s :
  Forall P s -> Forall P (Py.lstrip_by p s).
Proof.
  induction 1 as [|c s Hc Hs IH]; [constructor|].
  cbn. destruct (p c); [exact IH|now constructor].
Qed.

Lemma strip_Forall (P : Z -> Prop) p s :
  Forall P s -> Forall P (Py.strip_by p s).
Proof.
  intros H. unfold Py.strip_by, Py.rstrip_by.
  apply Forall_rev, lstrip_Forall, Forall_rev, lstrip_Forall, H.
Qed.

Lemma lstrip_suffix p s : exists pre, s = pre ++ Py.lstrip_by p s.
Proof.
  induction s as [|c s [pre IH]]; [exists []; reflexivity|].
  cbn. destruct (p c); [|exists []; reflexivity].
  exists (c :: pre). cbn. now f_equal.
Qed.

Lemma lstrip_head p s : forall c, head (Py.lstrip_by p s) = Some c -> p c = false.
Proof.
  induction s as [|a s IH]; intros c; [discriminate|].
  cbn. destruct (p a) eqn:E; [apply IH|]. cbn. now intros [= <-].
Qed.

Lemma strip_infix p s : exists pre post, s = pre ++ Py.strip_by p s ++ post.
Proof.
  unfold Py.strip_by, Py.rstrip_by.
  destruct (lstrip_suffix p s) as [pre Hpre].
  destruct (lstrip_suffix p (rev (Py.lstrip_by p s))) as [post Hpost].
  exists pre, (rev post). rewrite <- rev_app_distr, <- Hpost, rev_involutive.
  exact Hpre.
Qed.

Lemma last_rev_head (l : pystr) : last (rev l) = head l.
Proof. rewrite <- last_reverse. unfold reverse. now rewrite <- rev_alt. Qed.

Lemma strip_last p s : forall c, last (Py.strip_by p s) = Some c -> p c = false.
Proof.
  intros c. unfold Py.strip_by, Py.rstrip_by. rewrite last_rev_head.
  apply lstrip_head.
Qed.

Lemma strip_head p s : forall c, head (Py.strip_by p s) = Some c -> p c = false.
Proof.
  intros c H. unfold Py.strip_by, Py.rstrip_by in H.
  destruct (lstrip_suffix p (rev (Py.lstrip_by p s))) as [post Hpost].
  set (t := Py.lstrip_by p (rev (Py.lstrip_by p s))) in *.
  apply (f_equal (@rev Z)) in Hpost. rewrite rev_involutive, rev_app_distr in Hpost.
  apply (lstrip_head p s). rewrite Hpost.
  destruct (rev t) as [|a u]; [discriminate|]. exact H.
Qed.

Lemma collapse_head s : head (collapse_underscores s) = head s.
Proof.
  induction s as [|c s IH]; [reflexivity|]. cbn [collapse_underscores].
  destruct (is_underscore c) eqn:E; cbn [andb]; [|reflexivity].
  destruct s as [|c' s]; [reflexivity|].
  destruct (is_underscore c') eqn:E'; [|reflexivity].
  rewrite IH. cbn. apply Z.eqb_eq in E, E'. congruence.
Qed.

Lemma collapse_single s : single_underscores (collapse_underscores s).
Proof.
  unfold single_underscores. induction s as [|c s IH]; intros l1 l2.
  - destruct l1; discriminate.
  - cbn [collapse_underscores].
    destruct (is_underscore c && _) eqn:E; [apply IH|].
    destruct l1 as [|a l1]; cbn [app].
    + intros [= -> H]. pose proof (collapse_head s) as Hh. rewrite H in Hh.
      destruct s as [|c' s]; [discriminate|]. cbn in Hh. injection Hh as <-.
      discriminate E.
    + intros [= _ H]. exact (IH _ _ H).
Qed.

Lemma strip_single p s : single_underscores s -> single_underscores (Py.strip_by p s).
Proof.
  intros H l1 l2 E. destruct (strip_infix p s) as (pre & post & Hs).
  apply (H (pre ++ l1) (l2 ++ post)). rewrite Hs, E.
  rewrite <- !app_assoc. reflexivity.
Qed.

(** C10. The base name of the output file is never empty.  It is the
    display name with every unsafe character replaced by an underscore,
    runs of underscores collapsed to one and the underscores at both
    ends removed, or the name [episode] when nothing is left; so it has
    no unsafe character, no two underscores in a row, and no underscore
    at either end. *)
Theorem safe_name_nonempty (ep_name : pystr) :
  safe_name ep_name <> []
  /\ safe_name ep_name = sanitize_spec ep_name
  /\ Forall (fun c => is_unsafe c = false) (safe_name ep_name)
  /\ single_underscores (safe_name ep_name)
  /\ head (safe_name ep_name) <> Some 95
  /\ last (safe_name ep_name) <> Some 95.
Proof.
  rewrite safe_name_refines. unfold sanitize_spec.
  set (u := collapse_underscores (replace_unsafe ep_name)).
  pose proof (strip_Forall (fun c => is_unsafe c = false) is_underscore u
                (collapse_Forall _ _ (replace_unsafe_safe ep_name))) as HF.
  pose proof (strip_single is_underscore u (collapse_single _)) as HS.
  pose proof (strip_head is_underscore u) as HH.
  pose proof (strip_last is_underscore u) as HL.
  destruct (Py.strip_by is_underscore u) as [|c t] eqn:E.
  - split; [discriminate|]. split; [reflexivity|]. split.
    + repeat constructor.
    + split; [|split; discriminate].
      intros l1 l2. vm_compute.
      do 8 (destruct l1 as [|? l1]; try discriminate).
  - split; [discriminate|]. split; [reflexivity|]. split; [exact HF|].
    split; [exact HS|]. split.
    + intros H. specialize (HH 95 H). discriminate.
    + intros H. specialize (HL 95 H). discriminate.
Qed.

End Sanitize.

(** ** The ASS generator *)

Section Generator.

Lemma dialogue_step_app dlg e : dialogue_step dlg e = dlg ++ entry_events e.
Proof.
  unfold entry_events, dialogue_step.
  destruct (split_cjk_latin (e_text e)) as [cjk lat].
  destruct (nonempty cjk && nonempty lat); [now rewrite <- app_assoc|].
  destruct (nonempty cjk); reflexivity.
Qed.

Lemma dialogues_flat_map entries :
  dialogues entries = flat_map entry_events entries.
Proof.
  unfold dialogues.
  assert (H : forall dlg, fold_left dialogue_step entries dlg
                          = dlg ++ flat_map entry_events entries).
  { induction entries as [|e es IH]; intros dlg; cbn [fold_left flat_map].
    - now rewrite app_nil_r.
    - rewrite IH, dialogue_step_app, <- app_assoc. reflexivity. }
  apply H.
Qed.

Lemma one_line_app a b : one_line (a ++ b) = one_line a && one_line b.
Proof. apply forallb_app. Qed.

Lemma uint_digits_one_line d : one_line (Py.uint_digits d) = true.
Proof. induction d; cbn; try reflexivity; exact IHd. Qed.

Lemma repeat_one_line c n : c <> NL -> one_line (repeat c n) = true.
Proof.
  intros H. induction n as [|n IH]; [reflexivity|].
  change (one_line (repeat c (S n)))
    with (negb (c =? NL) && one_line (repeat c n)).
  rewrite IH, andb_true_r. apply negb_true_iff, Z.eqb_neq, H.
Qed.

Lemma format_d_one_line w n : one_line (Py.format_d w n) = true.
Proof.
  unfold Py.format_d. rewrite !one_line_app, uint_digits_one_line.
  rewrite repeat_one_line by discriminate. destruct (n <? 0); reflexivity.
Qed.

Lemma format_ass_time_one_line s : one_line (format_ass_time s) = true.
Proof.
  unfold format_ass_time. rewrite !one_line_app, !format_d_one_line. reflexivity.
Qed.

Lemma ass_breaks_map text :
  ass_breaks text = flat_map (fun c => if c =? NL then [92; 78] else [c]) text.
Proof.
  unfold ass_breaks, Py.replace. induction text as [|c t IH]; [reflexivity|].
  cbn [Py.replace_from Py.startswith flat_map length Nat.sub].
  rewrite andb_true_r, (Z.eqb_sym NL c).
  destruct (c =? NL); rewrite IH; reflexivity.
Qed.

Lemma ass_breaks_one_line text : one_line (ass_breaks text) = true.
Proof.
  rewrite ass_breaks_map. induction text as [|c t IH]; [reflexivity|].
  cbn [flat_map]. rewrite one_line_app, IH, andb_true_r.
  destruct (c =? NL) eqn:E; [reflexivity|].
  unfold one_line. cbn [forallb]. now rewrite E.
Qed.

Lemma dialogue_event_line s en style text :
  one_line s = true -> one_line en = true -> one_line (lit style) = true ->
  one_line text = true -> event_line (dialogue s en style text).
Proof.
  intros Hs He Hst Ht. unfold dialogue.
  exists (s ++ lit "," ++ en ++ lit "," ++ lit style ++ lit ",,0,0,0,," ++ text).
  split; [now rewrite <- !app_assoc|].
  rewrite !one_line_app, Hs, He, Hst, Ht. reflexivity.
Qed.

(** The events of one entry, case by case. *)
Lemma entry_events_cases e :
  let s := format_ass_time (e_start e) in
  let en := format_ass_time (e_end e) in
  entry_events e =
    match split_cjk_latin (e_text e) with
    | ((_ :: _) as cjk, (_ :: _) as lat) =>
        [dialogue s en "Chinese" (ass_breaks cjk);
         dialogue s en "English" (ass_breaks lat)]
    | ((_ :: _) as cjk, []) => [dialogue s en "Chinese" (ass_breaks cjk)]
    | ([], (_ :: _) as lat) => [dialogue s en "English" (ass_breaks lat)]
    | ([], []) => [dialogue s en "English" (ass_breaks (e_text e))]
    end.
Proof.
  unfold entry_events, dialogue_step.
  destruct (split_cjk_latin (e_text e)) as [[|c cjk] [|l lat]]; reflexivity.
Qed.

Lemma entry_events_lines e : Forall event_line (entry_events e).
Proof.
  rewrite entry_events_cases.
  destruct (split_cjk_latin (e_text e)) as [[|c cjk] [|l lat]];
    repeat constructor;
    apply dialogue_event_line;
    auto using format_ass_time_one_line, ass_breaks_one_line.
Qed.

(** The events written out are the generator's own. *)
Lemma render_event_dialogue s en style text :
  render_event (AssEvent s en style text) = dialogue s en style text.
Proof.
  unfold render_event, event_fields, dialogue.
  cbn [Py.join ev_start ev_end ev_style ev_text].
  change (lit "Dialogue: 0,") with (lit "Dialogue: " ++ lit "0" ++ lit ",").
  rewrite <- !app_assoc. reflexivity.
Qed.

Lemma ass_line_breaks_replace text : ass_line_breaks text = ass_breaks text.
Proof. symmetry. apply ass_breaks_map. Qed.

Lemma expected_events_rendered e :
  map render_event (expected_events e) = entry_events e.
Proof.
  rewrite entry_events_cases. unfold expected_events.
  destruct (split_cjk_latin (e_text e)) as [[|c cjk] [|l lat]];
    cbn [map]; rewrite ?render_event_dialogue, ?ass_line_breaks_replace;
    reflexivity.
Qed.

Lemma expected_events_flat entries :
  map render_event (flat_map expected_events entries)
  = flat_map entry_events entries.
Proof.
  induction entries as [|e es IH]; [reflexivity|].
  cbn [flat_map]. now rewrite map_app, expected_events_rendered, IH.
Qed.

Lemma ass_line_breaks_one_line text : one_line (ass_line_breaks text) = true.
Proof. rewrite ass_line_breaks_replace. apply ass_breaks_one_line. Qed.

(** C4. The count the generator returns is the number of entries, and
    the script is the header followed by the events asked of the
    entries, in order and written out in full: for an entry, the
    Chinese event then the English event when both buckets of its text
    are non-empty, the event of the non-empty bucket on its own style
    when one is, and one English event carrying the entry's own text
    when both are empty; each event has the entry's two times and the
    text with its line feeds written as ASS line breaks.  So an entry
    gives one or two events, and each is one line of the script. *)
Theorem ass_generator_complete (entries : list entry) (w h : Z)
    (mv : option Q) (script : pystr) (n : Z) :
  ass_script entries w h mv = Some (script, n) ->
  n = Z.of_nat (length entries)
  /\ (exists l, create_ass_layout w h mv = Some l
        /\ script = ass_header w h l
                    ++ concat (map render_event
                                   (flat_map expected_events entries)))
  /\ Forall (fun e =>
       (1 <= length (expected_events e) <= 2)%nat
       /\ Forall (fun ev =>
                    ev_start ev = format_ass_time (e_start e)
                    /\ ev_end ev = format_ass_time (e_end e)
                    /\ one_line (ev_text ev) = true
                    /\ event_line (render_event ev))
                 (expected_events e)) entries.
Proof.
  unfold ass_script. intros H.
  destruct (create_ass_layout w h mv) as [l|] eqn:El; [|discriminate].
  cbn in H. injection H as <- <-.
  split; [reflexivity|]. split.
  - exists l. split; [reflexivity|].
    now rewrite dialogues_flat_map, expected_events_flat.
  - apply Forall_forall. intros e _. unfold expected_events.
    destruct (split_cjk_latin (e_text e)) as [[|c cjk] [|a lat]];
      (split; [cbn; lia|]);
      repeat constructor; cbn [ev_start ev_end ev_text];
      try apply ass_line_breaks_one_line;
      rewrite render_event_dialogue; apply dialogue_event_line;
      auto using format_ass_time_one_line, ass_line_breaks_one_line.
Qed.

Lemma ass_generator_complete_witness :
  exists script,
    ass_script demo_entries 1920 1080 None = Some (script, 2)
    /\ Forall (fun e => (1 <= length (expected_events e) <= 2)%nat)
              demo_entries
    /\ map (map ev_style) (map expected_events demo_entries)
       = [["English"]; ["Chinese"; "English"]]%string.
Proof.
  destruct (ass_script demo_entries 1920 1080 None) as [[script n]|] eqn:E;
    [|vm_compute in E; discriminate].
  destruct (ass_generator_complete demo_entries 1920 1080 None script n E)
    as (Hn & _ & HF).
  exists script. split; [now rewrite Hn|]. split.
  - eapply Forall_impl; [exact HF|]. intros e (H & _). exact H.
  - vm_compute. reflexivity.
Defined.

End Generator.

(** ** The SubRip parser *)

Section Parser.

Lemma rep_some {R} p lo hi n s (k : pystr -> option R) res :
  Re.rep p lo hi n s k = Some res ->
  exists pre s', s = pre ++ s' /\ (lo <= n + length pre)%nat
                 /\ forallb p pre = true /\ k s' = Some res.
Proof.
  revert n. induction s as [|c s IH]; intros n H.
  - cbn in H. destruct (lo <=? n)%nat eqn:E; [|discriminate].
    apply Nat.leb_le in E. exists [], []. cbn. repeat split; [lia|exact H].
  - cbn [Re.rep] in H.
    assert (Hstop : (if (lo <=? n)%nat then k (c :: s) else None) = Some res ->
                    exists pre s', c :: s = pre ++ s' /\ (lo <= n + length pre)%nat
                                   /\ forallb p pre = true /\ k s' = Some res).
    { intros Hs. destruct (lo <=? n)%nat eqn:E; [|discriminate].
      apply Nat.leb_le in E. exists [], (c :: s). cbn. repeat split; [lia|exact Hs]. }
    destruct (p c && _) eqn:Epc; [|exact (Hstop H)].
    destruct (Re.rep p lo hi (S n) s k) as [r|] eqn:Er; [|exact (Hstop H)].
    injection H as ->. apply andb_true_iff in Epc as [Hpc _].
    destruct (IH _ Er) as (pre & s' & -> & Hlen & Hall & Hk).
    exists (c :: pre), s'. cbn. rewrite Hpc, Hall. repeat split; [lia|exact Hk].
Qed.

(** Running a pattern whose groups capture digits: the continuation is
    reached with as many more groups as the pattern has, all of them
    digit strings. *)
Lemma run_digit_groups {R} r : digit_groups r ->
  forall s caps (k : pystr -> list pystr -> option R) res,
    Re.run r s caps k = Some res ->
    exists s' caps', k s' caps' = Some res
      /\ length caps' = (length caps + ngroups r)%nat
      /\ (Forall digit_string caps -> Forall digit_string caps').
Proof.
  induction r as [|p|p lo hi|r1 IH1 r2 IH2|r1 IH]; intros Hg s caps k res H.
  - exists s, caps. cbn in *. repeat split; [exact H|lia|auto].
  - cbn in H. destruct s as [|c s]; [discriminate|].
    destruct (p c); [|discriminate].
    exists s, caps. cbn. repeat split; [exact H|lia|auto].
  - cbn in H. apply rep_some in H as (pre & s' & _ & _ & _ & Hk).
    exists s', caps. cbn. repeat split; [exact Hk|lia|auto].
  - destruct Hg as [Hg1 Hg2]. cbn [Re.run] in H.
    destruct (IH1 Hg1 _ _ _ _ H) as (s1 & c1 & H1 & L1 & F1).
    destruct (IH2 Hg2 _ _ _ _ H1) as (s2 & c2 & H2 & L2 & F2).
    exists s2, c2. cbn [ngroups]. repeat split; [exact H2|lia|auto].
  - destruct r1 as [|?|p lo hi|? ?|?]; try contradiction.
    destruct lo as [|lo]; [contradiction|]. cbn in Hg. subst p.
    cbn [Re.run] in H. apply rep_some in H as (pre & s' & -> & Hlen & Hall & Hk).
    eexists s', _. split; [exact Hk|]. cbn [ngroups].
    rewrite length_app. cbn [length]. split; [lia|].
    intros HF. apply Forall_app. split; [exact HF|]. constructor; [|constructor].
    rewrite length_app.
    replace (length pre + length s' - length s')%nat with (length pre) by lia.
    rewrite take_app_length. split; [|exact Hall].
    destruct pre; [cbn in Hlen; lia|discriminate].
Qed.

Lemma timestamp_digit_groups : digit_groups timestamp_re.
Proof. cbn. repeat split; reflexivity. Qed.

Lemma timestamp_groups s rest g :
  Re.rmatch timestamp_re s = Some (rest, g) ->
  length g = 8%nat /\ Forall digit_string g.
Proof.
  unfold Re.rmatch. intros H.
  destruct (run_digit_groups timestamp_re timestamp_digit_groups _ _ _ _ H)
    as (s' & caps' & [= <- <-] & L & F).
  split; [exact L|]. apply F. constructor.
Qed.

Lemma int_of_digits_total g : digit_string g -> is_Some (Py.int_of_digits g).
Proof.
  intros [Hne Hall]. unfold Py.int_of_digits.
  destruct g as [|c g]; [contradiction|].
  generalize (c :: g) Hall (0%Z). clear. intros s.
  induction s as [|d s IH]; intros Hall a; [eexists; reflexivity|].
  cbn in Hall. apply andb_true_iff in Hall as [Hd Hs].
  cbn [fold_left]. unfold Py.isdecimal in Hd.
  destruct (Py.decimal_value d) as [v|]; [|discriminate].
  apply IH, Hs.
Qed.

Lemma group_seconds_total g i :
  Forall digit_string g -> (i + 3 < length g)%nat -> is_Some (group_seconds g i).
Proof.
  intros HF Hlen. unfold group_seconds.
  assert (Hd : forall j, (j < length g)%nat ->
                exists z, g !! j ≫= Py.int_of_digits = Some z).
  { intros j Hj. destruct (lookup_lt_is_Some_2 g j Hj) as [x Hx].
    rewrite Hx. cbn. apply int_of_digits_total.
    eapply Forall_lookup_1; eassumption. }
  destruct (Hd i) as [a ->]; [lia|].
  destruct (Hd (i + 1)%nat) as [b ->]; [lia|].
  destruct (Hd (i + 2)%nat) as [c ->]; [lia|].
  destruct (Hd (i + 3)%nat) as [d ->]; [lia|].
  cbn. eexists. reflexivity.
Qed.

Lemma find_time_groups lines i g idx :
  find_time lines i = Some (g, idx) ->
  length g = 8%nat /\ Forall digit_string g /\ (i <= idx < i + length lines)%nat.
Proof.
  revert i. induction lines as [|l lines IH]; intros i H; [discriminate|].
  cbn [find_time] in H.
  destruct (Re.rmatch timestamp_re (Py.strip l)) as [[rest g']|] eqn:E.
  - injection H as <- <-. destruct (timestamp_groups _ _ _ E). cbn. repeat split; auto; lia.
  - destruct (IH _ H) as (? & ? & ?). cbn. repeat split; auto; lia.
Qed.

Lemma find_time_exists lines i :
  is_Some (find_time lines i) <-> existsb is_timestamp_line lines = true.
Proof.
  revert i. induction lines as [|l lines IH]; intros i; cbn [find_time existsb].
  - split; [intros [? ?]; discriminate|discriminate].
  - unfold is_timestamp_line at 1.
    destruct (Re.rmatch timestamp_re (Py.strip l)) as [[rest g]|]; cbn [orb].
    + split; [reflexivity|eexists; reflexivity].
    + apply IH.
Qed.

(** One turn of the loop never raises, and appends the block's entry
    when it has one. *)
Lemma parse_block_appends entries block :
  parse_block entries block
  = Some (entries ++ match block_entry block with Some e => [e] | None => [] end).
Proof.
  unfold block_entry, parse_block. fold (block_lines block).
  destruct (length (block_lines block) <? 2)%nat; [now rewrite app_nil_r|].
  destruct (find_time (block_lines block) 0) as [[g idx]|] eqn:E;
    [|now rewrite app_nil_r].
  destruct (find_time_groups _ _ _ _ E) as (L & F & _).
  destruct (group_seconds_total g 0 F) as [a ->]; [lia|].
  destruct (group_seconds_total g 4 F) as [b ->]; [lia|].
  cbn. destruct (clean_text _); [now rewrite app_nil_r|reflexivity].
Qed.

Lemma parse_blocks_fold blocks entries :
  fold_left (fun acc block => entries ← acc; parse_block entries block)
            blocks (Some entries)
  = Some (entries ++ omap block_entry blocks).
Proof.
  revert entries. induction blocks as [|b blocks IH]; intros entries.
  - cbn. now rewrite app_nil_r.
  - cbn [fold_left]. cbn [mbind option_bind].
    rewrite parse_block_appends, IH, <- app_assoc.
    change (omap block_entry (b :: blocks))
      with (match block_entry b with
            | Some e => e :: omap block_entry blocks
            | None => omap block_entry blocks
            end).
    destruct (block_entry b); reflexivity.
Qed.

Lemma split_nonempty sep s : Py.split sep s <> [].
Proof.
  destruct s as [|c s]; [discriminate|]. cbn.
  destruct (c =? sep); [discriminate|]. destruct (Py.split sep s); discriminate.
Qed.

(** *** The markup stripping *)

(** A tag pattern: the opening mark, one or more code points other
    than the closing mark, the closing mark. *)
Lemma rep_tag {R} c n s (k : pystr -> option R) (k' : pystr -> option R) :
  k [] = None ->
  (forall y r, k (y :: r) = if c =? y then k' r else None) ->
  Re.rep (fun y => negb (y =? c)%Z) 1 None n s k
  = match drop (lead (fun y => negb (y =? c)%Z) s) s with
    | _ :: r => if (1 <=? n + lead (fun y => negb (y =? c)%Z) s)%nat
                then k' r else None
    | [] => None
    end.
Proof.
  intros Hnil Hcons. revert n. induction s as [|y s IH]; intros n.
  - cbn [Re.rep lead drop]. rewrite Hnil. now destruct (1 <=? n)%nat.
  - cbn [Re.rep lead]. destruct (negb (y =? c)%Z) eqn:Ey; cbn [andb].
    + rewrite IH. cbn [drop].
      replace (S n + lead (fun y0 => negb (y0 =? c)%Z) s)%nat
        with (n + S (lead (fun y0 => negb (y0 =? c)%Z) s))%nat by lia.
      assert (Hstop : (if (1 <=? n)%nat then k (y :: s) else None) = None).
      { rewrite Hcons. apply negb_true_iff in Ey. rewrite Z.eqb_sym, Ey.
        now destruct (1 <=? n)%nat. }
      rewrite Hstop.
      destruct (drop (lead (fun y0 => negb (y0 =? c)%Z) s) s) as [|z r];
        [reflexivity|].
      destruct (1 <=? n + S (lead (fun y0 => negb (y0 =? c)%Z) s))%nat;
        [|reflexivity].
      now destruct (k' r).
    + cbn [drop]. rewrite Nat.add_0_r, Hcons.
      apply negb_false_iff in Ey. now rewrite Z.eqb_sym, Ey.
Qed.

Lemma match_len_tag o c x s :
  Re.match_len (Re.seq [Re.chr o; Re.Rep (fun y => negb (y =? c)%Z) 1 None;
                        Re.chr c]) (x :: s)
  = let inner := lead (fun y => negb (y =? c)%Z) s in
    if (x =? o) && (0 <? inner)%nat && (inner <? length s)%nat
    then Some (S (S inner)) else None.
Proof.
  cbv zeta. unfold Re.match_len, Re.rmatch, Re.seq, Re.chr. cbn [Re.run].
  rewrite (Z.eqb_sym o x). destruct (x =? o); [|reflexivity]. cbn [andb].
  rewrite (rep_tag c 0 s _ (fun r => Some (r, @nil pystr)))
    by (reflexivity || (intros y r; reflexivity)).
  set (inner := lead (fun y => negb (y =? c)%Z) s).
  pose proof (lead_length (fun y => negb (y =? c)%Z) s) as Hle. fold inner in Hle.
  pose proof (length_drop s inner) as Hd.
  cbn [Nat.add].
  destruct (drop inner s) as [|z r] eqn:E; cbn [length] in Hd.
  - replace (inner <? length s)%nat with false
      by (symmetry; apply Nat.ltb_ge; lia).
    now rewrite andb_false_r.
  - replace (inner <? length s)%nat with true
      by (symmetry; apply Nat.ltb_lt; lia).
    rewrite andb_true_r.
    destruct inner as [|m]; [reflexivity|]. cbn [Nat.leb Nat.ltb length].
    f_equal. lia.
Qed.

Lemma sub_from_tags o c skip s :
  Re.sub_from (Re.seq [Re.chr o; Re.Rep (fun y => negb (y =? c)%Z) 1 None;
                       Re.chr c]) [] skip s
  = remove_tags o c skip s.
Proof.
  revert skip. induction s as [|x s IH]; intros skip; [reflexivity|].
  cbn [Re.sub_from remove_tags]. destruct skip as [|k]; [|apply IH].
  rewrite match_len_tag. cbv zeta.
  destruct ((x =? o) && _ && _); [|now rewrite IH].
  cbn [app]. apply IH.
Qed.

Lemma clean_text_strip_markup text : clean_text text = strip_markup text.
Proof.
  unfold clean_text, strip_markup, Re.sub, angle_tag_re, brace_tag_re.
  now rewrite !sub_from_tags.
Qed.

(** *** The timestamp search *)

Lemma find_time_spec lines i :
  match find_time lines i with
  | Some (g, idx) =>
      exists line rest,
        List.find is_timestamp_line lines = Some line
        /\ Re.rmatch timestamp_re (Py.strip line) = Some (rest, g)
        /\ after_timestamp lines = Some (drop (idx - i + 1) lines)
        /\ (i <= idx)%nat
  | None =>
      List.find is_timestamp_line lines = None
      /\ after_timestamp lines = None
  end.
Proof.
  revert i. induction lines as [|l lines IH]; intros i; [now split|].
  cbn [find_time List.find after_timestamp].
  destruct (Re.rmatch timestamp_re (Py.strip l)) as [[rest g]|] eqn:E.
  - assert (T : is_timestamp_line l = true)
      by (unfold is_timestamp_line; now rewrite E).
    rewrite T. exists l, rest. rewrite Nat.sub_diag. repeat split; auto.
  - assert (T : is_timestamp_line l = false)
      by (unfold is_timestamp_line; now rewrite E).
    rewrite T. specialize (IH (S i)).
    destruct (find_time lines (S i)) as [[g idx]|]; [|exact IH].
    destruct IH as (line & rest & H1 & H2 & H3 & H4).
    exists line, rest. repeat split; auto; [|lia].
    rewrite H3. f_equal.
    replace (idx - i + 1)%nat with (S (idx - S i + 1)) by lia. reflexivity.
Qed.

(** One turn of the parser's loop gives the entry of a kept block, and
    nothing for another block. *)
Lemma block_entry_timed block : block_entry block = timed_entry block.
Proof.
  unfold block_entry, parse_block, timed_entry, kept, block_text, block_times,
    has_timestamp.
  fold (block_lines block).
  pose proof (find_time_spec (block_lines block) 0) as Hspec.
  pose proof (find_time_exists (block_lines block) 0) as Hex.
  pose proof (split_nonempty NL (Py.strip block)) as Hne.
  fold (block_lines block) in Hne.
  destruct (find_time (block_lines block) 0) as [[g idx]|] eqn:E.
  - destruct Hspec as (line & rest & Hfind & Hm & Hafter & _).
    rewrite Nat.sub_0_r in Hafter.
    destruct (find_time_groups _ _ _ _ E) as (L & F & Hidx).
    destruct (group_seconds_total g 0 F) as [a Ha]; [lia|].
    destruct (group_seconds_total g 4 F) as [b Hb]; [lia|].
    assert (Hts : existsb is_timestamp_line (block_lines block) = true)
      by (apply Hex; eexists; reflexivity).
    rewrite Hts, Hafter, Hfind. cbn [mbind option_bind andb]. rewrite Hm.
    cbn [mbind option_bind snd]. rewrite Ha, Hb. cbn [mbind option_bind].
    rewrite clean_text_strip_markup.
    destruct (length (block_lines block) <? 2)%nat eqn:Elen.
    + apply Nat.ltb_lt in Elen.
      destruct (block_lines block) as [|l [|l' ls]]; cbn in Elen, Hidx;
        [contradiction| |lia].
      assert (idx = 0)%nat as -> by lia. reflexivity.
    + destruct (strip_markup _); reflexivity.
  - destruct Hspec as [_ Hafter].
    assert (Hts : existsb is_timestamp_line (block_lines block) = false).
    { destruct (existsb _ _); [|reflexivity].
      destruct Hex as [_ Hex]. destruct (Hex eq_refl); discriminate. }
    rewrite Hts. cbn [andb].
    destruct (length (block_lines block) <? 2)%nat; reflexivity.
Qed.

(** A kept block always has its two times: [int()] does not raise on
    the digits the pattern captured. *)
Lemma timed_entry_kept block :
  is_Some (timed_entry block) <-> kept block = true.
Proof.
  unfold timed_entry. split.
  - destruct (kept block); [reflexivity|]. intros [? ?]; discriminate.
  - intros Hk. rewrite Hk. unfold kept in Hk.
    apply andb_true_iff in Hk as [Hts _]. unfold has_timestamp in Hts.
    apply (find_time_exists _ 0) in Hts as [[g idx] E].
    pose proof (find_time_spec (block_lines block) 0) as Hspec.
    rewrite E in Hspec. destruct Hspec as (line & rest & Hfind & Hm & _).
    destruct (find_time_groups _ _ _ _ E) as (L & F & _).
    destruct (group_seconds_total g 0 F) as [a Ha]; [lia|].
    destruct (group_seconds_total g 4 F) as [b Hb]; [lia|].
    unfold block_times. rewrite Hfind. cbn [mbind option_bind]. rewrite Hm.
    cbn [mbind option_bind snd]. rewrite Ha, Hb. cbn [mbind option_bind].
    eexists. reflexivity.
Qed.

Lemma kept_iff block : kept block = true <-> is_Some (block_entry block).
Proof. rewrite block_entry_timed. symmetry. apply timed_entry_kept. Qed.

(** A block contributes an entry exactly when it has a timestamp line
    and text left after the stripping. *)
Lemma block_entry_kept block :
  is_Some (block_entry block)
  <-> has_timestamp block = true /\ block_text block <> [].
Proof.
  rewrite <- kept_iff. unfold kept. rewrite andb_true_iff.
  destruct (block_text block); cbn; intuition congruence.
Qed.

Lemma block_entry_text block e :
  block_entry block = Some e -> e_text e = block_text block.
Proof.
  rewrite block_entry_timed. unfold timed_entry.
  destruct (kept block); [|discriminate].
  destruct (block_times block) as [[a b]|]; [|discriminate].
  now intros [= <-].
Qed.

Lemma omap_kept (blocks : list pystr) :
  map e_text (omap timed_entry blocks)
  = map block_text (List.filter kept blocks).
Proof.
  induction blocks as [|b blocks IH]; [reflexivity|]. cbn [List.filter].
  change (omap timed_entry (b :: blocks))
    with (match timed_entry b with
          | Some e => e :: omap timed_entry blocks
          | None => omap timed_entry blocks
          end).
  pose proof (timed_entry_kept b) as Hk. unfold timed_entry in *.
  destruct (kept b).
  - destruct (block_times b) as [[st en]|].
    + cbn [map e_text]. now rewrite IH.
    + destruct Hk as [_ Hk]. destruct (Hk eq_refl); discriminate.
  - exact IH.
Qed.

Lemma omap_block_entry (blocks : list pystr) :
  omap block_entry blocks = omap timed_entry blocks.
Proof.
  induction blocks as [|b blocks IH]; [reflexivity|].
  change (omap block_entry (b :: blocks))
    with (match block_entry b with
          | Some e => e :: omap block_entry blocks
          | None => omap block_entry blocks
          end).
  rewrite block_entry_timed, IH. reflexivity.
Qed.

(** C6. Parsing never fails, and its entries are, in the order of the
    blocks, the entries of the blocks that are kept: a block is kept
    exactly when one of its lines matches the timestamp pattern and
    the text after the first such line is not empty once its markup is
    stripped; its entry has the two times of that line and that text.
    So the number of entries is the number of kept blocks, and the
    texts come in the blocks' order.  Which blocks are kept, and with
    what text, is stated without the parser's loop. *)
Theorem parse_srt_keeps_timed_blocks (content : pystr) :
  exists entries,
    parse_srt_text content = Some entries
    /\ entries = omap timed_entry (srt_blocks content)
    /\ (forall block, is_Some (timed_entry block) <-> kept block = true)
    /\ (forall block, kept block = true
                      <-> has_timestamp block = true /\ block_text block <> [])
    /\ length entries = length (List.filter kept (srt_blocks content))
    /\ map e_text entries = map block_text (List.filter kept (srt_blocks content)).
Proof.
  exists (omap timed_entry (srt_blocks content)).
  split; [unfold parse_srt_text;
          now rewrite parse_blocks_fold, omap_block_entry|].
  split; [reflexivity|]. split; [apply timed_entry_kept|].
  split; [intros block; rewrite kept_iff; apply block_entry_kept|].
  pose proof (omap_kept (srt_blocks content)) as H.
  split; [|exact H].
  apply (f_equal (@length pystr)) in H. now rewrite !length_map in H.
Qed.

End Parser.

(** ** The core process *)

Section EpisodeFacts.
Variable env : environment.

(** *** Workspace cleanup *)

(** The removal takes away whatever can be removed: when no removal
    inside [d] fails, the directory and everything beneath it are gone. *)
Lemma rmtree_removes d w :
  (forall p, p = d \/ under d p = true ->
             env_fault env (OpRemove p) (w_fs w) = None) ->
  let w' := (rmtree env d w).2 in
  (d ∉ dirs (w_fs w'))
  /\ (forall p, under d p = true -> files (w_fs w') !! p = None)
  /\ procs w' = procs w.
Proof.
  intros Hok. cbn.
  assert (Hfiles : forall p, under d p = true ->
            filter (fun kv : pystr * bytes =>
                      under d kv.1 = false
                      \/ is_Some (env_fault env (OpRemove kv.1) (w_fs w)))
                   (files (w_fs w)) !! p = None).
  { intros p Hp. apply map_lookup_filter_None. right. intros data _. cbn.
    rewrite (Hok p (or_intror Hp)), Hp.
    intros [H|[x H]]; discriminate. }
  split; [|split; [exact Hfiles|reflexivity]].
  intros H. apply elem_of_filter in H as [H _].
  destruct H as [[H _]|[[x H]|[H|H]]].
  - now apply H.
  - rewrite (Hok d (or_introl eq_refl)) in H. discriminate.
  - destruct H as (p & x & Hp & Hu). cbn in Hu. rewrite (Hfiles p Hu) in Hp.
    discriminate.
  - destruct H as (q & _ & Hu & [x Hq]).
    rewrite (Hok q (or_intror Hu)) in Hq. discriminate.
Qed.

Lemma mkdtemp_run w d :
  env_mkdtemp env (w_fs w) = Ok d -> mkdtemp env w = (Ok d, with_dir d w).
Proof. intros H. unfold mkdtemp, bind, get_fs, put_fs, ret. now rewrite H. Qed.


Section Job.
Variables video_bytes srt_bytes : bytes.
Variables video_name srt_name ep_name merge_type : pystr.
Variable margin_v_pct : Q.
Variable log_fn : option (pystr -> M unit).

Let run_job : M merge_result :=
  process_episode env video_bytes video_name srt_bytes srt_name ep_name
                  merge_type margin_v_pct log_fn.
Let body : pystr -> M merge_result :=
  episode_body env video_bytes video_name srt_bytes srt_name ep_name
               merge_type margin_v_pct log_fn.

(** C8, as the code has it.  Whatever the job comes to (a success, a
    failure it reports, an exception it turns into a failure, or one
    it lets through), the removal of the scratch directory is
    attempted when [process_episode] is left, with its errors ignored.
    So the directory that was created at the start, and every file
    beneath it, are gone provided no removal inside it fails. *)
Theorem workspace_removed (w : world) (d : pystr) :
  env_mkdtemp env (w_fs w) = Ok d ->
  (forall fs p, p = d \/ under d p = true ->
                env_fault env (OpRemove p) fs = None) ->
  let w' := (run_job w).2 in
  (d ∉ dirs (w_fs w'))
  /\ (forall p, under d p = true -> files (w_fs w') !! p = None).
Proof.
  intros Hd Hok. subst run_job. unfold process_episode, bind.
  rewrite (mkdtemp_run _ _ Hd). unfold try_finally.
  destruct (try_except _ _ (with_dir d w)) as [r w1].
  cbn [snd]. destruct (rmtree_removes d w1 (Hok (w_fs w1))) as (H1 & H2 & _).
  split; assumption.
Qed.

(** *** Validation *)








Section NoFault.
Hypothesis no_fault : forall op fs, env_fault env op fs = None.












End NoFault.



(** *** The job boundary *)

Lemma post_ret {A} (a : A) (P : A -> Prop) : P a -> post (ret a) P.
Proof. intros H w a' w' [= <- _]. exact H. Qed.

Lemma post_bind {A B} (m : M A) (k : A -> M B) (P : B -> Prop) :
  (forall a, post (k a) P) -> post (bind m k) P.
Proof.
  intros H w b w'. unfold bind. destruct (m w) as [[a|e] w1]; [|discriminate].
  apply H.
Qed.

Lemma post_try_except {A} (m : M A) (h : exn -> M A) (P : A -> Prop) :
  post m P -> (forall e, post (h e) P) -> post (try_except m h) P.
Proof.
  intros Hm Hh w a w'. unfold try_except.
  destruct (m w) as [[a'|e] w1] eqn:E.
  - intros [= <- <-]. exact (Hm _ _ _ E).
  - destruct (catchable e); [apply Hh|discriminate].
Qed.







End Job.
End EpisodeFacts.

Lemma workspace_removed_witness :
  let w' := (demo_job demo_env demo_video demo_srt None).2 in
  (lit "/tmp/st_merger_0" ∉ dirs (w_fs w'))
  /\ (forall p, under (lit "/tmp/st_merger_0") p = true ->
                files (w_fs w') !! p = None).
Proof.
  apply (workspace_removed demo_env demo_video demo_srt (lit "ep.mp4")
           (lit "ep.srt") (lit "ep") (lit "hard") CHINESE_MARGIN_V_PCT None
           demo_world (lit "/tmp/st_merger_0")).
  - reflexivity.
  - intros fs p _. reflexivity.
Defined.

(** A job whose files cannot be removed: its scratch directory and the
    staged video are still there when [process_episode] has returned. *)
Lemma workspace_left_counterexample :
  let w' := (demo_job demo_env_busy demo_video demo_srt None).2 in
  lit "/tmp/st_merger_0" ∈ dirs (w_fs w')
  /\ files (w_fs w') !! lit "/tmp/st_merger_0/video.mp4" = Some demo_video.
Proof.
  cbv zeta. split.
  - apply (bool_decide_unpack _). vm_compute. exact I.
  - vm_compute. reflexivity.
Qed.




(** With the same inputs and nothing failing, the job succeeds. *)
Lemma demo_job_succeeds :
  success <$> match (demo_job demo_env demo_video demo_srt None).1 with
              | Ok r => Some r
              | Raise _ => None
              end = Some true.
Proof. vm_compute. reflexivity. Qed.


(** * Further properties of the code *)

(** ** The bilingual splitter *)

Section Splitter.

Lemma split_step_fold lines cj la :
  fold_left split_step lines (cj, la)
  = (cj ++ List.filter (fun l => is_cjk (detect_language l)) lines,
     la ++ List.filter (fun l => negb (is_cjk (detect_language l))) lines).
Proof.
  revert cj la. induction lines as [|l lines IH]; intros cj la.
  - cbn. now rewrite !app_nil_r.
  - cbn [fold_left List.filter]. unfold split_step at 2.
    destruct (is_cjk (detect_language l)); cbn [negb]; rewrite IH;
      now rewrite <- ?app_assoc.
Qed.

Lemma split_cjk_latin_lines text :
  split_cjk_latin text
  = (Py.join [NL] (cjk_lines_of text), Py.join [NL] (latin_lines_of text)).
Proof.
  unfold split_cjk_latin. rewrite split_step_fold. reflexivity.
Qed.

Lemma lstrip_nil_iff p s : Py.lstrip_by p s = [] <-> forallb p s = true.
Proof.
  induction s as [|c s IH]; cbn; [tauto|].
  destruct (p c); cbn; [exact IH|]. split; discriminate.
Qed.

Lemma forallb_rev {A} (p : A -> bool) l : forallb p (rev l) = forallb p l.
Proof.
  induction l as [|a l IH]; [reflexivity|]. cbn.
  rewrite forallb_app, IH. cbn. rewrite andb_true_r. apply andb_comm.
Qed.

Lemma forallb_lstrip p s : forallb p (Py.lstrip_by p s) = forallb p s.
Proof.
  induction s as [|c s IH]; [reflexivity|]. cbn.
  destruct (p c) eqn:E; [exact IH|]. cbn. now rewrite E.
Qed.

Lemma strip_nil_iff p s : Py.strip_by p s = [] <-> forallb p s = true.
Proof.
  unfold Py.strip_by, Py.rstrip_by. split.
  - intros H. apply (f_equal (@rev Z)) in H. rewrite rev_involutive in H.
    cbn in H. apply lstrip_nil_iff in H.
    now rewrite forallb_rev, forallb_lstrip in H.
  - intros H.
    assert (E : Py.lstrip_by p (rev (Py.lstrip_by p s)) = []).
    { apply lstrip_nil_iff. now rewrite forallb_rev, forallb_lstrip. }
    now rewrite E.
Qed.

Lemma strip_idempotent p s : Py.strip_by p (Py.strip_by p s) = Py.strip_by p s.
Proof.
  assert (L : forall t, (forall c, head t = Some c -> p c = false) ->
                        Py.lstrip_by p t = t).
  { intros [|c t] H; [reflexivity|]. cbn. now rewrite (H c eq_refl). }
  set (t := Py.strip_by p s).
  assert (Hh : forall c, head t = Some c -> p c = false) by apply strip_head.
  assert (Hl : forall c, last t = Some c -> p c = false) by apply strip_last.
  unfold Py.strip_by at 1, Py.rstrip_by. rewrite (L t Hh), L.
  - apply rev_involutive.
  - intros c Hc. apply Hl. rewrite <- Hc.
    rewrite <- (last_rev_head (rev t)), rev_involutive. reflexivity.
Qed.

(** Lines that are all blank make a blank text. *)
Lemma split_all_space s :
  Forall (fun l => forallb Py.isspace l = true) (Py.split NL s) ->
  forallb Py.isspace s = true.
Proof.
  induction s as [|c s IH]; [reflexivity|]. cbn [Py.split].
  destruct (Z.eqb_spec c NL) as [->|Hc].
  - intros H. inversion H; subst. cbn. now apply IH.
  - pose proof (split_nonempty NL s) as Hne.
    destruct (Py.split NL s) as [|l ls]; [contradiction|].
    intros H. inversion H as [|? ? Hcl Hls]; subst.
    cbn in Hcl. apply andb_true_iff in Hcl as [Hc1 Hl].
    cbn. rewrite Hc1. apply IH. now constructor.
Qed.

Lemma stripped_lines_nonempty text :
  Py.strip text <> [] -> stripped_lines text <> [].
Proof.
  intros H Hs. apply H. apply strip_nil_iff, split_all_space.
  unfold stripped_lines in Hs. apply map_eq_nil in Hs.
  apply Forall_forall. intros l Hl.
  destruct (nonempty (Py.strip l)) eqn:E.
  - assert (Hin : In l (List.filter (fun l => nonempty (Py.strip l)) (Py.split NL text))).
    { apply filter_In. split; [|exact E]. now apply list_elem_of_In. }
    rewrite Hs in Hin. contradiction.
  - apply strip_nil_iff. unfold Py.strip in E. destruct (Py.strip_by _ l); [reflexivity|discriminate].
Qed.

Lemma stripped_lines_not_blank text :
  Forall (fun l => l <> [] /\ Py.strip l = l) (stripped_lines text).
Proof.
  unfold stripped_lines. apply Forall_forall. intros l Hl.
  apply list_elem_of_In, in_map_iff in Hl as (l0 & <- & Hin).
  apply filter_In in Hin as [_ Hne]. split.
  - destruct (Py.strip l0); [discriminate|discriminate].
  - apply strip_idempotent.
Qed.

Lemma join_nil_iff sep parts :
  Forall (fun l => l <> []) parts -> Py.join sep parts = [] -> parts = [].
Proof.
  intros H. destruct parts as [|p ps]; [reflexivity|].
  inversion H as [|? ? Hp _]; subst. cbn.
  destruct ps; intros E; [contradiction|].
  apply app_eq_nil in E as [E _]. contradiction.
Qed.

Lemma filter_partition_nonempty {A} (f : A -> bool) l :
  l <> [] -> List.filter f l <> [] \/ List.filter (fun x => negb (f x)) l <> [].
Proof.
  destruct l as [|a l]; [contradiction|]. intros _. cbn.
  destruct (f a); cbn; [left|right]; discriminate.
Qed.

Lemma buckets_not_both_empty text :
  Py.strip text <> [] ->
  (split_cjk_latin text).1 <> [] \/ (split_cjk_latin text).2 <> [].
Proof.
  intros H. rewrite split_cjk_latin_lines. cbn [fst snd].
  pose proof (stripped_lines_not_blank text) as HF.
  assert (HF' : Forall (fun l : pystr => l <> []) (stripped_lines text)).
  { eapply Forall_impl; [exact HF|]. now intros l [? _]. }
  destruct (filter_partition_nonempty (fun l => is_cjk (detect_language l))
              (stripped_lines text) (stripped_lines_nonempty _ H)) as [Hc|Hl].
  - left. intros E. apply Hc. eapply join_nil_iff; [|exact E].
    apply Forall_forall. intros l Hl. apply list_elem_of_In, filter_In in Hl as [Hl _].
    eapply Forall_forall in HF'; [exact HF'|]. now apply list_elem_of_In.
  - right. intros E. apply Hl. eapply join_nil_iff; [|exact E].
    apply Forall_forall. intros l Hl'. apply list_elem_of_In, filter_In in Hl' as [Hl' _].
    eapply Forall_forall in HF'; [exact HF'|]. now apply list_elem_of_In.
Qed.

End Splitter.

Section SplitterProperties.

Lemma split_lines_one_line sep s :
  Forall (fun l => forallb (fun c => negb (c =? sep)) l = true) (Py.split sep s).
Proof.
  induction s as [|c s IH]; [repeat constructor|]. cbn [Py.split].
  destruct (c =? sep) eqn:E; [constructor; [reflexivity|exact IH]|].
  destruct (Py.split sep s) as [|l ls]; [repeat constructor; cbn; now rewrite E|].
  inversion IH; subst. constructor; [|assumption]. cbn. now rewrite E.
Qed.

Lemma strip_by_forallb (q : Z -> bool) p s :
  forallb q s = true -> forallb q (Py.strip_by p s) = true.
Proof.
  intros H. destruct (strip_infix p s) as (pre & post & E).
  rewrite E, !forallb_app in H.
  apply andb_true_iff in H as [_ H]. now apply andb_true_iff in H as [H _].
Qed.

(** X1. The splitter puts every non-blank line of the text, stripped,
    into exactly one bucket and keeps the order of the lines: the CJK
    bucket is the lines classified CJK joined by line feeds, the Latin
    bucket the other lines; no line is lost or doubled, and no line of
    a bucket is blank or holds a line feed. *)
Theorem splitter_partitions (text : pystr) :
  split_cjk_latin text
  = (Py.join [NL] (cjk_lines_of text), Py.join [NL] (latin_lines_of text))
  /\ Forall (fun l => detect_language l = Cjk) (cjk_lines_of text)
  /\ Forall (fun l => detect_language l = Latin) (latin_lines_of text)
  /\ (length (cjk_lines_of text) + length (latin_lines_of text)
      = length (stripped_lines text))%nat
  /\ Forall (fun l => l <> [] /\ Py.strip l = l /\ one_line l = true)
            (stripped_lines text)
  /\ stripped_lines text
     = map Py.strip (List.filter (fun l => negb (forallb Py.isspace l))
                                 (Py.split NL text)).
Proof.
  split; [apply split_cjk_latin_lines|].
  split; [|split; [|split; [|split]]].
  - apply Forall_forall. intros l Hl.
    apply list_elem_of_In, filter_In in Hl as [_ Hl].
    destruct (detect_language l); [reflexivity|discriminate].
  - apply Forall_forall. intros l Hl.
    apply list_elem_of_In, filter_In in Hl as [_ Hl].
    destruct (detect_language l); [discriminate|reflexivity].
  - unfold cjk_lines_of, latin_lines_of.
    induction (stripped_lines text) as [|l ls IH]; [reflexivity|].
    cbn. destruct (is_cjk (detect_language l)); cbn; lia.
  - pose proof (stripped_lines_not_blank text) as H1.
    assert (H2 : Forall (fun l => one_line l = true) (stripped_lines text)).
    { unfold stripped_lines. apply Forall_forall. intros l Hl.
      apply list_elem_of_In, in_map_iff in Hl as (l0 & <- & Hin).
      apply filter_In in Hin as [Hin _].
      apply strip_by_forallb.
      pose proof (split_lines_one_line NL text) as HF.
      rewrite Forall_forall in HF. apply HF. now apply list_elem_of_In. }
    rewrite Forall_forall in H1, H2. apply Forall_forall.
    intros l Hl. destruct (H1 l Hl). repeat split; auto.
  - unfold stripped_lines. f_equal. apply filter_ext. intros l.
    destruct (forallb Py.isspace l) eqn:E.
    + apply strip_nil_iff in E. unfold Py.strip. now rewrite E.
    + destruct (Py.strip l) eqn:E'; [|reflexivity].
      apply strip_nil_iff in E'. congruence.
Qed.

End SplitterProperties.

Section ParsedEntries.

Lemma block_text_stripped block : Py.strip (block_text block) = block_text block.
Proof.
  unfold block_text. destruct (after_timestamp _) as [rest|]; [|reflexivity].
  unfold strip_markup. apply strip_idempotent.
Qed.

Lemma parsed_entry_origin content entries e :
  parse_srt_text content = Some entries -> e ∈ entries ->
  exists block, block ∈ srt_blocks content /\ block_entry block = Some e.
Proof.
  unfold parse_srt_text. rewrite parse_blocks_fold. intros [= <-] He.
  cbn in He. apply list_elem_of_omap in He as (b & Hb & Hbe). eauto.
Qed.

(** X2. Every entry the parser returns has a text that is not empty
    and neither begins nor ends with white space. *)
Theorem parsed_text_stripped (content : pystr) (entries : list entry) :
  parse_srt_text content = Some entries ->
  Forall (fun e => e_text e <> []
                   /\ Py.strip (e_text e) = e_text e
                   /\ (forall c, head (e_text e) = Some c -> Py.isspace c = false)
                   /\ (forall c, last (e_text e) = Some c -> Py.isspace c = false))
         entries.
Proof.
  intros H. apply Forall_forall. intros e He.
  destruct (parsed_entry_origin _ _ _ H He) as (b & _ & Hb).
  assert (Hs : is_Some (block_entry b)) by (rewrite Hb; eexists; reflexivity).
  apply block_entry_kept in Hs as [_ Hne].
  rewrite (block_entry_text _ _ Hb).
  pose proof (block_text_stripped b) as Hst.
  repeat split; auto.
  - intros c. rewrite <- Hst. apply strip_head.
  - intros c. rewrite <- Hst. apply strip_last.
Qed.

(** X3. For the entries the parser returns, the two buckets of the
    splitter are never both empty, so the generator's fallback on the
    unclassified text is not taken: the events of an entry are the
    Chinese event when the CJK bucket is not empty, followed by the
    English event when the Latin bucket is not empty. *)
Theorem parsed_entries_have_a_bucket (content : pystr) (entries : list entry) :
  parse_srt_text content = Some entries ->
  Forall (fun e =>
            let s := format_ass_time (e_start e) in
            let en := format_ass_time (e_end e) in
            let cjk := (split_cjk_latin (e_text e)).1 in
            let lat := (split_cjk_latin (e_text e)).2 in
            (cjk <> [] \/ lat <> [])
            /\ entry_events e
               = (if nonempty cjk
                  then [dialogue s en "Chinese" (ass_breaks cjk)] else [])
                 ++ (if nonempty lat
                     then [dialogue s en "English" (ass_breaks lat)] else []))
         entries.
Proof.
  intros H. apply Forall_forall. intros e He.
  destruct (parsed_entry_origin _ _ _ H He) as (b & _ & Hb).
  assert (Hs : is_Some (block_entry b)) by (rewrite Hb; eexists; reflexivity).
  apply block_entry_kept in Hs as [_ Hne].
  pose proof (block_text_stripped b) as Hst.
  rewrite <- (block_entry_text _ _ Hb) in Hne, Hst.
  assert (Hb2 : (split_cjk_latin (e_text e)).1 <> []
                \/ (split_cjk_latin (e_text e)).2 <> []).
  { apply buckets_not_both_empty. unfold Py.strip in *. now rewrite Hst. }
  cbv zeta. split; [exact Hb2|].
  rewrite entry_events_cases.
  destruct (split_cjk_latin (e_text e)) as [[|c cjk] [|l lat]];
    cbn in Hb2 |- *; try reflexivity.
  destruct Hb2; contradiction.
Qed.

End ParsedEntries.

Lemma parsed_text_stripped_witness :
  Forall (fun e => e_text e <> []
                   /\ Py.strip (e_text e) = e_text e
                   /\ (forall c, head (e_text e) = Some c -> Py.isspace c = false)
                   /\ (forall c, last (e_text e) = Some c -> Py.isspace c = false))
         [Entry 1 (5 # 2) (lit "Hello")].
Proof. apply (parsed_text_stripped demo_srt). vm_compute. reflexivity. Defined.

Lemma parsed_entries_have_a_bucket_witness :
  Forall (fun e =>
            let s := format_ass_time (e_start e) in
            let en := format_ass_time (e_end e) in
            let cjk := (split_cjk_latin (e_text e)).1 in
            let lat := (split_cjk_latin (e_text e)).2 in
            (cjk <> [] \/ lat <> [])
            /\ entry_events e
               = (if nonempty cjk
                  then [dialogue s en "Chinese" (ass_breaks cjk)] else [])
                 ++ (if nonempty lat
                     then [dialogue s en "English" (ass_breaks lat)] else []))
         [Entry 1 (5 # 2) (lit "Hello")].
Proof. apply (parsed_entries_have_a_bucket demo_srt). vm_compute. reflexivity. Defined.

(** ** Line endings and byte-order marks *)

Section Tolerance.

Lemma replace_absent c new s :
  Forall (fun x => x <> c) s -> Py.replace [c] new s = s.
Proof.
  unfold Py.replace. induction 1 as [|x s Hx Hs IH]; [reflexivity|].
  cbn [Py.replace_from Py.startswith].
  destruct (Z.eqb_spec c x) as [->|_]; [contradiction|]. cbn [andb].
  now rewrite IH.
Qed.

Lemma replace_pair_absent a b new s :
  Forall (fun x => x <> a) s -> Py.replace [a; b] new s = s.
Proof.
  unfold Py.replace. induction 1 as [|x s Hx Hs IH]; [reflexivity|].
  cbn [Py.replace_from Py.startswith].
  destruct (Z.eqb_spec a x) as [->|_]; [contradiction|]. cbn [andb].
  now rewrite IH.
Qed.

Lemma replace_crlf_to_crlf s :
  Forall (fun x => x <> CR) s -> Py.replace [CR; NL] [NL] (to_crlf s) = s.
Proof.
  unfold Py.replace. induction 1 as [|x s Hx Hs IH]; [reflexivity|].
  cbn [to_crlf flat_map]. destruct (Z.eqb_spec x NL) as [->|Hn].
  - cbn. f_equal. exact IH.
  - cbn [app Py.replace_from Py.startswith].
    destruct (Z.eqb_spec CR x) as [<-|_]; [contradiction|]. cbn [andb].
    f_equal. exact IH.
Qed.

Lemma replace_cr_to_cr s :
  Forall (fun x => x <> CR) s -> Py.replace [CR] [NL] (to_cr s) = s.
Proof.
  unfold Py.replace. induction 1 as [|x s Hx Hs IH]; [reflexivity|].
  cbn [to_cr map]. destruct (Z.eqb_spec x NL) as [->|Hn].
  - cbn. f_equal. exact IH.
  - cbn [Py.replace_from Py.startswith].
    destruct (Z.eqb_spec CR x) as [<-|_]; [contradiction|]. cbn [andb].
    f_equal. exact IH.
Qed.

Lemma replace_crlf_without_lf s :
  Forall (fun x => x <> NL) s -> Py.replace [CR; NL] [NL] s = s.
Proof.
  unfold Py.replace. induction 1 as [|x s Hx Hs IH]; [reflexivity|].
  cbn [Py.replace_from Py.startswith].
  destruct (Z.eqb_spec CR x) as [<-|_]; cbn [andb]; [|now rewrite IH].
  destruct s as [|y s]; [reflexivity|].
  inversion Hs as [|? ? Hy _]; subst.
  destruct (Z.eqb_spec NL y) as [<-|_]; [contradiction|]. cbn [andb].
  now rewrite IH.
Qed.

Lemma to_crlf_keeps (c : Z) s :
  c <> CR -> Forall (fun x => x <> c) s -> Forall (fun x => x <> c) (to_crlf s).
Proof.
  intros Hc. induction 1 as [|x s Hx Hs IH]; [constructor|].
  cbn [to_crlf flat_map]. destruct (Z.eqb_spec x NL) as [->|_]; cbn;
    repeat constructor; auto.
Qed.

Lemma to_cr_keeps (c : Z) s :
  c <> CR -> Forall (fun x => x <> c) s -> Forall (fun x => x <> c) (to_cr s).
Proof.
  intros Hc. induction 1 as [|x s Hx Hs IH]; [constructor|].
  cbn [to_cr map]. destruct (x =? NL); constructor; auto.
Qed.

Lemma to_cr_without_lf s : Forall (fun x => x <> NL) (to_cr s).
Proof.
  induction s as [|x s IH]; [constructor|]. cbn [to_cr map].
  destruct (Z.eqb_spec x NL); constructor; auto; discriminate.
Qed.

Lemma normalize_plain s :
  Forall (fun x => x <> CR) s -> Forall (fun x => x <> BOM) s ->
  normalize_newlines s = s.
Proof.
  intros H1 H2. unfold normalize_newlines.
  now rewrite (replace_absent BOM), (replace_pair_absent CR NL), (replace_absent CR).
Qed.

(** X4. A subtitle text written with CR LF line endings, or with bare
    CR line endings, or with a byte-order mark in front, parses to the
    same entries as the text with plain line feeds. *)
Theorem parse_srt_line_endings (content : pystr) :
  Forall (fun c => c <> CR /\ c <> BOM) content ->
  parse_srt_text (to_crlf content) = parse_srt_text content
  /\ parse_srt_text (to_cr content) = parse_srt_text content
  /\ parse_srt_text (BOM :: content) = parse_srt_text content.
Proof.
  intros H.
  assert (H1 : Forall (fun x => x <> CR) content)
    by (eapply Forall_impl; [exact H|]; now intros ? [? _]).
  assert (H2 : Forall (fun x => x <> BOM) content)
    by (eapply Forall_impl; [exact H|]; now intros ? [_ ?]).
  assert (E0 : normalize_newlines content = content) by now apply normalize_plain.
  assert (E1 : normalize_newlines (to_crlf content) = content).
  { unfold normalize_newlines.
    rewrite (replace_absent BOM) by (apply to_crlf_keeps; [discriminate|exact H2]).
    rewrite replace_crlf_to_crlf by exact H1.
    now apply replace_absent. }
  assert (E2 : normalize_newlines (to_cr content) = content).
  { unfold normalize_newlines.
    rewrite (replace_absent BOM) by (apply to_cr_keeps; [discriminate|exact H2]).
    rewrite replace_crlf_without_lf by apply to_cr_without_lf.
    now apply replace_cr_to_cr. }
  assert (E3 : normalize_newlines (BOM :: content) = content).
  { unfold normalize_newlines.
    assert (E : Py.replace [BOM] [] (BOM :: content) = content).
    { unfold Py.replace. cbn. fold (Py.replace [BOM] [] content).
      now apply replace_absent. }
    rewrite E. now rewrite (replace_pair_absent CR NL), (replace_absent CR). }
  unfold parse_srt_text, srt_blocks. rewrite E0, E1, E2, E3. auto.
Qed.

Lemma parse_srt_line_endings_witness :
  parse_srt_text (to_crlf demo_srt) = parse_srt_text demo_srt
  /\ parse_srt_text (to_cr demo_srt) = parse_srt_text demo_srt
  /\ parse_srt_text (BOM :: demo_srt) = parse_srt_text demo_srt.
Proof.
  apply parse_srt_line_endings. unfold demo_srt.
  repeat (apply Forall_cons; split; [split; discriminate|]). apply Forall_nil.
  constructor.
Defined.

End Tolerance.

(** ** The file name, once more *)

Section SanitizeAgain.

Lemma replace_unsafe_id s :
  Forall (fun c => is_unsafe c = false) s -> replace_unsafe s = s.
Proof.
  induction 1 as [|c s Hc Hs IH]; [reflexivity|].
  change (replace_unsafe (c :: s))
    with ((if is_unsafe c then 95 else c) :: replace_unsafe s).
  now rewrite Hc, IH.
Qed.

Lemma collapse_id s : single_underscores s -> collapse_underscores s = s.
Proof.
  induction s as [|c s IH]; intros H; [reflexivity|]. cbn [collapse_underscores].
  assert (Hs : single_underscores s).
  { intros l1 l2 E. apply (H (c :: l1) l2). cbn. now f_equal. }
  destruct (is_underscore c) eqn:Ec; cbn [andb]; [|now rewrite IH].
  destruct s as [|c' s]; [reflexivity|].
  destruct (is_underscore c') eqn:Ec'; [|now rewrite IH].
  exfalso. apply Z.eqb_eq in Ec, Ec'. subst. now apply (H [] s).
Qed.

Lemma strip_by_id p s :
  (forall c, head s = Some c -> p c = false) ->
  (forall c, last s = Some c -> p c = false) ->
  Py.strip_by p s = s.
Proof.
  intros Hh Hl.
  assert (L : forall t, (forall c, head t = Some c -> p c = false) ->
                        Py.lstrip_by p t = t).
  { intros [|c t] H; [reflexivity|]. cbn. now rewrite (H c eq_refl). }
  unfold Py.strip_by, Py.rstrip_by. rewrite (L s Hh), L; [apply rev_involutive|].
  intros c Hc. apply Hl. rewrite <- Hc.
  rewrite <- (last_rev_head (rev s)), rev_involutive. reflexivity.
Qed.

(** X5. Sanitizing is idempotent: a name that has been sanitized is
    left as it is by a second pass. *)
Theorem safe_name_idempotent (ep_name : pystr) :
  safe_name (safe_name ep_name) = safe_name ep_name.
Proof.
  rewrite (safe_name_refines ep_name). unfold sanitize_spec.
  set (u := collapse_underscores (replace_unsafe ep_name)).
  pose proof (strip_Forall (fun c => is_unsafe c = false) is_underscore u
                (collapse_Forall _ _ (replace_unsafe_safe ep_name))) as HF.
  pose proof (strip_single is_underscore u (collapse_single _)) as HS.
  pose proof (strip_head is_underscore u) as HH.
  pose proof (strip_last is_underscore u) as HL.
  destruct (Py.strip_by is_underscore u) as [|c t] eqn:E; [reflexivity|].
  rewrite safe_name_refines. unfold sanitize_spec.
  rewrite (replace_unsafe_id _ HF), (collapse_id _ HS), (strip_by_id _ _ HH HL).
  reflexivity.
Qed.

End SanitizeAgain.

(** ** What a job launches *)

Section Launches.
Variable env : environment.

Lemma launches_weaken {A} n n' (Q Q' : A -> Prop) m :
  (n <= n')%nat -> (forall a, Q a -> Q' a) -> launches n Q m -> launches n' Q' m.
Proof.
  intros Hn HQ H w. destruct (H w) as [(l & E & L & F) HV]. split.
  - exists l. repeat split; auto. lia.
  - intros a Ha. auto.
Qed.

Lemma launches_ret {A} (a : A) (Q : A -> Prop) : Q a -> launches 0 Q (ret a).
Proof.
  intros H w. split.
  - exists []. cbn. rewrite app_nil_r. auto.
  - intros a' [= <-]. exact H.
Qed.

Lemma launches_ret_le {A} n (a : A) (Q : A -> Prop) : Q a -> launches n Q (ret a).
Proof.
  intros H. apply (launches_weaken 0 n Q Q); [lia|auto|now apply launches_ret].
Qed.

Lemma launches_raise {A} (e : exn) (Q : A -> Prop) : launches 0 Q (raise e).
Proof.
  intros w. split.
  - exists []. cbn. rewrite app_nil_r. auto.
  - intros a' [=].
Qed.

Lemma launches_bind {A B} n k (Q : A -> Prop) (P : B -> Prop) (m : M A) f :
  launches n Q m -> (forall a, Q a -> launches k P (f a)) ->
  launches (n + k) P (bind m f).
Proof.
  intros Hm Hf w. unfold bind.
  destruct (Hm w) as [(l & E & L & F) HV].
  destruct (m w) as [[a|e] w1]; cbn [fst snd] in *.
  - destruct (Hf a (HV a eq_refl) w1) as [(l2 & E2 & L2 & F2) HV2]. split.
    + exists (l ++ l2). rewrite E2, E, <- app_assoc, length_app.
      repeat split; [lia|]. apply Forall_app. auto.
    + exact HV2.
  - split; [|intros a [=]]. exists l. repeat split; auto. lia.
Qed.

Lemma launches_try_except {A} n k (Q : A -> Prop) (m : M A) h :
  launches n Q m -> (forall e, launches k Q (h e)) ->
  launches (n + k) Q (try_except m h).
Proof.
  intros Hm Hh w. unfold try_except.
  destruct (Hm w) as [(l & E & L & F) HV].
  destruct (m w) as [[a|e] w1]; cbn [fst snd] in *.
  - split; [|exact HV]. exists l. repeat split; auto. lia.
  - destruct (catchable e).
    + destruct (Hh e w1) as [(l2 & E2 & L2 & F2) HV2]. split; [|exact HV2].
      exists (l ++ l2). rewrite E2, E, <- app_assoc, length_app.
      repeat split; [lia|]. apply Forall_app. auto.
    + split; [|intros a [=]]. exists l. repeat split; auto. lia.
Qed.

Lemma launches_try_finally {A} n k (Q : A -> Prop) (m : M A) (f : M unit) :
  launches n Q m -> launches k (fun _ => True) f ->
  launches (n + k) Q (try_finally m f).
Proof.
  intros Hm Hf w. unfold try_finally.
  destruct (Hm w) as [(l & E & L & F) HV].
  destruct (m w) as [r w1]; cbn [fst snd] in *.
  destruct (Hf w1) as [(l2 & E2 & L2 & F2) _]. split; [|exact HV].
  exists (l ++ l2). rewrite E2, E, <- app_assoc, length_app.
  repeat split; [lia|]. apply Forall_app. auto.
Qed.

(** A computation that leaves the record of launches as it is. *)
Lemma launches_silent {A} (m : M A) :
  (forall w, procs (m w).2 = procs w) -> launches 0 (fun _ => True) m.
Proof.
  intros H w. split; [|auto]. exists []. rewrite app_nil_r. auto.
Qed.

Ltac silent := apply launches_silent; intros w; try reflexivity.

Lemma launches_check_fault op : launches 0 (fun _ => True) (check_fault env op).
Proof.
  silent. unfold check_fault, bind, get_fs.
  destruct (env_fault env op (w_fs w)); reflexivity.
Qed.

Lemma launches_write_file p data :
  launches 0 (fun _ => True) (write_file env p data).
Proof.
  silent. unfold write_file, bind, check_fault, bind, get_fs.
  destruct (env_fault env _ (w_fs w)); reflexivity.
Qed.

Lemma launches_read_file p : launches 0 (fun _ => True) (read_file env p).
Proof.
  silent. unfold read_file, bind, check_fault, bind, get_fs.
  destruct (env_fault env _ (w_fs w)); cbn; [reflexivity|].
  destruct (files (w_fs w) !! p); reflexivity.
Qed.

Lemma launches_getsize p : launches 0 (fun _ => True) (getsize env p).
Proof.
  silent. unfold getsize, bind, check_fault, bind, get_fs.
  destruct (env_fault env _ (w_fs w)); cbn; [reflexivity|].
  destruct (files (w_fs w) !! p); reflexivity.
Qed.

Lemma launches_os_remove p : launches 0 (fun _ => True) (os_remove env p).
Proof.
  silent. unfold os_remove, bind, check_fault, bind, get_fs.
  destruct (env_fault env _ (w_fs w)); cbn; [reflexivity|].
  destruct (files (w_fs w) !! p); reflexivity.
Qed.

Lemma launches_path_exists p : launches 0 (fun _ => True) (path_exists p).
Proof. silent. Qed.

Lemma launches_mkdtemp : launches 0 (fun _ => True) (mkdtemp env).
Proof.
  silent. unfold mkdtemp, bind, get_fs.
  destruct (env_mkdtemp env (w_fs w)); reflexivity.
Qed.

Lemma launches_rmtree d : launches 0 (fun _ => True) (rmtree env d).
Proof. silent. Qed.

Lemma launches_subprocess_run cmd timeout :
  tool_command cmd -> launches 1 (fun _ => True) (subprocess_run env cmd timeout).
Proof.
  intros H w. split; [|auto]. unfold subprocess_run.
  destruct (env_run env cmd timeout (w_fs w)) as [r fs']. cbn.
  exists [cmd]. repeat split; auto.
Qed.

Lemma ffmpeg_tool args : tool_command (lit "ffmpeg" :: args).
Proof. right. reflexivity. Qed.

Lemma ffprobe_tool args : tool_command (lit "ffprobe" :: args).
Proof. left. reflexivity. Qed.

(** Composition with trivial postconditions. *)
Lemma launches_seq {A B} n k (m : M A) (f : A -> M B) :
  launches n (fun _ => True) m -> (forall a, launches k (fun _ => True) (f a)) ->
  launches (n + k) (fun _ => True) (bind m f).
Proof. intros Hm Hf. eapply launches_bind; [exact Hm|]. intros a _. apply Hf. Qed.

Lemma launches_read_text p enc : launches 0 (fun _ => True) (read_text env p enc).
Proof.
  unfold read_text. apply (launches_seq 0 0); [apply launches_read_file|].
  intros data. destruct (env_decode env enc data);
    [now apply launches_ret|apply launches_raise].
Qed.

Lemma launches_read_first encs p : launches 0 (fun _ => True) (read_first env encs p).
Proof.
  induction encs as [|enc rest IH]; cbn [read_first]; [now apply launches_ret|].
  apply (launches_seq 0 0).
  - apply (launches_try_except 0 0).
    + apply (launches_seq 0 0); [apply launches_read_text|].
      intros t. now apply launches_ret.
    + intros e. now apply launches_ret.
  - intros [t|]; [now apply launches_ret|exact IH].
Qed.

Lemma launches_parse_srt p : launches 0 (fun _ => True) (parse_srt env p).
Proof.
  unfold parse_srt. apply (launches_seq 0 0); [apply launches_read_first|].
  intros content. apply (launches_seq 0 0).
  - destruct content as [[|c t]|]; try (now apply launches_ret);
      (apply (launches_seq 0 0); [apply launches_read_file|];
       intros data; now apply launches_ret).
  - intros c. destruct (parse_srt_text c);
      [now apply launches_ret|apply launches_raise].
Qed.

Lemma launches_write_text p t : launches 0 (fun _ => True) (write_text env p t).
Proof. apply launches_write_file. Qed.

Lemma launches_create_ass s a w h mv :
  launches 0 (fun _ => True) (create_ass env s a w h mv).
Proof.
  unfold create_ass. apply (launches_seq 0 0); [apply launches_parse_srt|].
  intros entries. destruct (ass_script entries w h mv) as [[text n]|];
    [|apply launches_raise].
  apply (launches_seq 0 0); [apply launches_write_text|].
  intros _. now apply launches_ret.
Qed.

Lemma launches_clean_srt s dst : launches 0 (fun _ => True) (clean_srt env s dst).
Proof.
  unfold clean_srt. apply (launches_seq 0 0); [apply launches_parse_srt|].
  intros entries. apply (launches_seq 0 0); [apply launches_write_text|].
  intros _. now apply launches_ret.
Qed.

Lemma launches_get_video_info p :
  launches 1 (fun _ => True) (get_video_info env p).
Proof.
  unfold get_video_info. apply (launches_seq 1 0).
  - apply launches_subprocess_run, ffprobe_tool.
  - intros [c|]; [|now apply launches_ret].
    destruct (returncode c =? 0); now apply launches_ret.
Qed.

Lemma launches_check_filters :
  launches 1 (fun _ => True) (check_filters env).
Proof.
  unfold check_filters. apply (launches_seq 1 0).
  - apply launches_subprocess_run, ffmpeg_tool.
  - intros [c|]; now apply launches_ret.
Qed.

Lemma launches_run_ff args timeout :
  launches 1 (fun _ => True) (run_ff env (lit "ffmpeg" :: args) timeout).
Proof. apply launches_subprocess_run, ffmpeg_tool. Qed.

Lemma launches_good r p : launches 0 (fun _ => True) (good env r p).
Proof.
  unfold good. destruct r as [r|]; [|now apply launches_ret].
  destruct (returncode r =? 0); [|now apply launches_ret].
  apply (launches_seq 0 0); [apply launches_path_exists|].
  intros [|]; [|now apply launches_ret].
  apply (launches_seq 0 0); [apply launches_getsize|].
  intros sz. now apply launches_ret.
Qed.

Lemma launches_burn_ass v s o x d i mv :
  launches 1 (fun _ => True) (burn_ass env v s o x d i mv).
Proof.
  unfold burn_ass. apply (launches_seq 0 1); [apply launches_create_ass|].
  intros n. destruct (n =? 0); [|apply launches_run_ff].
  now apply launches_ret_le.
Qed.

Lemma launches_burn_subtitles v s o x d i mv :
  launches 1 (fun _ => True) (burn_subtitles env v s o x d i mv).
Proof. unfold burn_subtitles. apply launches_run_ff. Qed.

Lemma launches_burn_ffmpeg_conv v s o x d i mv :
  launches 2 (fun _ => True) (burn_ffmpeg_conv env v s o x d i mv).
Proof.
  unfold burn_ffmpeg_conv. apply (launches_seq 1 1); [apply launches_run_ff|].
  intros r. apply (launches_seq 0 1).
  - destruct r as [c|]; [|now apply launches_ret].
    destruct (returncode c =? 0); [apply launches_path_exists|now apply launches_ret].
  - intros ok. destruct (negb ok); [|apply launches_run_ff].
    now apply launches_ret_le.
Qed.

Lemma launches_soft_mkv v s o x :
  launches 1 (fun _ => True) (soft_mkv env v s o x).
Proof.
  unfold soft_mkv. apply (launches_seq 1 0); [apply launches_run_ff|].
  intros r. now apply launches_ret.
Qed.

Lemma launches_soft_mp4 v s o x d :
  launches 1 (fun _ => True) (soft_mp4 env v s o x d).
Proof.
  unfold soft_mp4. apply (launches_seq 0 1); [apply launches_clean_srt|].
  intros _. apply launches_run_ff.
Qed.

Section Job.
Variables video_bytes srt_bytes : bytes.
Variables video_name srt_name ep_name merge_type : pystr.
Variable margin_v_pct : Q.
Variable log_fn : option (pystr -> M unit).
Hypothesis log_quiet : quiet_log log_fn.

Lemma launches_log msg : launches 0 (fun _ => True) (log log_fn msg).
Proof.
  unfold log. destruct log_fn as [f|] eqn:E; [|now apply launches_ret].
  apply launches_silent. intros w. now apply (log_quiet f).
Qed.

Lemma launches_hard_step mname (mfn : method) k v s o x d i last_err :
  launches k (fun _ => True) (mfn v s o x d i margin_v_pct) ->
  launches k (fun _ => True)
    (try_except
       (let* result := mfn v s o x d i margin_v_pct in
        let* g := good env result o in
        if g then
          let* _ := log log_fn (lit "Success: " ++ mname) in
          ret (true, last_err)
        else
          let last_err := stderr_tail result "failed silently" in
          let* ex := path_exists o in
          let* _ := (if ex then os_remove env o else ret tt) in
          ret (false, last_err))
       (fun ex =>
          let* _ := log log_fn (lit "Error in " ++ mname ++ lit ": "
                                ++ exn_text ex) in
          ret (false, exn_text ex))).
Proof.
  intros Hm. replace k with (k + 0 + 0)%nat by lia.
  apply launches_try_except.
  - apply launches_seq; [exact Hm|]. intros result.
    apply (launches_seq 0 0); [apply launches_good|].
    intros [|].
    + apply (launches_seq 0 0); [apply launches_log|].
      intros _. now apply launches_ret.
    + apply (launches_seq 0 0); [apply launches_path_exists|].
      intros ex. apply (launches_seq 0 0).
      * destruct ex; [apply launches_os_remove|now apply launches_ret].
      * intros _. now apply launches_ret.
  - intros e. apply (launches_seq 0 0); [apply launches_log|].
    intros _. now apply launches_ret.
Qed.

Lemma launches_hard_loop v s o x d i last_err :
  launches 4 (fun _ => True)
    (hard_loop env margin_v_pct log_fn (hard_methods env) v s o x d i last_err).
Proof.
  unfold hard_methods. cbn [hard_loop].
  apply (launches_seq 0 4); [apply launches_log|]. intros _.
  apply (launches_seq 1 3); [apply launches_hard_step, launches_burn_ass|].
  intros st1. destruct st1.1;
    [now apply launches_ret_le|].
  apply (launches_seq 0 3); [apply launches_log|]. intros _.
  apply (launches_seq 1 2); [apply launches_hard_step, launches_burn_subtitles|].
  intros st2. destruct st2.1;
    [now apply launches_ret_le|].
  apply (launches_seq 0 2); [apply launches_log|]. intros _.
  apply (launches_seq 2 0); [apply launches_hard_step, launches_burn_ffmpeg_conv|].
  intros st3. destruct st3.1; now apply launches_ret.
Qed.

Lemma launches_finalize p n :
  launches 0 (fun _ => True) (finalize env log_fn p n).
Proof.
  unfold finalize. apply (launches_seq 0 0); [apply launches_read_file|].
  intros data. apply (launches_seq 0 0); [apply launches_log|].
  intros _. now apply launches_ret.
Qed.

Lemma launches_hard_branch d v s x safe i flt :
  launches 4 (fun _ => True)
    (hard_branch env margin_v_pct log_fn d v s x safe i flt).
Proof.
  unfold hard_branch. destruct (f_ass flt || f_subtitles flt).
  - cbn [hard_methods].
    change [(lit "Dual-style ASS burn", burn_ass env);
            (lit "Subtitles filter", burn_subtitles env);
            (lit "FFmpeg ASS convert", burn_ffmpeg_conv env)]
      with (hard_methods env).
    apply (launches_seq 4 0); [apply launches_hard_loop|].
    intros st. destruct (negb st.1); [now apply launches_ret|apply launches_finalize].
  - now apply launches_ret_le.
Qed.

Lemma launches_soft_attempt k att name done dflt st :
  launches k (fun _ => True) att ->
  launches k (fun _ => True) (soft_attempt env log_fn att name done dflt st).
Proof.
  intros Ha. unfold soft_attempt. destruct st as [[[op on] su] le].
  replace k with (k + 0 + 0)%nat by lia. apply launches_try_except.
  - apply launches_seq; [exact Ha|]. intros rp.
    apply (launches_seq 0 0); [apply launches_good|].
    intros [|]; [|now apply launches_ret].
    apply (launches_try_except 0 0).
    + apply (launches_seq 0 0); [apply launches_log|]. intros _.
      now apply launches_ret.
    + intros e. now apply launches_ret.
  - intros e. now apply launches_ret.
Qed.

Lemma launches_soft_branch d v s x safe :
  launches 2 (fun _ => True) (soft_branch env log_fn d v s x safe).
Proof.
  unfold soft_branch.
  apply (launches_seq 0 2); [apply launches_log|]. intros _.
  apply (launches_seq 1 1); [apply launches_soft_attempt, launches_soft_mkv|].
  intros st1. apply (launches_seq 1 0).
  - destruct (negb st1.1.2);
      [|now apply launches_ret_le].
    replace 1%nat with (0 + 1)%nat by lia.
    apply launches_seq; [apply launches_log|]. intros _.
    apply launches_soft_attempt. replace 1%nat with (1 + 0)%nat by lia.
    apply launches_seq; [apply launches_soft_mp4|]. intros r.
    now apply launches_ret.
  - intros [[[[op|] [on|]] [|]] le];
      try apply launches_finalize; now apply launches_ret.
Qed.

Lemma launches_body d :
  launches (if str_eqb merge_type (lit "hard") then 6 else 4) (fun _ => True)
    (episode_body env video_bytes video_name srt_bytes srt_name ep_name
                  merge_type margin_v_pct log_fn d).
Proof.
  set (n := if str_eqb merge_type (lit "hard") then 4%nat else 2%nat).
  replace (if str_eqb merge_type (lit "hard") then 6 else 4)%nat
    with (0 + (0 + (0 + (0 + (0 + (0 + (1 + (0 + (1 + n)))))))))%nat
    by (subst n; destruct (str_eqb merge_type (lit "hard")); reflexivity).
  unfold episode_body.
  apply launches_seq; [apply launches_write_file|]. intros _.
  apply launches_seq; [apply launches_write_file|]. intros _.
  apply launches_seq; [apply launches_getsize|]. intros vsize.
  destruct (vsize <? 1000);
    [now apply launches_ret_le|].
  apply launches_seq; [apply launches_getsize|]. intros ssize.
  destruct (ssize <? 5);
    [now apply launches_ret_le|].
  apply launches_seq; [apply launches_parse_srt|]. intros [|e entries];
    [now apply launches_ret_le|].
  apply launches_seq; [apply launches_log|]. intros _.
  apply launches_seq; [apply launches_get_video_info|]. intros info.
  apply launches_seq; [apply launches_log|]. intros _.
  apply launches_seq; [apply launches_check_filters|]. intros flt.
  subst n. destruct (str_eqb merge_type (lit "hard"));
    [apply launches_hard_branch|apply launches_soft_branch].
Qed.

(** X6. With a log sink that launches nothing, a job launches at most
    six external commands in hard mode and at most four otherwise,
    each of them [ffprobe] or [ffmpeg], whatever the job comes to. *)
Theorem job_launches_bounded (w : world) :
  exists l,
    procs (process_episode env video_bytes video_name srt_bytes srt_name
             ep_name merge_type margin_v_pct log_fn w).2
    = procs w ++ l
    /\ (length l <= if str_eqb merge_type (lit "hard") then 6 else 4)%nat
    /\ Forall tool_command l.
Proof.
  assert (H : launches (if str_eqb merge_type (lit "hard") then 6 else 4)
                (fun _ => True)
                (process_episode env video_bytes video_name srt_bytes srt_name
                   ep_name merge_type margin_v_pct log_fn)).
  { set (n := if str_eqb merge_type (lit "hard") then 6%nat else 4%nat).
    replace n with (0 + (n + 0 + 0))%nat by lia.
    unfold process_episode. apply launches_seq; [apply launches_mkdtemp|].
    intros d. apply launches_try_finally; [|apply launches_rmtree].
    apply launches_try_except; [apply launches_body|].
    intros e. now apply launches_ret. }
  destruct (H w) as [Hl _]. exact Hl.
Qed.

End Job.
End Launches.

Lemma job_launches_bounded_witness :
  exists l,
    procs (demo_job demo_env demo_video demo_srt None).2 = procs demo_world ++ l
    /\ (length l <= 6)%nat /\ Forall tool_command l.
Proof.
  apply (job_launches_bounded demo_env demo_video demo_srt (lit "ep.mp4")
           (lit "ep.srt") (lit "ep") (lit "hard") CHINESE_MARGIN_V_PCT None).
  intros f Hf. discriminate Hf.
Defined.

(** ** What a success carries *)

Section Success.
Variable env : environment.

Lemma bind_Ok {A B} (m : M A) (k : A -> M B) w b w' :
  bind m k w = (Ok b, w') ->
  exists a w1, m w = (Ok a, w1) /\ k a w1 = (Ok b, w').
Proof.
  unfold bind. destruct (m w) as [[a|e] w1]; [|discriminate]. eauto.
Qed.

Lemma try_except_Ok {A} (m : M A) h w a w' :
  try_except m h w = (Ok a, w') ->
  m w = (Ok a, w')
  \/ exists e w1, m w = (Raise e, w1) /\ catchable e = true
                  /\ h e w1 = (Ok a, w').
Proof.
  unfold try_except. destruct (m w) as [[a'|e] w1]; [now left|].
  destruct (catchable e) eqn:E; [|discriminate]. right. eauto.
Qed.

Lemma ret_Ok {A} (a b : A) w w' : ret a w = (Ok b, w') -> b = a /\ w' = w.
Proof. now intros [= <- <-]. Qed.

Lemma check_fault_Ok op w u w' :
  check_fault env op w = (Ok u, w') -> w' = w.
Proof.
  unfold check_fault, bind, get_fs. destruct (env_fault env op (w_fs w));
    [discriminate|]. now intros [= _ <-].
Qed.

Lemma getsize_Ok p w sz w' :
  getsize env p w = (Ok sz, w') ->
  w' = w /\ exists data, files (w_fs w) !! p = Some data
                         /\ sz = Z.of_nat (length data).
Proof.
  unfold getsize. intros H. apply bind_Ok in H as (u & w1 & H1 & H).
  apply check_fault_Ok in H1 as ->. unfold bind, get_fs in H.
  destruct (files (w_fs w) !! p) as [data|]; [|discriminate].
  injection H as <- <-. eauto.
Qed.

Lemma read_file_Ok p w data w' :
  read_file env p w = (Ok data, w') ->
  w' = w /\ files (w_fs w) !! p = Some data.
Proof.
  unfold read_file. intros H. apply bind_Ok in H as (u & w1 & H1 & H).
  apply check_fault_Ok in H1 as ->. unfold bind, get_fs in H.
  destruct (files (w_fs w) !! p) as [d|]; [|discriminate].
  now injection H as <- <-.
Qed.

(** The acceptance test changes nothing, and accepts only a file of
    more than 10000 bytes. *)
Lemma good_Ok result p w g w' :
  good env result p w = (Ok g, w') ->
  w' = w /\ (g = true -> big_file p w).
Proof.
  unfold good. destruct result as [r|]; [|now intros [= <- <-]].
  destruct (returncode r =? 0); [|now intros [= <- <-]].
  intros H. apply bind_Ok in H as (ex & w1 & H1 & H).
  injection H1 as <- <-.
  destruct (_ || _); [|now injection H as <- <-].
  apply bind_Ok in H as (sz & w2 & H2 & H).
  apply getsize_Ok in H2 as (-> & data & Hd & ->).
  injection H as <- <-. split; [reflexivity|].
  intros Hlt. apply Z.ltb_lt in Hlt. exists data. auto.
Qed.

Section Job.
Variables video_bytes srt_bytes : bytes.
Variables video_name srt_name ep_name merge_type : pystr.
Variable margin_v_pct : Q.
Variable log_fn : option (pystr -> M unit).

Let run_job : M merge_result :=
  process_episode env video_bytes video_name srt_bytes srt_name ep_name
                  merge_type margin_v_pct log_fn.
Let body : pystr -> M merge_result :=
  episode_body env video_bytes video_name srt_bytes srt_name ep_name
               merge_type margin_v_pct log_fn.

(** A success of the job is a success of the body of its [try]. *)
Lemma run_job_success w r :
  (run_job w).1 = Ok r -> success r = true ->
  exists d w1 w2, body d w1 = (Ok r, w2).
Proof.
  subst run_job body. unfold process_episode, bind, mkdtemp, bind, get_fs.
  destruct (env_mkdtemp env (w_fs w)) as [d|e]; [|discriminate].
  cbn. unfold try_finally, try_except.
  destruct (episode_body _ _ _ _ _ _ _ _ _ d _) as [[r'|e] w2] eqn:E.
  - cbn. intros [= <-] _. eauto.
  - destruct (catchable e); cbn; [|discriminate].
    intros [= <-]. discriminate.
Qed.

(** *** The name of the output *)

Lemma post_impl {A} (m : M A) (P Q : A -> Prop) :
  (forall a, P a -> Q a) -> post m P -> post m Q.
Proof. intros H Hm w a w' E. apply H. exact (Hm _ _ _ E). Qed.

Lemma post_bind_with {A B} (m : M A) (k : A -> M B) (Q : A -> Prop)
    (P : B -> Prop) :
  post m Q -> (forall a, Q a -> post (k a) P) -> post (bind m k) P.
Proof.
  intros Hm Hk w b w' H. apply bind_Ok in H as (a & w1 & H1 & H2).
  exact (Hk a (Hm _ _ _ H1) _ _ _ H2).
Qed.

Lemma finalize_name out_path out_name :
  post (finalize env log_fn out_path out_name)
       (fun r => filename r = Some out_name).
Proof.
  unfold finalize. apply post_bind. intros data. apply post_bind. intros _.
  now apply post_ret.
Qed.

Lemma soft_attempt_name att name done dflt st :
  post (soft_attempt env log_fn att name done dflt st)
       (fun st' => st'.1.1.2 = Some name \/ st'.1 = st.1).
Proof.
  unfold soft_attempt. destruct st as [[[op on] su] le].
  apply post_try_except.
  - apply post_bind. intros rp. apply post_bind. intros [|].
    + apply post_try_except; [apply post_bind; intros _|intros e];
        apply post_ret; now left.
    + apply post_ret. now right.
  - intros e. apply post_ret. now right.
Qed.

Lemma body_name d :
  post (body d)
       (fun r => success r = true ->
          filename r = Some (safe_name ep_name ++ lit ".mp4")
          \/ (str_eqb merge_type (lit "hard") = false
              /\ filename r = Some (safe_name ep_name ++ lit ".mkv"))).
Proof.
  subst body. cbv beta. unfold episode_body.
  apply post_bind. intros _. apply post_bind. intros _.
  apply post_bind. intros vsize.
  destruct (vsize <? 1000); [apply post_ret; discriminate|].
  apply post_bind. intros ssize.
  destruct (ssize <? 5); [apply post_ret; discriminate|].
  apply post_bind. intros [|e entries]; [apply post_ret; discriminate|].
  apply post_bind. intros _. apply post_bind. intros info.
  apply post_bind. intros _. apply post_bind. intros flt.
  destruct (str_eqb merge_type (lit "hard")) eqn:Emode.
  - unfold hard_branch. destruct (f_ass flt || f_subtitles flt);
      [|apply post_ret; discriminate].
    cbn [hard_methods]. apply post_bind. intros st.
    destruct (negb st.1); [apply post_ret; discriminate|].
    eapply post_impl; [|apply finalize_name]. intros r Hr _. now left.
  - unfold soft_branch. apply post_bind. intros _.
    eapply post_bind_with; [apply soft_attempt_name|].
    intros st1 H1. cbn in H1.
    eapply post_bind_with with
      (Q := fun st2 : soft_state =>
              st2.1.1.2 = Some (safe_name ep_name ++ lit ".mkv")
              \/ st2.1.1.2 = Some (safe_name ep_name ++ lit ".mp4")
              \/ st2.1 = (None, None, false)).
    + destruct (negb st1.1.2) eqn:Es.
      * apply post_bind. intros _.
        eapply post_impl; [|apply soft_attempt_name].
        intros st2 [H2|H2]; [now right; left|].
        destruct H1 as [H1|H1]; [left|right; right]; now rewrite H2.
      * apply post_ret. destruct H1 as [H1|H1]; [now left|now right; right].
    + intros [[[[op|] [on|]] [|]] le] H2; cbn in H2;
        try (apply post_ret; discriminate).
      eapply post_impl; [|apply finalize_name]. intros r Hr _.
      rewrite Hr. destruct H2 as [[= ->]|[[= ->]|[=]]]; [right|left]; auto.
Qed.

(** X7. A successful job names its output after the sanitized display
    name: with the extension [.mp4], or, outside hard mode only, with
    the extension [.mkv]. *)
Theorem success_file_name (w : world) (r : merge_result) :
  (run_job w).1 = Ok r -> success r = true ->
  filename r = Some (safe_name ep_name ++ lit ".mp4")
  \/ (merge_type <> lit "hard"
      /\ filename r = Some (safe_name ep_name ++ lit ".mkv")).
Proof.
  intros H Hs. destruct (run_job_success _ _ H Hs) as (d & w1 & w2 & Hb).
  destruct (body_name d _ _ _ Hb Hs) as [E|[Em E]]; [now left|right].
  split; [|exact E]. unfold str_eqb in Em.
  now apply bool_decide_eq_false in Em.
Qed.

(** *** The size of the output *)

Hypothesis log_pure : pure_log log_fn.

Lemma log_world msg w r w' : log log_fn msg w = (r, w') -> w' = w.
Proof.
  unfold log. destruct log_fn as [f|] eqn:E.
  - intros H. rewrite <- (log_pure f eq_refl msg w), H. reflexivity.
  - now intros [= _ <-].
Qed.

Lemma log_ret_world {A} msg (a : A) w r w' :
  (let* _ := log log_fn msg in ret a) w = (r, w') -> w' = w.
Proof.
  unfold bind. destruct (log log_fn msg w) as [[u|e] w1] eqn:E;
    apply log_world in E as ->; now intros [= _ <-].
Qed.

Lemma hard_step_accepts mname (mfn : method) v s o x d i last_err w st w' :
  try_except
    (let* result := mfn v s o x d i margin_v_pct in
     let* g := good env result o in
     if g then
       let* _ := log log_fn (lit "Success: " ++ mname) in
       ret (true, last_err)
     else
       let last_err := stderr_tail result "failed silently" in
       let* ex := path_exists o in
       let* _ := (if ex then os_remove env o else ret tt) in
       ret (false, last_err))
    (fun ex =>
       let* _ := log log_fn (lit "Error in " ++ mname ++ lit ": "
                             ++ exn_text ex) in
       ret (false, exn_text ex)) w = (Ok st, w') ->
  st.1 = true -> big_file o w'.
Proof.
  intros H Ht. apply try_except_Ok in H as [H|(e & w1 & _ & _ & H)].
  - apply bind_Ok in H as (result & wa & _ & H).
    apply bind_Ok in H as (g & wb & Hg & H).
    apply good_Ok in Hg as [-> Hbig]. destruct g.
    + apply bind_Ok in H as (u & wc & Hl & H).
      apply log_world in Hl as ->. apply ret_Ok in H as [_ ->]. now apply Hbig.
    + apply bind_Ok in H as (ex & wc & _ & H).
      apply bind_Ok in H as (u & wd & _ & H).
      apply ret_Ok in H as [-> _]. discriminate.
  - apply bind_Ok in H as (u & wc & _ & H).
    apply ret_Ok in H as [-> _]. discriminate.
Qed.

Lemma hard_loop_accepts methods v s o x d i last_err w st w' :
  hard_loop env margin_v_pct log_fn methods v s o x d i last_err w
  = (Ok st, w') ->
  st.1 = true -> big_file o w'.
Proof.
  revert last_err w. induction methods as [|[mname mfn] rest IH];
    intros last_err w H Ht.
  - apply ret_Ok in H as [-> _]. discriminate.
  - cbn [hard_loop] in H.
    apply bind_Ok in H as (u & w1 & _ & H).
    apply bind_Ok in H as (st1 & w2 & Hstep & H).
    destruct st1.1 eqn:E1.
    + apply ret_Ok in H as [-> ->].
      exact (hard_step_accepts _ _ _ _ _ _ _ _ _ _ _ _ Hstep E1).
    + exact (IH _ _ H Ht).
Qed.

Lemma finalize_output p n w r w' :
  finalize env log_fn p n w = (Ok r, w') -> big_file p w ->
  exists data, output_bytes r = Some data /\ 10000 < Z.of_nat (length data).
Proof.
  unfold finalize. intros H (data & Hd & Hlen).
  apply bind_Ok in H as (data' & w1 & Hr & H).
  apply read_file_Ok in Hr as [-> Hr].
  assert (E : Some data' = Some data) by (rewrite <- Hr; exact Hd).
  injection E as ->.
  apply bind_Ok in H as (u & w2 & _ & H).
  apply ret_Ok in H as [-> _]. exists data. auto.
Qed.

Lemma soft_attempt_accepts att name done dflt st w st' w' :
  soft_attempt env log_fn att name done dflt st w = (Ok st', w') ->
  st.1.2 = false -> st'.1.2 = true ->
  exists p, st'.1.1.1 = Some p /\ big_file p w'.
Proof.
  unfold soft_attempt. destruct st as [[[op on] su] le]. cbn [fst snd].
  intros H -> Ht.
  apply try_except_Ok in H as [H|(e & w1 & _ & _ & H)].
  - apply bind_Ok in H as (rp & wa & _ & H).
    apply bind_Ok in H as (g & wb & Hg & H).
    apply good_Ok in Hg as [-> Hbig]. destruct g.
    + exists rp.2.
      apply try_except_Ok in H as [H|(e & w1 & Hl & _ & H)].
      * apply bind_Ok in H as (u & wc & Hl & H).
        apply log_world in Hl as ->. apply ret_Ok in H as [-> ->].
        split; [reflexivity|now apply Hbig].
      * apply log_ret_world in Hl as ->. apply ret_Ok in H as [-> ->].
        split; [reflexivity|now apply Hbig].
    + apply ret_Ok in H as [-> _]. discriminate.
  - apply ret_Ok in H as [-> _]. discriminate.
Qed.

Lemma body_output d w r w' :
  body d w = (Ok r, w') -> success r = true ->
  exists data, output_bytes r = Some data /\ 10000 < Z.of_nat (length data).
Proof.
  subst body. cbv beta. unfold episode_body. intros H Hs.
  apply bind_Ok in H as (? & ? & _ & H).
  apply bind_Ok in H as (? & ? & _ & H).
  apply bind_Ok in H as (vsize & ? & _ & H).
  destruct (vsize <? 1000); [apply ret_Ok in H as [-> _]; discriminate|].
  apply bind_Ok in H as (ssize & ? & _ & H).
  destruct (ssize <? 5); [apply ret_Ok in H as [-> _]; discriminate|].
  apply bind_Ok in H as ([|e entries] & ? & _ & H);
    [apply ret_Ok in H as [-> _]; discriminate|].
  apply bind_Ok in H as (? & ? & _ & H).
  apply bind_Ok in H as (info & ? & _ & H).
  apply bind_Ok in H as (? & ? & _ & H).
  apply bind_Ok in H as (flt & wf & _ & H).
  destruct (str_eqb merge_type (lit "hard")).
  - unfold hard_branch in H. destruct (f_ass flt || f_subtitles flt);
      [|apply ret_Ok in H as [-> _]; discriminate].
    cbn [hard_methods] in H.
    apply bind_Ok in H as (st & w1 & Hloop & H).
    destruct st.1 eqn:E1; cbn [negb] in H;
      [|apply ret_Ok in H as [-> _]; discriminate].
    eapply finalize_output; [exact H|].
    exact (hard_loop_accepts _ _ _ _ _ _ _ _ _ _ _ Hloop E1).
  - unfold soft_branch in H.
    apply bind_Ok in H as (? & w0 & _ & H).
    apply bind_Ok in H as (st1 & w1 & H1 & H).
    apply bind_Ok in H as (st2 & w2 & H2 & H).
    assert (Hst2 : st2.1.2 = true ->
                   exists p, st2.1.1.1 = Some p /\ big_file p w2).
    { destruct (st1.1.2) eqn:E1; cbn [negb] in H2.
      - apply ret_Ok in H2 as [-> ->]. intros _.
        exact (soft_attempt_accepts _ _ _ _ _ _ _ _ H1 eq_refl E1).
      - apply bind_Ok in H2 as (? & w3 & Hl & H2).
        apply log_world in Hl as ->.
        exact (soft_attempt_accepts _ _ _ _ _ _ _ _ H2 E1). }
    destruct st2 as [[[[op|] [on|]] [|]] le]; cbn [fst snd] in Hst2;
      try (apply ret_Ok in H as [-> _]; discriminate).
    destruct (Hst2 eq_refl) as (p & [= <-] & Hbig).
    exact (finalize_output _ _ _ _ _ H Hbig).
Qed.

(** X8. With a log sink that leaves the world alone, a successful job
    returns the bytes of a file that passed the acceptance test: more
    than 10000 of them. *)
Theorem success_output_size (w : world) (r : merge_result) :
  (run_job w).1 = Ok r -> success r = true ->
  exists data, output_bytes r = Some data /\ 10000 < Z.of_nat (length data).
Proof.
  intros H Hs. destruct (run_job_success _ _ H Hs) as (d & w1 & w2 & Hb).
  exact (body_output _ _ _ _ Hb Hs).
Qed.

End Job.
End Success.

Lemma success_file_name_witness :
  filename demo_result = Some (safe_name (lit "ep") ++ lit ".mp4")
  \/ (lit "hard" <> lit "hard"
      /\ filename demo_result = Some (safe_name (lit "ep") ++ lit ".mkv")).
Proof.
  apply (success_file_name demo_env demo_video demo_srt (lit "ep.mp4")
           (lit "ep.srt") (lit "ep") (lit "hard") CHINESE_MARGIN_V_PCT None
           demo_world demo_result).
  - vm_compute. reflexivity.
  - vm_compute. reflexivity.
Defined.

Lemma success_output_size_witness :
  exists data, output_bytes demo_result = Some data
               /\ 10000 < Z.of_nat (length data).
Proof.
  refine (success_output_size demo_env demo_video demo_srt (lit "ep.mp4")
            (lit "ep.srt") (lit "ep") (lit "hard") CHINESE_MARGIN_V_PCT None
            _ demo_world demo_result _ _).
  - intros f Hf. discriminate Hf.
  - vm_compute. reflexivity.
  - vm_compute. reflexivity.
Defined.

(** ** What a job touches *)



Section Confined.
Variable env : environment.
Variable d : pystr.








(** A computation that leaves the file system as it is. *)
Lemma confined_still {A} (m : M A) :
  (forall w, w_fs (m w).2 = w_fs w) -> confined d m.
Proof. intros H w p _. now rewrite H. Qed.

Lemma confined_check_fault op : confined d (check_fault env op).
Proof.
  apply confined_still. intros w. unfold check_fault, bind, get_fs.
  destruct (env_fault env op (w_fs w)); reflexivity.
Qed.













Section Tools.
Hypothesis tools : tools_confined env d.









Section Job.
Variables video_bytes srt_bytes : bytes.
Variables video_name srt_name ep_name merge_type : pystr.
Variable margin_v_pct : Q.
Variable log_fn : option (pystr -> M unit).
Hypothesis log_pure : pure_log log_fn.









End Job.
End Tools.
End Confined.


(** ** Hard mode without a subtitle filter *)

Section Only.
Variable only : list pystr -> Prop.

Lemma launches_only_zero {A} (Q : A -> Prop) m :
  launches 0 Q m -> launches_only only 0 Q m.
Proof.
  intros H w. destruct (H w) as [(l & E & L & _) HV]. split; [|exact HV].
  exists l. repeat split; auto. destruct l; [constructor|cbn in L; lia].
Qed.

Lemma launches_only_weaken {A} n n' (Q : A -> Prop) m :
  (n <= n')%nat -> launches_only only n Q m -> launches_only only n' Q m.
Proof.
  intros Hn H w. destruct (H w) as [(l & E & L & F) HV]. split; [|exact HV].
  exists l. repeat split; auto. lia.
Qed.

Lemma launches_only_bind {A B} n k (Q : A -> Prop) (P : B -> Prop) (m : M A) f :
  launches_only only n Q m -> (forall a, Q a -> launches_only only k P (f a)) ->
  launches_only only (n + k) P (bind m f).
Proof.
  intros Hm Hf w. unfold bind.
  destruct (Hm w) as [(l & E & L & F) HV].
  destruct (m w) as [[a|e] w1]; cbn [fst snd] in *.
  - destruct (Hf a (HV a eq_refl) w1) as [(l2 & E2 & L2 & F2) HV2]. split.
    + exists (l ++ l2). rewrite E2, E, <- app_assoc, length_app.
      repeat split; [lia|]. apply Forall_app. auto.
    + exact HV2.
  - split; [|intros a [=]]. exists l. repeat split; auto. lia.
Qed.

Lemma launches_only_try_except {A} n (Q : A -> Prop) (m : M A) h :
  launches_only only n Q m -> (forall e, launches_only only 0 Q (h e)) ->
  launches_only only n Q (try_except m h).
Proof.
  intros Hm Hh w. unfold try_except.
  destruct (Hm w) as [(l & E & L & F) HV].
  destruct (m w) as [[a|e] w1]; cbn [fst snd] in *.
  - split; [|exact HV]. exists l. repeat split; auto.
  - destruct (catchable e).
    + destruct (Hh e w1) as [(l2 & E2 & L2 & F2) HV2]. split; [|exact HV2].
      exists (l ++ l2). rewrite E2, E, <- app_assoc, length_app.
      repeat split; [lia|]. apply Forall_app. auto.
    + split; [|intros a [=]]. exists l. repeat split; auto.
Qed.

Lemma launches_only_try_finally {A} n (Q : A -> Prop) (m : M A) (f : M unit) :
  launches_only only n Q m -> launches_only only 0 (fun _ => True) f ->
  launches_only only n Q (try_finally m f).
Proof.
  intros Hm Hf w. unfold try_finally.
  destruct (Hm w) as [(l & E & L & F) HV].
  destruct (m w) as [r w1]; cbn [fst snd] in *.
  destruct (Hf w1) as [(l2 & E2 & L2 & F2) _]. split; [|exact HV].
  exists (l ++ l2). rewrite E2, E, <- app_assoc, length_app.
  repeat split; [lia|]. apply Forall_app. auto.
Qed.

Lemma launches_only_subprocess_run env cmd timeout :
  only cmd ->
  launches_only only 1 (fun _ => True) (subprocess_run env cmd timeout).
Proof.
  intros H w. split; [|auto]. unfold subprocess_run.
  destruct (env_run env cmd timeout (w_fs w)) as [r fs']. cbn.
  exists [cmd]. repeat split; auto.
Qed.

End Only.

Section NoFilter.
Variable env : environment.
Hypothesis no_filter : no_video_filter env.

Lemma existsb_no_video (tag : pystr) ls :
  Forall (fun l => Py.contains (lit "V->V") l = false) ls ->
  existsb (fun l => Py.contains tag l && Py.contains (lit "V->V") l) ls = false.
Proof.
  induction 1 as [|l ls Hl _ IH]; [reflexivity|].
  cbn [existsb]. now rewrite Hl, andb_false_r, IH.
Qed.

Lemma probe_is_probe p :
  launches_only probe_or_query 1 (fun _ => True) (get_video_info env p).
Proof.
  unfold get_video_info. change 1%nat with (1 + 0)%nat.
  eapply launches_only_bind.
  - apply launches_only_subprocess_run. left. reflexivity.
  - intros r _. apply launches_only_zero.
    destruct r as [c|]; [|now apply launches_ret].
    destruct (returncode c =? 0); now apply launches_ret.
Qed.

Lemma query_without_filter :
  launches_only probe_or_query 1
    (fun flt => f_ass flt || f_subtitles flt = false) (check_filters env).
Proof.
  unfold check_filters. change 1%nat with (1 + 0)%nat.
  intros w. unfold bind, subprocess_run.
  specialize (no_filter 10 (w_fs w)).
  destruct (env_run env _ 10 (w_fs w)) as [[c|] fs']; cbn [fst snd] in *.
  - split.
    + exists [[lit "ffmpeg"; lit "-filters"]].
      split; [reflexivity|]. split; [cbn; lia|].
      constructor; [now right|constructor].
    + intros flt [= <-]. cbn [f_ass f_subtitles].
      now rewrite !existsb_no_video.
  - split.
    + exists [[lit "ffmpeg"; lit "-filters"]].
      split; [reflexivity|]. split; [cbn; lia|].
      constructor; [now right|constructor].
    + intros flt [= <-]. reflexivity.
Qed.

Section Job.
Variables video_bytes srt_bytes : bytes.
Variables video_name srt_name ep_name : pystr.
Variable margin_v_pct : Q.
Variable log_fn : option (pystr -> M unit).
Hypothesis log_quiet : quiet_log log_fn.

Let fails (r : merge_result) : Prop := success r = false.

Lemma launches_only_then {A B} n k (P : B -> Prop) (m : M A) (f : A -> M B) :
  launches_only probe_or_query n (fun _ => True) m ->
  (forall a, launches_only probe_or_query k P (f a)) ->
  launches_only probe_or_query (n + k) P (bind m f).
Proof.
  intros Hm Hf. eapply launches_only_bind; [exact Hm|]. intros a _. apply Hf.
Qed.

Lemma launches_only_fail n msg :
  launches_only probe_or_query n fails (ret (failure msg)).
Proof.
  apply (launches_only_weaken _ 0); [lia|].
  apply launches_only_zero. now apply launches_ret.
Qed.

Lemma launches_body_no_filter d :
  launches_only probe_or_query 2 fails
    (episode_body env video_bytes video_name srt_bytes srt_name ep_name
                  (lit "hard") margin_v_pct log_fn d).
Proof.
  unfold episode_body.
  apply (launches_only_then 0 2);
    [apply launches_only_zero, launches_write_file|]. intros _.
  apply (launches_only_then 0 2);
    [apply launches_only_zero, launches_write_file|]. intros _.
  apply (launches_only_then 0 2);
    [apply launches_only_zero, launches_getsize|]. intros vsize.
  destruct (vsize <? 1000); [apply launches_only_fail|].
  apply (launches_only_then 0 2);
    [apply launches_only_zero, launches_getsize|]. intros ssize.
  destruct (ssize <? 5); [apply launches_only_fail|].
  apply (launches_only_then 0 2);
    [apply launches_only_zero, launches_parse_srt|]. intros [|e entries];
    [apply launches_only_fail|].
  apply (launches_only_then 0 2);
    [now apply launches_only_zero, launches_log|]. intros _.
  apply (launches_only_then 1 1); [apply probe_is_probe|]. intros info.
  apply (launches_only_then 0 1);
    [now apply launches_only_zero, launches_log|]. intros _.
  apply (launches_only_bind _ 1 0 _ _ _ _ query_without_filter).
  intros flt Hflt. change (str_eqb (lit "hard") (lit "hard")) with true.
  cbv iota. unfold hard_branch. rewrite Hflt. apply launches_only_fail.
Qed.

(** X10. In hard mode, with a log sink that launches nothing, when
    the filter query fails or lists no video filter, the job launches
    at most two commands, each of them an [ffprobe] command or the
    filter query itself, so never an encoder; and what it returns is a
    failure. *)
Theorem hard_mode_needs_a_filter (w : world) :
  (exists l,
      procs (process_episode env video_bytes video_name srt_bytes srt_name
               ep_name (lit "hard") margin_v_pct log_fn w).2 = procs w ++ l
      /\ (length l <= 2)%nat /\ Forall probe_or_query l)
  /\ (forall r,
        (process_episode env video_bytes video_name srt_bytes srt_name
           ep_name (lit "hard") margin_v_pct log_fn w).1 = Ok r ->
        success r = false).
Proof.
  assert (H : launches_only probe_or_query 2 fails
                (process_episode env video_bytes video_name srt_bytes srt_name
                   ep_name (lit "hard") margin_v_pct log_fn)).
  { change 2%nat with (0 + 2)%nat.
    unfold process_episode.
    apply launches_only_then; [apply launches_only_zero, launches_mkdtemp|].
    intros d. apply launches_only_try_finally;
      [|apply launches_only_zero, launches_rmtree].
    apply launches_only_try_except; [apply launches_body_no_filter|].
    intros e. apply launches_only_zero. now apply launches_ret. }
  exact (H w).
Qed.

End Job.
End NoFilter.

Lemma hard_mode_needs_a_filter_witness :
  (exists l,
      procs (demo_job demo_env_no_tools demo_video demo_srt None).2
      = procs demo_world ++ l
      /\ (length l <= 2)%nat /\ Forall probe_or_query l)
  /\ (forall r,
        (demo_job demo_env_no_tools demo_video demo_srt None).1 = Ok r ->
        success r = false).
Proof.
  apply (hard_mode_needs_a_filter demo_env_no_tools).
  - intros timeout fs. exact I.
  - intros f Hf. discriminate Hf.
Defined.

(** ** The time codecs on whole seconds *)

Module WholeSeconds.
Import F64 F64Facts.

Lemma rne_int (z : Z) (y : Q) : (y == inject_Z z)%Q -> rne y = z.
Proof.
  intros E. apply Z.le_antisymm.
  - apply rne_le_int. rewrite E. apply Qle_refl.
  - apply rne_ge_int. rewrite E. apply Qle_refl.
Qed.

Lemma Qred_inject_Z z : Qred (inject_Z z) = inject_Z z.
Proof.
  unfold Qred, inject_Z.
  pose proof (Z.ggcd_gcd z 1) as Hg.
  pose proof (Z.ggcd_correct_divisors z 1) as Hd.
  destruct (Z.ggcd z 1) as [g [aa bb]]. cbn [fst snd] in *.
  rewrite Z.gcd_1_r in Hg. subst g. destruct Hd as [Ha Hb].
  replace aa with z by lia. replace bb with 1 by lia. reflexivity.
Qed.

Lemma reduced_int (q : Q) z : Qred q = q -> (q == inject_Z z)%Q -> q = inject_Z z.
Proof.
  intros Hr E. rewrite <- Hr, <- Qred_inject_Z. now apply Qred_complete.
Qed.

(** An integer below [2^53] is a binary64 value. *)
Lemma round64_int k : 0 <= k < 2 ^ 53 -> round64 (inject_Z k) = inject_Z k.
Proof.
  intros [H0 H53]. apply reduced_int; [apply round64_reduced|].
  unfold round64. cbn [inject_Z Qnum]. destruct k as [|p|p]; [reflexivity| |lia].
  set (x := inject_Z (Z.pos p)). fold x.
  assert (Hx : (0 < x)%Q) by reflexivity.
  rewrite round_pos_eq.
  assert (He : fexp x <= 0).
  { unfold fexp. destruct (ilog2_spec x Hx) as [Hl _].
    assert (ilog2 x < 53); [|lia].
    destruct (Z_lt_le_dec (ilog2 x) 53) as [|Hge]; [assumption|exfalso].
    apply pow2_le in Hge. rewrite (pow2_Z 53) in Hge by lia.
    assert (Hc : (inject_Z (2 ^ 53) <= x)%Q) by (eapply Qle_trans; eauto).
    subst x. rewrite <- Zle_Qle in Hc. lia. }
  assert (Hs : (x * pow2 (- fexp x) == inject_Z (Z.pos p * 2 ^ (- fexp x)))%Q).
  { rewrite inject_Z_mult. apply Qmult_comp; [reflexivity|].
    apply pow2_Z. lia. }
  rewrite (rne_int _ _ Hs), inject_Z_mult.
  assert (Hp : (inject_Z (2 ^ (- fexp x)) == pow2 (- fexp x))%Q)
    by (symmetry; apply pow2_Z; lia).
  rewrite Hp, <- Qmult_assoc, pow2_cancel, Qmult_1_r. reflexivity.
Qed.

Lemma Qle_bool_int a b : Qle_bool (inject_Z a) (inject_Z b) = (a <=? b).
Proof. unfold Qle_bool. cbn. now rewrite !Z.mul_1_r. Qed.

Lemma Qeq_bool_int a b : Qeq_bool (inject_Z a) (inject_Z b) = (a =? b).
Proof. unfold Qeq_bool. cbn. now rewrite !Z.mul_1_r. Qed.

Lemma Qltb_int a b : Qltb (inject_Z a) (inject_Z b) = (a <? b).
Proof. unfold Qltb. rewrite Qle_bool_int. apply eq_sym, Z.ltb_antisym. Qed.

Lemma trunc_int k : trunc (inject_Z k) = k.
Proof.
  unfold trunc. destruct (Qle_bool 0 (inject_Z k)).
  - apply Qfloor_Z.
  - apply Qceiling_Z.
Qed.

Lemma Qfloor_div a b : 0 < b -> Qfloor (inject_Z a / inject_Z b) = a / b.
Proof.
  intros Hb. destruct b as [|p|p]; try lia.
  unfold Qdiv, Qinv, Qmult, Qfloor. cbn. now rewrite Z.mul_1_r.
Qed.

Lemma div_nonneg_bool a b :
  0 <= a -> 0 < b -> Qle_bool 0 (inject_Z a / inject_Z b) = true.
Proof.
  intros Ha Hb. apply Qle_bool_iff. apply Qle_shift_div_l.
  - change 0%Q with (inject_Z 0). rewrite <- Zlt_Qlt. exact Hb.
  - rewrite Qmult_0_l. change 0%Q with (inject_Z 0). rewrite <- Zle_Qle.
    exact Ha.
Qed.

Lemma fmod_int a b :
  0 <= a -> 0 < b -> fmod (inject_Z a) (inject_Z b) = inject_Z (a mod b).
Proof.
  intros Ha Hb. unfold fmod, trunc. rewrite div_nonneg_bool, Qfloor_div by lia.
  rewrite <- (Qred_inject_Z (a mod b)). apply Qred_complete.
  unfold Qminus. rewrite <- inject_Z_mult, <- inject_Z_opp, <- inject_Z_plus.
  rewrite (Z.mod_eq a b) by lia. reflexivity.
Qed.

(** Float floor division and modulo on integers are the integer ones. *)
Lemma float_div_mod_int a b :
  0 <= a < 2 ^ 53 -> 0 < b ->
  float_div_mod (inject_Z a) (inject_Z b)
  = (inject_Z (a / b), inject_Z (a mod b)).
Proof.
  intros [Ha Ha53] Hb. unfold float_div_mod. rewrite fmod_int by lia.
  pose proof (Z.mod_pos_bound a b Hb) as Hr.
  pose proof (Z.div_pos a b Ha Hb) as Hq.
  pose proof (Z.mod_eq a b ltac:(lia)) as Hm.
  assert (Hqa : a / b <= a) by (apply Z.div_le_upper_bound; nia).
  assert (E1 : fsub (inject_Z a) (inject_Z (a mod b)) = inject_Z (b * (a / b))).
  { unfold fsub.
    rewrite (round64_ext _ (inject_Z (a - a mod b))).
    - rewrite round64_int by lia. f_equal. lia.
    - unfold Qminus. now rewrite <- inject_Z_opp, <- inject_Z_plus. }
  assert (E2 : fdiv (inject_Z (b * (a / b))) (inject_Z b) = inject_Z (a / b)).
  { unfold fdiv. rewrite (round64_ext _ (inject_Z (a / b))).
    - apply round64_int. lia.
    - rewrite inject_Z_mult, Qmult_comm. apply Qdiv_mult_l.
      change 0%Q with (inject_Z 0). rewrite inject_Z_injective. lia. }
  rewrite E1, E2.
  change 0%Q with (inject_Z 0). rewrite Qeq_bool_int, !Qltb_int.
  assert (Efl : (if Qeq_bool (inject_Z (a / b)) (inject_Z 0) then inject_Z 0
                 else let fl := floor (inject_Z (a / b)) in
                      if Qltb (1 # 2) (fsub (inject_Z (a / b)) fl)
                      then fadd fl 1 else fl)
                = inject_Z (a / b)).
  { rewrite Qeq_bool_int. destruct (Z.eqb_spec (a / b) 0) as [->|_];
      [reflexivity|].
    cbv zeta. unfold floor. rewrite Qfloor_Z. unfold fsub.
    rewrite (round64_ext _ 0%Q) by (unfold Qminus; apply Qplus_opp_r).
    reflexivity. }
  destruct (Z.eqb_spec (a mod b) 0) as [E0|E0].
  - rewrite E0. exact (f_equal (fun q => (q, inject_Z 0)) Efl).
  - replace (b <? 0) with false by (symmetry; apply Z.ltb_ge; lia).
    replace (a mod b <? 0) with false by (symmetry; apply Z.ltb_ge; lia).
    cbn [eqb negb].
    exact (f_equal (fun q => (q, inject_Z (a mod b))) Efl).
Qed.

Lemma floordiv_int a b :
  0 <= a < 2 ^ 53 -> 0 < b -> floordiv (inject_Z a) (inject_Z b) = inject_Z (a / b).
Proof. intros. unfold floordiv. now rewrite float_div_mod_int. Qed.

Lemma pymod_int a b :
  0 <= a < 2 ^ 53 -> 0 < b -> pymod (inject_Z a) (inject_Z b) = inject_Z (a mod b).
Proof. intros. unfold pymod. now rewrite float_div_mod_int. Qed.

End WholeSeconds.

Section WholeSecondCodec.
Import F64 WholeSeconds.

Lemma whole_second_fields n :
  0 <= n < 2 ^ 53 ->
  trunc (floordiv (inject_Z n) 3600) = n / 3600
  /\ trunc (floordiv (pymod (inject_Z n) 3600) 60) = n mod 3600 / 60
  /\ trunc (pymod (inject_Z n) 60) = n mod 60
  /\ pymod (inject_Z n) 1 = 0%Q.
Proof.
  intros Hn.
  change 3600%Q with (inject_Z 3600). change 60%Q with (inject_Z 60).
  change 1%Q with (inject_Z 1).
  pose proof (Z.mod_pos_bound n 3600 ltac:(lia)).
  rewrite floordiv_int, !pymod_int, floordiv_int, !trunc_int by lia.
  rewrite Z.mod_1_r. repeat split.
Qed.

(** X11. On a whole number of seconds (below 2^53) the ASS time shows
    the hours, minutes and seconds of integer division, and [00] for
    the hundredths. *)
Theorem format_ass_time_whole_seconds (n : Z) :
  0 <= n < 2 ^ 53 ->
  format_ass_time (inject_Z n)
  = Py.format_d 0 (n / 3600) ++ lit ":" ++ Py.format_d 2 (n mod 3600 / 60)
    ++ lit ":" ++ Py.format_d 2 (n mod 60) ++ lit ".00".
Proof.
  intros Hn. destruct (whole_second_fields n Hn) as (Eh & Em & Es & Ef).
  unfold format_ass_time. rewrite Eh, Em, Es, Ef. reflexivity.
Qed.

Lemma format_srt_time_whole n :
  0 <= n < 2 ^ 53 ->
  format_srt_time (inject_Z n)
  = Py.format_d 2 (n / 3600) ++ lit ":" ++ Py.format_d 2 (n mod 3600 / 60)
    ++ lit ":" ++ Py.format_d 2 (n mod 60) ++ lit ",000".
Proof.
  intros Hn. destruct (whole_second_fields n Hn) as (Eh & Em & Es & Ef).
  unfold format_srt_time. rewrite Eh, Em, Es, Ef. reflexivity.
Qed.

(** A number below one hundred is written with two decimal digits,
    which [int] reads back. *)
Lemma two_digits k :
  0 <= k < 100 ->
  exists a b, Py.format_d 2 k = [a; b]
              /\ Py.isdecimal a = true /\ Py.isdecimal b = true
              /\ Py.int_of_digits [a; b] = Some k.
Proof.
  intros Hk.
  assert (H : forallb
                (fun k => match Py.format_d 2 k with
                          | [a; b] =>
                              Py.isdecimal a && Py.isdecimal b
                              && match Py.int_of_digits [a; b] with
                                 | Some v => v =? k
                                 | None => false
                                 end
                          | _ => false
                          end)
                (map Z.of_nat (List.seq 0 100)) = true)
    by (vm_compute; reflexivity).
  rewrite forallb_forall in H. specialize (H k).
  destruct (Py.format_d 2 k) as [|a [|b [|c r]]];
    try (discriminate H; apply in_map_iff; exists (Z.to_nat k);
         split; [lia|apply in_seq; lia]).
  exists a, b.
  assert (Hin : In k (map Z.of_nat (List.seq 0 100))).
  { apply in_map_iff. exists (Z.to_nat k). split; [lia|apply in_seq; lia]. }
  specialize (H Hin). apply andb_true_iff in H as [H H3].
  apply andb_true_iff in H as [H1 H2].
  destruct (Py.int_of_digits [a; b]) as [v|]; [|discriminate].
  apply Z.eqb_eq in H3. subst v. auto.
Qed.

Lemma time_re_two_digit_fields a1 b1 a2 b2 a3 b3 :
  Py.isdecimal a1 = true -> Py.isdecimal b1 = true ->
  Py.isdecimal a2 = true -> Py.isdecimal b2 = true ->
  Py.isdecimal a3 = true -> Py.isdecimal b3 = true ->
  Re.rmatch time_re ([a1; b1] ++ lit ":" ++ [a2; b2] ++ lit ":" ++ [a3; b3]
                     ++ lit ",000")
  = Some ([], [[a1; b1]; [a2; b2]; [a3; b3]; lit "000"]).
Proof.
  intros H1 H2 H3 H4 H5 H6.
  unfold Re.rmatch, time_re, Re.seq, Re.digits, Re.chr, Re.one_of.
  cbn -[Py.isdecimal].
  rewrite H1, H2. cbn -[Py.isdecimal].
  rewrite H3, H4. cbn -[Py.isdecimal].
  rewrite H5, H6. cbn -[Py.isdecimal].
  reflexivity.
Qed.

(** X12. Below one hundred hours, a whole number of seconds written as
    a SubRip time and read back by the parser is the same number. *)
Theorem srt_time_roundtrip_whole_seconds (n : Z) :
  0 <= n < 360000 ->
  decode_srt_time (format_srt_time (inject_Z n)) = Some (inject_Z n).
Proof.
  intros Hn. rewrite format_srt_time_whole by lia.
  pose proof (Z.mod_pos_bound n 3600 ltac:(lia)) as Hm.
  pose proof (Z.mod_pos_bound n 60 ltac:(lia)) as Hs.
  assert (Hh : 0 <= n / 3600 < 100).
  { split; [apply Z.div_pos; lia|apply Z.div_lt_upper_bound; lia]. }
  assert (Hmm : 0 <= n mod 3600 / 60 < 100).
  { split; [apply Z.div_pos; lia|apply Z.div_lt_upper_bound; lia]. }
  destruct (two_digits _ Hh) as (a1 & b1 & -> & Ha1 & Hb1 & E1).
  destruct (two_digits _ Hmm) as (a2 & b2 & -> & Ha2 & Hb2 & E2).
  destruct (two_digits (n mod 60) ltac:(lia)) as (a3 & b3 & -> & Ha3 & Hb3 & E3).
  unfold decode_srt_time.
  rewrite time_re_two_digit_fields by assumption.
  unfold group_seconds.
  change ([[a1; b1]; [a2; b2]; [a3; b3]; lit "000"] !! 0%nat)
    with (Some [a1; b1]).
  change ([[a1; b1]; [a2; b2]; [a3; b3]; lit "000"] !! (0 + 1)%nat)
    with (Some [a2; b2]).
  change ([[a1; b1]; [a2; b2]; [a3; b3]; lit "000"] !! (0 + 2)%nat)
    with (Some [a3; b3]).
  change ([[a1; b1]; [a2; b2]; [a3; b3]; lit "000"] !! (0 + 3)%nat)
    with (Some (lit "000")).
  cbn [mbind option_bind]. rewrite E1, E2, E3.
  change (Py.int_of_digits (lit "000")) with (Some 0).
  cbn [mbind option_bind]. f_equal.
  assert (E : n / 3600 * 3600 + n mod 3600 / 60 * 60 + n mod 60 = n).
  { clear. Z.div_mod_to_equations. lia. }
  rewrite E. change (int_truediv 0 1000) with 0%Q. unfold fadd.
  rewrite round64_int by lia.
  rewrite (F64Facts.round64_ext _ (inject_Z n)) by apply Qplus_0_r.
  apply round64_int. lia.
Qed.

End WholeSecondCodec.

Lemma format_ass_time_whole_seconds_witness :
  format_ass_time (inject_Z 3725) = lit "1:02:05.00".
Proof.
  apply (format_ass_time_whole_seconds 3725). lia.
Defined.

Lemma srt_time_roundtrip_whole_seconds_witness :
  decode_srt_time (format_srt_time (inject_Z 3725)) = Some (inject_Z 3725).
Proof.
  apply (srt_time_roundtrip_whole_seconds 3725). lia.
Defined.

(** ** The times the parser returns *)

Lemma decimal_value_nonneg c d : Py.decimal_value c = Some d -> 0 <= d.
Proof.
  unfold Py.decimal_value.
  destruct (List.find _ Py.decimal_zeros) as [z|] eqn:E; [|discriminate].
  intros [= <-]. apply find_some in E as [_ E]. unfold Py.between in E.
  apply andb_true_iff in E as [E _]. apply Z.leb_le in E. lia.
Qed.

Lemma int_of_digits_nonneg s z : Py.int_of_digits s = Some z -> 0 <= z.
Proof.
  unfold Py.int_of_digits. destruct s as [|c0 s0]; [discriminate|].
  assert (H : forall s a, 0 <= a ->
            fold_left (fun acc c =>
                         match acc, Py.decimal_value c with
                         | Some a, Some d => Some (10 * a + d)
                         | _, _ => None
                         end) s (Some a) = Some z -> 0 <= z).
  { clear. induction s as [|c s IH]; intros a Ha H.
    - cbn in H. now injection H as <-.
    - cbn [fold_left] in H.
      destruct (Py.decimal_value c) as [d|] eqn:E.
      + apply (IH (10 * a + d)); [|exact H].
        apply decimal_value_nonneg in E. lia.
      + exfalso. clear -H. induction s as [|c' s IH]; [discriminate|].
        apply IH. exact H. }
  apply H. lia.
Qed.

Lemma group_seconds_nonneg g i q :
  group_seconds g i = Some q -> (0 <= q)%Q.
Proof.
  unfold group_seconds. intros H.
  destruct (g !! i ≫= Py.int_of_digits) as [hh|] eqn:Eh; [|discriminate].
  destruct (g !! (i + 1)%nat ≫= Py.int_of_digits) as [mm|] eqn:Em;
    [|discriminate].
  destruct (g !! (i + 2)%nat ≫= Py.int_of_digits) as [ss|] eqn:Es;
    [|discriminate].
  destruct (g !! (i + 3)%nat ≫= Py.int_of_digits) as [ms|] eqn:Ems;
    [|discriminate].
  cbn in H. injection H as <-.
  assert (Hn : forall j z, g !! j ≫= Py.int_of_digits = Some z -> 0 <= z).
  { intros j z Hz. destruct (g !! j) as [s|]; [|discriminate].
    exact (int_of_digits_nonneg _ _ Hz). }
  apply Hn in Eh, Em, Es, Ems.
  unfold F64.fadd. apply F64Facts.round64_nonneg.
  assert (H0 : (0 == 0 + 0)%Q) by reflexivity. rewrite H0 at 1.
  apply Qplus_le_compat.
  - apply F64Facts.round64_nonneg. change 0%Q with (inject_Z 0).
    rewrite <- Zle_Qle. lia.
  - unfold F64.int_truediv. apply F64Facts.round64_nonneg.
    apply Qle_shift_div_l; [reflexivity|]. rewrite Qmult_0_l.
    change 0%Q with (inject_Z 0). rewrite <- Zle_Qle. exact Ems.
Qed.

Lemma block_entry_times block e :
  block_entry block = Some e -> (0 <= e_start e)%Q /\ (0 <= e_end e)%Q.
Proof.
  unfold block_entry, parse_block.
  destruct (_ <? 2)%nat; [discriminate|].
  destruct (find_time _ 0) as [[g idx]|]; [|discriminate].
  destruct (group_seconds g 0) as [st|] eqn:E1; [|discriminate].
  destruct (group_seconds g 4) as [en|] eqn:E2; [|discriminate].
  cbn. destruct (clean_text _); [discriminate|].
  intros [= <-]. cbn.
  split; eapply group_seconds_nonneg; eassumption.
Qed.

(** X13. No time the parser returns is negative. *)
Theorem parsed_times_nonnegative (content : pystr) (entries : list entry) :
  parse_srt_text content = Some entries ->
  Forall (fun e => (0 <= e_start e)%Q /\ (0 <= e_end e)%Q) entries.
Proof.
  intros H. apply Forall_forall. intros e He.
  destruct (parsed_entry_origin _ _ _ H He) as (b & _ & Hb).
  exact (block_entry_times _ _ Hb).
Qed.

Lemma parsed_times_nonnegative_witness :
  Forall (fun e => (0 <= e_start e)%Q /\ (0 <= e_end e)%Q)
         [Entry 1 (5 # 2) (lit "Hello")].
Proof.
  apply (parsed_times_nonnegative demo_srt). vm_compute. reflexivity.
Defined.
